(** * keras_cv_attention_models: LeViT builder and model surgery

    A shallow embedding of [levit/levit.py] and
    [model_surgery/model_surgery.py], with the properties of the
    specification stated over it. *)

From Stdlib Require Import String Ascii DecimalString ZArith List Bool Lia.
From Stdlib Require Import QArith Reals Lra Psatz.
From Stdlib Require Import SpecFloat.
Import ListNotations.

(** ** Python helpers shared by both source files *)

Module Py.

(** [str(n)] for a natural number, as ["{}".format(n)] prints it. *)
Definition str_of_nat (n : nat) : string :=
  NilEmpty.string_of_uint (Nat.to_uint n).

(** [s.upper()], on ASCII letters. *)
Definition upper_ascii (c : ascii) : ascii :=
  let n := nat_of_ascii c in
  if (97 <=? n)%nat && (n <=? 122)%nat then ascii_of_nat (n - 32) else c.

Fixpoint upper (s : string) : string :=
  match s with
  | EmptyString => EmptyString
  | String c r => String (upper_ascii c) (upper r)
  end.

(** [s.startswith(p)] *)
Fixpoint startswith (p s : string) : bool :=
  match p, s with
  | EmptyString, _ => true
  | String a p', String b s' => Ascii.eqb a b && startswith p' s'
  | String _ _, EmptyString => false
  end.

(** [s.replace(old, new)] for a non-empty [old]: the occurrences of [old]
    are found left to right, without overlap.  [skip] counts the characters
    of a found occurrence still to be dropped. *)
Fixpoint replace_from (old new s : string) (skip : nat) : string :=
  match s with
  | EmptyString => EmptyString
  | String c r =>
      match skip with
      | S k => replace_from old new r k
      | O =>
          if startswith old s
          then new ++ replace_from old new r (String.length old - 1)
          else String c (replace_from old new r 0)
      end
  end.

Definition replace (s old new : string) : string := replace_from old new s 0.

(** [a > b] and [a < b] on numbers. *)
Definition Qgtb (a b : Q) : bool := negb (Qle_bool a b).
Definition Qltb (a b : Q) : bool := negb (Qle_bool b a).

(** Truth value of an optional string: [None] and [""] are false. *)
Definition truthy (s : option string) : bool :=
  match s with
  | Some (String _ _) => true
  | _ => false
  end.

(** A list of results, each of which may have failed: all of them, or the
    failure. *)
Fixpoint sequence {B : Type} (l : list (option B)) : option (list B) :=
  match l with
  | [] => Some []
  | None :: _ => None
  | Some x :: r =>
      match sequence r with Some r' => Some (x :: r') | None => None end
  end.

Lemma sequence_Some {B : Type} (l : list (option B)) :
  Forall (fun o => o <> None) l -> exists r, sequence l = Some r.
Proof.
  induction 1 as [| o l Ho _ [r IH]]; [now exists [] |].
  destruct o as [x |]; [| congruence].
  exists (x :: r). cbn. now rewrite IH.
Qed.

Lemma sequence_Forall2 {B : Type} (l : list (option B)) (r : list B) :
  sequence l = Some r <-> Forall2 (fun o x => o = Some x) l r.
Proof.
  revert r. induction l as [| o l IH]; intros r; cbn.
  - split; [intros [= <-]; constructor | intros H; now inversion H].
  - destruct o as [x |].
    + destruct (sequence l) as [r' |].
      * split.
        -- intros [= <-]. constructor; [reflexivity | now apply IH].
        -- intros H. inversion H as [| ? y ? r'' Hx Hr]; subst.
           injection Hx as <-. apply IH in Hr. now injection Hr as <-.
      * split; [discriminate |].
        intros H. inversion H as [| ? y ? r'' Hx Hr]; subst.
        apply IH in Hr. discriminate.
    + split; [discriminate |]. intros H. inversion H; discriminate.
Qed.

Example str_of_nat_12 : str_of_nat 12 = "12"%string.
Proof. reflexivity. Qed.

Example upper_same : upper "same" = "SAME"%string.
Proof. reflexivity. Qed.

Example replace_relu : replace "stem_relu_relu6" "_relu" "_prelu" = "stem_prelu_prelu6"%string.
Proof. reflexivity. Qed.

Example replace_overlap : replace "aaa" "aa" "b" = "ba"%string.
Proof. reflexivity. Qed.

End Py.

(** ** [levit.py]: the activation *)

Module Activation.

Local Open Scope R_scope.

(** [tf.nn.relu6]: [min(max(features, 0), 6)]. *)
Definition relu6 (z : R) : R := Rmin (Rmax z 0) 6.

(** [hard_swish(inputs)]: [inputs * tf.nn.relu6(inputs + 3) / 6]. *)
Definition hard_swish (inputs : R) : R := inputs * relu6 (inputs + 3) / 6.

(** The specification's wording: [clamp(z, lo, hi)], written by cases. *)
Definition clamp (z lo hi : R) : R :=
  if Rlt_dec z lo then lo else if Rlt_dec hi z then hi else z.

Definition hard_swish_spec (x : R) : R := x * clamp (x + 3) 0 6 / 6.

Lemma relu6_clamp (z : R) : relu6 z = clamp z 0 6.
Proof.
  unfold relu6, clamp, Rmin, Rmax.
  repeat (destruct Rle_dec); repeat (destruct Rlt_dec); lra.
Qed.

Lemma hard_swish_refines (x : R) : hard_swish x = hard_swish_spec x.
Proof. unfold hard_swish, hard_swish_spec. now rewrite relu6_clamp. Qed.

(** The three regimes of the activation. *)
Lemma hard_swish_low (x : R) : x <= -3 -> hard_swish x = 0.
Proof.
  intros H. unfold hard_swish, relu6, Rmin, Rmax.
  repeat (destruct Rle_dec); lra.
Qed.

Lemma hard_swish_mid (x : R) : -3 <= x <= 3 -> hard_swish x = x * (x + 3) / 6.
Proof.
  intros H. unfold hard_swish, relu6, Rmin, Rmax.
  repeat (destruct Rle_dec); try lra; nra.
Qed.

Lemma hard_swish_high (x : R) : 3 <= x -> hard_swish x = x.
Proof.
  intros H. unfold hard_swish, relu6, Rmin, Rmax.
  repeat (destruct Rle_dec); try lra.
  assert (x = 3) by lra. subst. lra.
Qed.

(** On [[-3/2, +oo)] the activation is non-decreasing; the parabola
    [x * (x + 3) / 6] has its vertex at [x = -3/2]. *)
Lemma hard_swish_monotone_from_vertex (x y : R) :
  -3 / 2 <= x -> x <= y -> hard_swish x <= hard_swish y.
Proof.
  intros Hx Hxy.
  destruct (Rle_dec y 3) as [Hy | Hy].
  - rewrite !hard_swish_mid by lra. nra.
  - destruct (Rle_dec x 3) as [Hx3 | Hx3].
    + rewrite hard_swish_mid by lra. rewrite (hard_swish_high y) by lra. nra.
    + rewrite !hard_swish_high by lra. lra.
Qed.

(** Between [-3] and the vertex it strictly decreases. *)
Lemma hard_swish_decreasing_before_vertex (x y : R) :
  -3 <= x -> x < y -> y <= -3 / 2 -> hard_swish y < hard_swish x.
Proof.
  intros Hx Hxy Hy. rewrite !hard_swish_mid by lra. nra.
Qed.

(** C8, as stated, fails: on [x > -3] the activation is not monotonically
    non-decreasing, since [hard_swish (-2) = -1/3] while
    [hard_swish (-3/2) = -3/8]. *)
Lemma hard_swish_not_monotone_above_minus_3 :
  ~ (forall x y : R, -3 < x -> x <= y -> hard_swish x <= hard_swish y).
Proof.
  intros H. specialize (H (-2) (-3 / 2)).
  rewrite !hard_swish_mid in H by lra. lra.
Qed.

(** C8 (amended): for every real [x], [hard_swish x] equals
    [x * clamp (x + 3) 0 6 / 6]; [hard_swish (-3) = 0], [hard_swish 0 = 0],
    [hard_swish 3 = 3]; and [hard_swish] is monotonically non-decreasing on
    [x >= -3/2]. *)
Theorem hard_swish_properties :
  (forall x : R, hard_swish x = x * clamp (x + 3) 0 6 / 6) /\
  hard_swish (-3) = 0 /\ hard_swish 0 = 0 /\ hard_swish 3 = 3 /\
  (forall x y : R, -3 / 2 <= x -> x <= y -> hard_swish x <= hard_swish y).
Proof.
  split; [exact hard_swish_refines |].
  split; [apply hard_swish_low; lra |].
  split; [rewrite hard_swish_mid by lra; lra |].
  split; [apply hard_swish_high; lra |].
  exact hard_swish_monotone_from_vertex.
Qed.

Lemma hard_swish_properties_witness :
  -3 / 2 <= -1 /\ -1 <= 2 /\ hard_swish (-1) <= hard_swish 2.
Proof.
  split; [lra |]. split; [lra |].
  apply (proj2 (proj2 (proj2 (proj2 hard_swish_properties)))); lra.
Defined.

End Activation.

(** ** [levit.py]: [MultiHeadPositionalEmbedding]

    Block counts are integers ([Z]).  The layer takes square roots of them in
    floating point and converts back to integers; here these are computed
    exactly, as the integer square root and as the ceiling of the root of a
    quotient, the values the floating-point computation gives for the block
    counts of a network (perfect squares far below [2^24]). *)

Module PositionalEmbedding.

Local Open Scope Z_scope.

(** [range(n)]. *)
Definition range (n : Z) : list Z := map Z.of_nat (seq 0 (Z.to_nat n)).

(** [int(tf.math.sqrt(float(n)))]. *)
Definition int_sqrt (n : Z) : Z := Z.sqrt n.

(** [int(tf.math.ceil(tf.math.sqrt(float(kk / qq))))]: the true division
    raises [ZeroDivisionError] when [qq] is zero. *)
Definition ceil_sqrt_ratio (kk qq : Z) : option Z :=
  if qq =? 0 then None
  else
    let s := Z.sqrt (kk / qq) in
    Some (if s * s * qq =? kk then s else s + 1).

(** [tf.meshgrid(xs, ys)] with the default ["xy"] indexing: both results have
    one row per element of [ys]. *)
Definition meshgrid (xs ys : list Z) : list (list Z) * list (list Z) :=
  (map (fun _ => xs) ys, map (fun y => map (fun _ => y) xs) ys).

(** [tf.concat([tf.reshape(x, (-1, 1)), tf.reshape(y, (-1, 1))], axis=-1)]:
    the rows [[x, y]] in row-major order. *)
Definition coordinates (xy : list (list Z) * list (list Z)) : list (Z * Z) :=
  combine (concat (fst xy)) (concat (snd xy)).

Record layer : Type := mk_layer {
  bb_shape : Z * Z;              (* shape of the trainable table [bb] *)
  strides : Z;
  bb_pos : list (list Z)
}.

(** [build(input_shape)], for [input_shape = (_, num_heads, qq_blocks,
    kk_blocks)]. *)
Definition build (num_heads qq_blocks kk_blocks : Z) : option layer :=
  match ceil_sqrt_ratio kk_blocks qq_blocks with
  | None => None
  | Some strides =>
      let q_blocks_h := int_sqrt qq_blocks in
      let k_blocks_h := int_sqrt kk_blocks in
      let aa := coordinates (meshgrid (range q_blocks_h) (range q_blocks_h)) in
      let bb := coordinates (meshgrid (range k_blocks_h) (range k_blocks_h)) in
      let cc :=
        map (fun ii =>
               map (fun b => (Z.abs (fst b - fst ii * strides),
                              Z.abs (snd b - snd ii * strides))) bb) aa in
      Some (mk_layer (kk_blocks, num_heads) strides
              (map (fun ii => map (fun c => fst c + snd c * k_blocks_h) ii) cc))
  end.

Section Call.

Context {A : Type}.

(** [tf.gather(params, indices)] along the first axis, for one index: out of
    range it fails. *)
Definition gather1 (params : list (list A)) (i : Z) : option (list A) :=
  if i <? 0 then None else nth_error params (Z.to_nat i).

(** [tf.gather(self.bb, self.bb_pos)]: shape [(qq, kk, num_heads)]. *)
Definition gather (params : list (list A)) (indices : list (list Z))
  : option (list (list (list A))) :=
  Py.sequence (map (fun row => Py.sequence (map (gather1 params) row)) indices).

End Call.

(** *** Properties *)

Lemma ceil_sqrt_ratio_spec (kk qq s : Z) :
  0 < qq -> 0 <= kk -> ceil_sqrt_ratio kk qq = Some s ->
  0 <= s /\ kk <= s * s * qq /\ (forall t, 0 <= t -> kk <= t * t * qq -> s <= t).
Proof.
  intros Hq Hk. unfold ceil_sqrt_ratio.
  destruct (Z.eqb_spec qq 0) as [-> | _]; [lia |].
  intros [= <-].
  pose proof (Z.sqrt_spec (kk / qq) (Z.div_pos _ _ Hk Hq)) as [Hlo Hhi].
  pose proof (Z.sqrt_nonneg (kk / qq)) as Hs.
  set (r := Z.sqrt (kk / qq)) in *.
  pose proof (Z.mul_div_le kk qq Hq) as Hd1.
  pose proof (Z.mul_succ_div_gt kk qq Hq) as Hd2.
  destruct (Z.eqb_spec (r * r * qq) kk) as [He | Hne].
  - split; [lia |]. split; [lia |].
    intros t Ht Hle. destruct (Z_lt_le_dec t r); [| lia].
    exfalso. assert (t * t < r * r) by nia. nia.
  - split; [lia |]. split; [nia |].
    intros t Ht Hle.
    destruct (Z_lt_le_dec t (r + 1)) as [Hlt | ]; [| lia].
    exfalso. assert (t * t <= r * r) by nia. nia.
Qed.

Lemma range_bounds (n x : Z) : In x (range n) -> 0 <= x < n.
Proof.
  unfold range. rewrite in_map_iff. intros [i [<- Hi]].
  apply in_seq in Hi. lia.
Qed.

Lemma coordinates_meshgrid_bounds (n : Z) (p : Z * Z) :
  In p (coordinates (meshgrid (range n) (range n))) ->
  0 <= fst p < n /\ 0 <= snd p < n.
Proof.
  unfold coordinates, meshgrid. destruct p as [x y]. cbn [fst snd].
  intros Hin. split.
  - apply in_combine_l in Hin. apply in_concat in Hin.
    destruct Hin as [row [Hrow Hx]].
    apply in_map_iff in Hrow. destruct Hrow as [_ [<- _]].
    now apply range_bounds.
  - apply in_combine_r in Hin. apply in_concat in Hin.
    destruct Hin as [row [Hrow Hy]].
    apply in_map_iff in Hrow. destruct Hrow as [y' [<- Hy']].
    apply in_map_iff in Hy. destruct Hy as [_ [<- _]].
    now apply range_bounds.
Qed.

Lemma gather_in_range {A : Type} (params : list (list A)) (indices : list (list Z)) :
  Forall (Forall (fun i => 0 <= i < Z.of_nat (length params))) indices ->
  exists r, gather params indices = Some r.
Proof.
  intros H. unfold gather. apply Py.sequence_Some.
  apply Forall_map. eapply Forall_impl; [| exact H].
  intros row Hrow. cbn.
  destruct (Py.sequence_Some (map (gather1 params) row)) as [r Hr]; [| congruence].
  apply Forall_map. eapply Forall_impl; [| exact Hrow].
  intros i Hi. cbn in Hi |- *. unfold gather1.
  destruct (Z.ltb_spec i 0); [lia |].
  apply nth_error_Some. lia.
Qed.

(** The source's own example: 16 query blocks against 49 key blocks give
    stride 2 and a 16 x 49 index tensor. *)
Example build_16_49_shape :
  option_map (fun l => (strides l, length (bb_pos l), map (@length Z) (firstn 2 (bb_pos l))))
    (build 4 16 49) = Some (2, 16%nat, [49%nat; 49%nat]).
Proof. reflexivity. Qed.

Example build_4_9_bb_pos :
  option_map bb_pos (build 1 4 9) =
  Some [[0; 1; 2; 3; 4; 5; 6; 7; 8];
        [2; 1; 0; 5; 4; 3; 8; 7; 6];
        [6; 7; 8; 3; 4; 5; 0; 1; 2];
        [8; 7; 6; 5; 4; 3; 2; 1; 0]].
Proof. reflexivity. Qed.

(** Every index is bounded by the squared grid side, whatever the block
    counts, as soon as the strided query grid stays inside the key grid. *)
Lemma bb_pos_bound (num_heads qq_blocks kk_blocks : Z) (l : layer) :
  0 <= kk_blocks ->
  build num_heads qq_blocks kk_blocks = Some l ->
  0 <= strides l ->
  (int_sqrt qq_blocks - 1) * strides l <= int_sqrt kk_blocks - 1 ->
  Forall (Forall (fun i => 0 <= i < kk_blocks)) (bb_pos l).
Proof.
  intros Hkk Hb Hs Hfit. unfold build in Hb.
  destruct (ceil_sqrt_ratio kk_blocks qq_blocks) as [s |]; [| discriminate].
  injection Hb as <-. cbn [strides bb_pos] in *.
  pose proof (Z.sqrt_spec kk_blocks Hkk) as [Hk _].
  unfold int_sqrt in *.
  set (q := Z.sqrt qq_blocks) in *. set (k := Z.sqrt kk_blocks) in *.
  rewrite map_map. apply Forall_map, Forall_forall. intros a Ha.
  rewrite map_map. apply Forall_map, Forall_forall. intros b Hb.
  apply coordinates_meshgrid_bounds in Ha, Hb. cbn [fst snd].
  destruct a as [ax ay], b as [bx by_]. cbn [fst snd] in *.
  assert (0 <= ax * s <= k - 1) by nia.
  assert (0 <= ay * s <= k - 1) by nia.
  assert (Z.abs (bx - ax * s) <= k - 1) by lia.
  assert (Z.abs (by_ - ay * s) <= k - 1) by lia.
  pose proof (Z.abs_nonneg (bx - ax * s)).
  pose proof (Z.abs_nonneg (by_ - ay * s)).
  nia.
Qed.

(** C10: with perfect-square block counts, [qq_blocks <= kk_blocks] and the
    strided query grid inside the key grid, [build] yields an index tensor
    [bb_pos] all of whose entries lie in [[0, kk_blocks)], so the gather of a
    [kk_blocks]-row table in [call] stays in bounds; [build] does return
    whenever [qq_blocks] is positive. *)
Theorem bb_pos_in_range (num_heads qq_blocks kk_blocks : Z) :
  int_sqrt qq_blocks * int_sqrt qq_blocks = qq_blocks ->
  int_sqrt kk_blocks * int_sqrt kk_blocks = kk_blocks ->
  qq_blocks <= kk_blocks ->
  (forall s, ceil_sqrt_ratio kk_blocks qq_blocks = Some s ->
             (int_sqrt qq_blocks - 1) * s <= int_sqrt kk_blocks - 1) ->
  (0 < qq_blocks -> exists l, build num_heads qq_blocks kk_blocks = Some l) /\
  (forall l, build num_heads qq_blocks kk_blocks = Some l ->
     Forall (Forall (fun i => 0 <= i < kk_blocks)) (bb_pos l) /\
     forall (A : Type) (bb : list (list A)),
       Z.of_nat (length bb) = kk_blocks ->
       exists pos_bias, gather bb (bb_pos l) = Some pos_bias).
Proof.
  intros Hq Hk Hle Hfit. split.
  - intros Hpos. unfold build, ceil_sqrt_ratio.
    destruct (Z.eqb_spec qq_blocks 0); [lia |]. eauto.
  - intros l Hb.
    assert (Hs : ceil_sqrt_ratio kk_blocks qq_blocks = Some (strides l)).
    { unfold build in Hb.
      destruct (ceil_sqrt_ratio kk_blocks qq_blocks); [| discriminate].
      now injection Hb as <-. }
    assert (Hkk : 0 <= kk_blocks).
    { rewrite <- Hk. apply Z.square_nonneg. }
    assert (Hs0 : 0 <= strides l).
    { unfold ceil_sqrt_ratio in Hs.
      destruct (qq_blocks =? 0); [discriminate |]. injection Hs as <-.
      pose proof (Z.sqrt_nonneg (kk_blocks / qq_blocks)).
      destruct (_ =? _); lia. }
    assert (Hin : Forall (Forall (fun i => 0 <= i < kk_blocks)) (bb_pos l)).
    { eapply bb_pos_bound; eauto. }
    split; [exact Hin |].
    intros A bb Hlen. apply gather_in_range. now rewrite Hlen.
Qed.

Lemma bb_pos_in_range_witness :
  exists l, build 6 16 49 = Some l /\
            Forall (Forall (fun i => 0 <= i < 49)) (bb_pos l).
Proof.
  assert (H1 : int_sqrt 16 * int_sqrt 16 = 16) by reflexivity.
  assert (H2 : int_sqrt 49 * int_sqrt 49 = 49) by reflexivity.
  assert (H3 : 16 <= 49) by lia.
  assert (H4 : forall s, ceil_sqrt_ratio 49 16 = Some s ->
                         (int_sqrt 16 - 1) * s <= int_sqrt 49 - 1).
  { intros s Hs. vm_compute in Hs. injection Hs as <-. vm_compute. discriminate. }
  destruct (bb_pos_in_range 6 16 49 H1 H2 H3 H4) as [Hex Hall].
  destruct Hex as [l Hl]; [lia |].
  exists l. split; [exact Hl |]. exact (proj1 (Hall l Hl)).
Defined.

End PositionalEmbedding.

(** ** The functional-API graph that [levit.py] builds

    A symbolic tensor is a reference to an output of a node, with its static
    shape; shapes leave out the batch axis, so that Python's [shape[1]] is
    the head of the list.  Calling a layer appends one node to the graph.
    The shape rules are those of the engine's static shape inference, for
    the default channels-last data format; a call the engine rejects, or a
    Python error, aborts the build. *)

Module Graph.

Local Open Scope Z_scope.

Definition shape : Type := list Z.

Record tensor : Type := mk_tensor {
  t_node : nat;          (* position of the producing node *)
  t_index : nat;         (* which of its outputs *)
  t_shape : shape
}.

Inductive activation_fn : Type :=
| ActHardSwish                      (* the registered function [hard_swish] *)
| ActNamed (identifier : string).

Inductive lambda_fn : Type :=
| MatmulTransposeB                  (* [tf.matmul(xx[0], xx[1], transpose_b=True)] *)
| Matmul.                           (* [tf.matmul(xx[0], xx[1])] *)

Inductive tf_op : Type :=
| OpReshape (target : list Z)       (* [tf.reshape(x, [-1] + target)] *)
| OpTranspose (perm : list nat)     (* [tf.transpose(x, perm)] *)
| OpSplit (sizes : list Z)          (* [tf.split(x, sizes, axis=-1)] *)
| OpTruedivSqrt (key_dim : Z)       (* [x / tf.math.sqrt(tf.cast(key_dim, dtype))] *)
| OpSoftmax                         (* [tf.nn.softmax(x, axis=-1)] *)
| OpStridedSlice (step : Z).        (* [x[:, ::step, ::step, :]] *)

Inductive layer_class : Type :=
| InputLayer (input_shape : shape)
| ZeroPadding2D (padding : Z)
| Conv2D (filters kernel_size strides : Z) (use_bias : bool)
| BatchNormalization (axis : Z) (momentum epsilon : Q) (zero_gamma : bool)
| Activation (activation : activation_fn)
| Dense (units : Z) (use_bias : bool) (activation : option string)
| Dropout (rate : Q) (noise_shape : option (list (option Z)))
| Add
| GlobalAveragePooling1D
| Lambda (function : lambda_fn)
| MultiHeadPositionalEmbedding
| TFOpLambda (op : tf_op).

Record node : Type := mk_node {
  node_name : option string;        (* [None]: the engine picks a name *)
  node_class : layer_class;
  inbound : list tensor;
  node_outputs : list shape
}.

(** *** Static shape inference *)

Definition broadcast_dim (a b : Z) : option Z :=
  if a =? b then Some a
  else if a =? 1 then Some b
  else if b =? 1 then Some a
  else None.

Fixpoint broadcast (s1 s2 : shape) : option shape :=
  match s1, s2 with
  | [], [] => Some []
  | a :: r1, b :: r2 =>
      match broadcast_dim a b, broadcast r1 r2 with
      | Some d, Some r => Some (d :: r)
      | _, _ => None
      end
  | _, _ => None
  end.

Definition shape_eqb (s1 s2 : shape) : bool :=
  if list_eq_dec Z.eq_dec s1 s2 then true else false.

(** The sum of a list of sizes. *)
Definition total (l : list Z) : Z := fold_right Z.add 0 l.

(** Replace the last dimension. *)
Fixpoint with_last (s : shape) (d : Z) : option shape :=
  match s with
  | [] => None
  | [_] => Some [d]
  | a :: r => option_map (cons a) (with_last r d)
  end.

(** [x[:, ::step, ::step, :]] keeps every [step]-th row and column; a zero
    step is an error. *)
Definition strided (n step : Z) : Z := (n + Z.abs step - 1) / Z.abs step.

Definition transpose_shape (perm : list nat) (s : shape) : option shape :=
  match perm with
  | O :: rest =>
      if (length rest =? length s)%nat
      then Py.sequence
             (map (fun i => nth_error s (Nat.pred i)) rest)
      else None
  | _ => None
  end.

Definition matmul_shape (transpose_b : bool) (a b : shape) : option shape :=
  match a, b with
  | [h1; m; k1], [h2; x; y] =>
      let k2 := if transpose_b then y else x in
      let n := if transpose_b then x else y in
      if (h1 =? h2) && (k1 =? k2) then Some [h1; m; n] else None
  | _, _ => None
  end.

Definition output_shapes (c : layer_class) (inputs : list shape)
  : option (list shape) :=
  match c, inputs with
  | InputLayer s, [] => Some [s]
  | ZeroPadding2D p, [[h; w; ch]] => Some [[h + 2 * p; w + 2 * p; ch]]
  | Conv2D filters k s _, [[h; w; _]] =>
      if (k <=? h) && (k <=? w) && (0 <? s) && (0 <? k)
      then Some [[(h - k) / s + 1; (w - k) / s + 1; filters]]
      else None
  | BatchNormalization _ _ _ _, [s] => Some [s]
  | Activation _, [s] => Some [s]
  | Dense units _ _, [s] => option_map (fun r => [r]) (with_last s units)
  | Dropout _ _, [s] => Some [s]
  | Add, [s1; s2] => option_map (fun r => [r]) (broadcast s1 s2)
  | GlobalAveragePooling1D, [[_; features]] => Some [[features]]
  | Lambda MatmulTransposeB, [a; b] =>
      option_map (fun r => [r]) (matmul_shape true a b)
  | Lambda Matmul, [a; b] =>
      option_map (fun r => [r]) (matmul_shape false a b)
  | MultiHeadPositionalEmbedding, [[num_heads; qq_blocks; kk_blocks]] =>
      match PositionalEmbedding.ceil_sqrt_ratio kk_blocks qq_blocks with
      | None => None
      | Some _ =>
          let q := PositionalEmbedding.int_sqrt qq_blocks in
          let k := PositionalEmbedding.int_sqrt kk_blocks in
          option_map (fun r => [r])
            (broadcast [num_heads; qq_blocks; kk_blocks] [num_heads; q * q; k * k])
      end
  | TFOpLambda (OpReshape target), [_] => Some [target]
  | TFOpLambda (OpTranspose perm), [s] =>
      option_map (fun r => [r]) (transpose_shape perm s)
  | TFOpLambda (OpSplit sizes), [s] =>
      match rev s with
      | last :: _ =>
          if total sizes =? last
          then Py.sequence (map (with_last s) sizes)
          else None
      | [] => None
      end
  | TFOpLambda (OpTruedivSqrt _), [s] => Some [s]
  | TFOpLambda OpSoftmax, [s] => Some [s]
  | TFOpLambda (OpStridedSlice step), [[h; w; ch]] =>
      if step =? 0 then None else Some [[strided h step; strided w step; ch]]
  | _, _ => None
  end.

End Graph.

(** ** [levit.py]: the model builder *)

Module LeViT.

Import Graph.
Local Open Scope string_scope.
Local Open Scope Z_scope.

(** Graph construction threads the list of nodes built so far and may
    abort. *)
Definition builder (A : Type) : Type := list node -> option (A * list node).

Definition ret {A : Type} (a : A) : builder A := fun g => Some (a, g).

Definition raise {A : Type} : builder A := fun _ => None.

Definition bind {A B : Type} (m : builder A) (f : A -> builder B) : builder B :=
  fun g => match m g with
           | Some (a, g') => f a g'
           | None => None
           end.

Notation "x <- m ;; k" := (bind m (fun x => k))
  (at level 61, m at next level, right associativity).

(** Calling a layer on symbolic tensors: one new node, whose outputs are
    returned. *)
Definition call_layer (name : option string) (c : layer_class)
    (inputs : list tensor) : builder (list tensor) :=
  fun g =>
    match output_shapes c (map t_shape inputs) with
    | None => None
    | Some outs =>
        Some (map (fun p => mk_tensor (length g) (fst p) (snd p))
                  (combine (seq 0 (length outs)) outs),
              (g ++ [mk_node name c inputs outs])%list)
    end.

(** A layer with a single output. *)
Definition call (name : option string) (c : layer_class)
    (inputs : list tensor) : builder tensor :=
  outs <- call_layer name c inputs ;;
  match outs with
  | [t] => ret t
  | _ => raise
  end.

Definition BATCH_NORM_DECAY : Q := 9 # 10.
Definition BATCH_NORM_EPSILON : Q := 1 # 100000.

Section Builder.

(** [K.image_data_format()], a setting of the engine. *)
Variable image_data_format : string.

Definition batchnorm_with_activation (inputs : tensor)
    (activation : option string) (zero_gamma : bool) (name : string)
  : builder tensor :=
  let bn_axis := if String.eqb image_data_format "channels_last" then -1 else 1 in
  nn <- call (Some (name ++ "bn"))
          (BatchNormalization bn_axis BATCH_NORM_DECAY BATCH_NORM_EPSILON zero_gamma)
          [inputs] ;;
  match activation with
  | Some act =>
      if String.eqb act "hard_swish"
      then call (Some (name ++ act)) (Activation ActHardSwish) [nn]
      else if Py.truthy activation
           then call (Some (name ++ act)) (Activation (ActNamed act)) [nn]
           else ret nn
  | None => ret nn
  end.

Definition conv2d_no_bias (inputs : tensor) (filters kernel_size strides : Z)
    (padding : string) (use_bias : bool) (name : string) : builder tensor :=
  inputs <- (if String.eqb (Py.upper padding) "SAME"
             then call None (ZeroPadding2D (kernel_size / 2)) [inputs]
             else ret inputs) ;;
  call (Some (name ++ "conv")) (Conv2D filters kernel_size strides use_bias) [inputs].

Definition scaled_dot_product_attention (qq kk vv : tensor)
    (key_dim attn_ratio output_dim : Z) (activation : option string)
    (name : string) : builder tensor :=
  attn <- call None (Lambda MatmulTransposeB) [qq; kk] ;;
  attn <- call None (TFOpLambda (OpTruedivSqrt key_dim)) [attn] ;;
  attn <- call (Some (name ++ "attn_pos")) MultiHeadPositionalEmbedding [attn] ;;
  attn <- call None (TFOpLambda OpSoftmax) [attn] ;;
  output <- call None (Lambda Matmul) [attn; vv] ;;
  output <- call None (TFOpLambda (OpTranspose [0; 2; 1; 3]%nat)) [output] ;;
  match t_shape output with
  | [d1; d2; d3] =>
      output <- call None (TFOpLambda (OpReshape [d1; d2 * d3])) [output] ;;
      output <- match activation with
                | Some act =>
                    if String.eqb act "hard_swish"
                    then call (Some (name ++ "out_" ++ act))
                           (Activation ActHardSwish) [output]
                    else if Py.truthy activation
                         then call (Some (name ++ "out_" ++ act))
                                (Activation (ActNamed act)) [output]
                         else ret output
                | None => ret output
                end ;;
      output <- call (Some (name ++ "out")) (Dense output_dim false None) [output] ;;
      batchnorm_with_activation output None true (name ++ "out_")
  | _ => raise
  end.

(** Python's [a // b]. *)
Definition floordiv (a b : Z) : builder Z :=
  if Z.eqb b 0 then raise else ret (a / b).

Definition mhsa_with_multi_head_position (inputs : tensor)
    (output_dim num_heads key_dim attn_ratio : Z) (activation : option string)
    (name : string) : builder tensor :=
  match t_shape inputs with
  | [blocks; _] =>
      let embed_dim := key_dim * num_heads in
      let qkv_dim := (attn_ratio + 1 + 1) * embed_dim in
      qkv <- call (Some (name ++ "qkv")) (Dense qkv_dim false None) [inputs] ;;
      qkv <- batchnorm_with_activation qkv None false (name ++ "qkv_") ;;
      per_head <- floordiv qkv_dim num_heads ;;
      qkv <- call None (TFOpLambda (OpReshape [blocks; num_heads; per_head])) [qkv] ;;
      qkv <- call None (TFOpLambda (OpTranspose [0; 2; 1; 3]%nat)) [qkv] ;;
      parts <- call_layer None
                 (TFOpLambda (OpSplit [key_dim; key_dim; key_dim * attn_ratio])) [qkv] ;;
      match parts with
      | [qq; kk; vv] =>
          scaled_dot_product_attention qq kk vv key_dim attn_ratio output_dim
            activation name
      | _ => raise
      end
  | _ => raise
  end.

Definition mhsa_with_multi_head_position_and_strides (inputs : tensor)
    (output_dim num_heads key_dim attn_ratio strides : Z)
    (activation : option string) (name : string) : builder tensor :=
  match t_shape inputs with
  | [blocks; channel] =>
      let embed_dim := key_dim * num_heads in
      qq <- (if negb (Z.eqb strides 1)
             then
               let width := PositionalEmbedding.int_sqrt blocks in
               qq <- call None (TFOpLambda (OpReshape [width; width; channel])) [inputs] ;;
               qq <- call None (TFOpLambda (OpStridedSlice strides)) [qq] ;;
               match t_shape qq with
               | [h; w; _] =>
                   call None (TFOpLambda (OpReshape [h * w; channel])) [qq]
               | _ => raise
               end
             else ret inputs) ;;
      qq <- call (Some (name ++ "q")) (Dense embed_dim false None) [qq] ;;
      qq <- batchnorm_with_activation qq None false (name ++ "q_") ;;
      match t_shape qq with
      | q_blocks :: _ =>
          qq <- call None (TFOpLambda (OpReshape [q_blocks; num_heads; key_dim])) [qq] ;;
          qq <- call None (TFOpLambda (OpTranspose [0; 2; 1; 3]%nat)) [qq] ;;
          let kv_dim := (attn_ratio + 1) * embed_dim in
          kv <- call (Some (name ++ "kv")) (Dense kv_dim false None) [inputs] ;;
          kv <- batchnorm_with_activation kv None false (name ++ "kv_") ;;
          per_head <- floordiv kv_dim num_heads ;;
          kv <- call None (TFOpLambda (OpReshape [blocks; num_heads; per_head])) [kv] ;;
          kv <- call None (TFOpLambda (OpTranspose [0; 2; 1; 3]%nat)) [kv] ;;
          parts <- call_layer None
                     (TFOpLambda (OpSplit [key_dim; key_dim * attn_ratio])) [kv] ;;
          match parts with
          | [kk; vv] =>
              scaled_dot_product_attention qq kk vv key_dim attn_ratio output_dim
                activation name
          | _ => raise
          end
      | [] => raise
      end
  | _ => raise
  end.

Definition block_noise_shape : option (list (option Z)) :=
  Some [None; Some 1; Some 1].

Definition res_mhsa_with_multi_head_position (inputs : tensor)
    (embed_dim num_heads key_dim attn_ratio : Z) (drop_rate : Q)
    (activation : option string) (name : string) : builder tensor :=
  nn <- mhsa_with_multi_head_position inputs embed_dim num_heads key_dim
          attn_ratio activation name ;;
  nn <- (if Py.Qgtb drop_rate 0
         then call (Some (name ++ "drop")) (Dropout drop_rate block_noise_shape) [nn]
         else ret nn) ;;
  call (Some (name ++ "add")) Add [inputs; nn].

(** [t.shape[-1]] *)
Definition last_dim (t : tensor) : builder Z :=
  match rev (t_shape t) with
  | d :: _ => ret d
  | [] => raise
  end.

Definition res_mlp_block (inputs : tensor) (mlp_ratio : Z) (drop_rate : Q)
    (use_bias : bool) (activation : option string) (name : string)
  : builder tensor :=
  in_channels <- last_dim inputs ;;
  nn <- call (Some (name ++ "1_dense"))
          (Dense (in_channels * mlp_ratio) use_bias None) [inputs] ;;
  nn <- batchnorm_with_activation nn activation false (name ++ "1_") ;;
  nn <- call (Some (name ++ "2_dense")) (Dense in_channels use_bias None) [nn] ;;
  nn <- batchnorm_with_activation nn None false (name ++ "2_") ;;
  nn <- (if Py.Qgtb drop_rate 0
         then call (Some (name ++ "drop")) (Dropout drop_rate block_noise_shape) [nn]
         else ret nn) ;;
  call (Some (name ++ "add")) Add [inputs; nn].

(** A [for] loop that rebinds one variable. *)
Fixpoint for_each {A B : Type} (l : list A) (body : B -> A -> builder B) (b : B)
  : builder B :=
  match l with
  | [] => ret b
  | a :: r => b' <- body b a ;; for_each r body b'
  end.

Definition attention_mlp_stack (inputs : tensor)
    (out_channel num_heads depth key_dim attn_ratio mlp_ratio strides : Z)
    (drop_rate : Q) (activation : option string) (name : string)
  : builder tensor :=
  embed_dim <- last_dim inputs ;;
  nn <- for_each (seq 0 (Z.to_nat depth))      (* [range(depth)] *)
          (fun nn id =>
             let block_name := name ++ "block" ++ Py.str_of_nat (id + 1)%nat ++ "_" in
             nn <- res_mhsa_with_multi_head_position nn embed_dim num_heads key_dim
                     attn_ratio drop_rate activation block_name ;;
             if 0 <? mlp_ratio
             then res_mlp_block nn mlp_ratio drop_rate false activation
                    (block_name ++ "mlp_")
             else ret nn)
          inputs ;;
  if negb (Z.eqb embed_dim out_channel)
  then
    let block_name := name ++ "downsample_" in
    ds_num_heads <- floordiv embed_dim key_dim ;;
    let ds_attn_ratio := attn_ratio * strides in
    nn <- mhsa_with_multi_head_position_and_strides nn out_channel ds_num_heads
            key_dim ds_attn_ratio strides (Some "hard_swish") block_name ;;
    if 0 <? mlp_ratio
    then res_mlp_block nn mlp_ratio drop_rate false activation (block_name ++ "mlp_")
    else ret nn
  else ret nn.

Definition patch_stem (inputs : tensor) (stem_width : Z)
    (activation : option string) (name : string) : builder tensor :=
  nn <- conv2d_no_bias inputs (stem_width / 8) 3 2 "same" false (name ++ "1_") ;;
  nn <- batchnorm_with_activation nn activation false (name ++ "1_") ;;
  nn <- conv2d_no_bias nn (stem_width / 4) 3 2 "same" false (name ++ "2_") ;;
  nn <- batchnorm_with_activation nn activation false (name ++ "2_") ;;
  nn <- conv2d_no_bias nn (stem_width / 2) 3 2 "same" false (name ++ "3_") ;;
  nn <- batchnorm_with_activation nn activation false (name ++ "3_") ;;
  nn <- conv2d_no_bias nn stem_width 3 2 "same" false (name ++ "4_") ;;
  batchnorm_with_activation nn None false (name ++ "4_").

End Builder.

(** The keyword arguments of [LeViT]. *)
Record levit_args : Type := mk_args {
  patch_channel : Z;
  out_channels : list Z;
  num_heads : list Z;
  depthes : list Z;
  key_dims : list Z;
  attn_ratios : list Z;
  mlp_ratios : list Z;
  strides : list Z;
  input_shape : shape;
  num_classes : Z;
  activation : option string;
  drop_connect_rate : Q;
  dropout : Q;
  classifier_activation : option string;
  use_distillation : bool;
  pretrained : option string;
  model_name : string
}.

Definition set_drop_connect_rate (a : levit_args) (r : Q) : levit_args :=
  mk_args (patch_channel a) (out_channels a) (num_heads a) (depthes a)
    (key_dims a) (attn_ratios a) (mlp_ratios a) (strides a) (input_shape a)
    (num_classes a) (activation a) r (dropout a) (classifier_activation a)
    (use_distillation a) (pretrained a) (model_name a).

(** One stage's hyper-parameters, as [zip] groups them. *)
Record stage : Type := mk_stage {
  out_channel : Z; num_head : Z; depth : Z; key_dim : Z;
  attn_ratio : Z; mlp_ratio : Z; stride : Z
}.

(** [zip] of the seven lists: as long as the shortest. *)
Fixpoint zip7 (cs ns ds ks ars mrs ss : list Z) : list stage :=
  match cs, ns, ds, ks, ars, mrs, ss with
  | c :: cs', n :: ns', d :: ds', k :: ks', ar :: ars', mr :: mrs', st :: ss' =>
      mk_stage c n d k ar mr st :: zip7 cs' ns' ds' ks' ars' mrs' ss'
  | _, _, _, _, _, _, _ => []
  end.

(** [enumerate(l)] *)
Definition enumerate {A : Type} (l : list A) : list (nat * A) :=
  combine (seq 0 (length l)) l.

(** A [keras.models.Model]: its input, its outputs and, in creation order,
    the nodes they span. *)
Record model : Type := mk_model {
  model_input : tensor;
  model_outputs : list tensor;
  model_layers : list node;
  name : string
}.

Section Build.

Variable image_data_format : string.

(** The stage loop of [LeViT]. *)
Definition stages (a : levit_args) (nn : tensor) : builder tensor :=
  for_each
    (enumerate (zip7 (out_channels a) (num_heads a) (depthes a) (key_dims a)
                  (attn_ratios a) (mlp_ratios a) (strides a)))
    (fun nn p =>
       let '(id, s) := p in
       let name := "stack" ++ Py.str_of_nat (id + 1)%nat ++ "_" in
       let drop_rate := 0%Q in
       attention_mlp_stack image_data_format nn (out_channel s) (num_head s)
         (depth s) (key_dim s) (attn_ratio s) (mlp_ratio s) (stride s)
         drop_rate (activation a) name)
    nn.

(** The first part of [LeViT]: input, patch stem, flattening to tokens and
    the stages. *)
Definition LeViT_backbone (a : levit_args) : builder (tensor * tensor) :=
  inputs <- call None (InputLayer (input_shape a)) [] ;;
  nn <- patch_stem image_data_format inputs (patch_channel a) (activation a) "stem_" ;;
  match t_shape nn with
  | [h; w; _] =>
      nn <- call None (TFOpLambda (OpReshape [h * w; patch_channel a])) [nn] ;;
      nn <- stages a nn ;;
      ret (inputs, nn)
  | _ => raise
  end.

(** The graph of [LeViT], before the pretrained weights are loaded into it
    (loading changes no layer and no connection). *)
Definition LeViT_graph (a : levit_args) : builder (tensor * list tensor) :=
  backbone <- LeViT_backbone a ;;
  let '(inputs, nn) := backbone in
  if num_classes a =? 0
  then ret (inputs, [nn])
  else
    nn <- call None GlobalAveragePooling1D [nn] ;;
    nn <- (if Py.Qgtb (dropout a) 0 && Py.Qltb (dropout a) 1
           then call None (Dropout (dropout a) None) [nn]
           else ret nn) ;;
    out <- batchnorm_with_activation image_data_format nn None false "head_" ;;
    out <- call (Some "head")
             (Dense (num_classes a) true (classifier_activation a)) [out] ;;
    if use_distillation a
    then
      distill <- batchnorm_with_activation image_data_format nn None false
                   "distill_head_" ;;
      distill <- call (Some "distill_head")
                   (Dense (num_classes a) true (classifier_activation a))
                   [distill] ;;
      ret (inputs, [out; distill])
    else ret (inputs, [out]).

Definition LeViT (a : levit_args) : option model :=
  match LeViT_graph a [] with
  | Some ((inputs, out), layers) => Some (mk_model inputs out layers (model_name a))
  | None => None
  end.

End Build.

(** One entry of [BLOCK_CONFIGS]. *)
Record block_config : Type := mk_config {
  config_patch_channel : Z;
  config_out_channels : list Z;
  config_num_heads : list Z;
  config_depthes : list Z;
  config_key_dims : list Z;
  config_attn_ratios : list Z;
  config_mlp_ratios : list Z;
  config_strides : list Z
}.

Definition BLOCK_CONFIGS : list (string * block_config) :=
  [ ("128s", mk_config 128 [256; 384; 384] [4; 6; 8] [2; 3; 4] [16; 16; 16]
               [2; 2; 2] [2; 2; 2] [2; 2; 0]);
    ("128", mk_config 128 [256; 384; 384] [4; 8; 12] [4; 4; 4] [16; 16; 16]
              [2; 2; 2] [2; 2; 2] [2; 2; 0]);
    ("192", mk_config 192 [288; 384; 384] [3; 5; 6] [4; 4; 4] [32; 32; 32]
              [2; 2; 2] [2; 2; 2] [2; 2; 0]);
    ("256", mk_config 256 [384; 512; 512] [4; 6; 8] [4; 4; 4] [32; 32; 32]
              [2; 2; 2] [2; 2; 2] [2; 2; 0]);
    ("384", mk_config 384 [512; 768; 768] [6; 9; 12] [4; 4; 4] [32; 32; 32]
              [2; 2; 2] [2; 2; 2] [2; 2; 0]) ].

(** [BLOCK_CONFIGS[key]] *)
Fixpoint getitem {V : Type} (d : list (string * V)) (key : string) : option V :=
  match d with
  | [] => None
  | (k, v) :: r => if String.eqb k key then Some v else getitem r key
  end.

(** What the five entry points may pass on in [**kwargs]: the arguments of
    [LeViT] that they do not fix themselves, here with their defaults. *)
Record levit_kwargs : Type := mk_kwargs {
  kw_activation : option string;
  kw_drop_connect_rate : Q;
  kw_dropout : Q
}.

Definition default_kwargs : levit_kwargs := mk_kwargs (Some "hard_swish") 0 0.

(** The arguments an entry point calls [LeViT] with: the entry of
    [BLOCK_CONFIGS], its own parameters, the model name and the extra
    keyword arguments. *)
Definition variant_args (c : block_config) (input_shape : shape)
    (num_classes : Z) (use_distillation : bool)
    (classifier_activation pretrained : option string) (model_name : string)
    (kwargs : levit_kwargs) : levit_args :=
  mk_args (config_patch_channel c) (config_out_channels c) (config_num_heads c)
    (config_depthes c) (config_key_dims c) (config_attn_ratios c)
    (config_mlp_ratios c) (config_strides c) input_shape num_classes
    (kw_activation kwargs) (kw_drop_connect_rate kwargs) (kw_dropout kwargs)
    classifier_activation use_distillation pretrained model_name.

Section Variants.

Variable image_data_format : string.

Definition LeViT_variant (key model_name : string) (input_shape : shape)
    (num_classes : Z) (use_distillation : bool)
    (classifier_activation pretrained : option string) (kwargs : levit_kwargs)
  : option model :=
  match getitem BLOCK_CONFIGS key with
  | None => None
  | Some c =>
      LeViT image_data_format
        (variant_args c input_shape num_classes use_distillation
           classifier_activation pretrained model_name kwargs)
  end.

Definition LeViT128S := LeViT_variant "128s" "levit128s".
Definition LeViT128 := LeViT_variant "128" "levit128".
Definition LeViT192 := LeViT_variant "192" "levit192".
Definition LeViT256 := LeViT_variant "256" "levit256".
Definition LeViT384 := LeViT_variant "384" "levit384".

End Variants.

(** *** What a builder appends to the graph *)

(** [emits P m]: whenever [m] returns, the graph it leaves is the graph it
    was given followed by new nodes, each satisfying [P]. *)
Definition emits (P : node -> Prop) {A : Type} (m : builder A) : Prop :=
  forall g a g', m g = Some (a, g') ->
                 exists new, g' = (g ++ new)%list /\ Forall P new.

Section Emits.

Variable P : node -> Prop.

Lemma emits_ret {A : Type} (a : A) : emits P (ret a).
Proof.
  intros g a' g' [= <- <-]. exists []. now rewrite app_nil_r.
Qed.

Lemma emits_raise {A : Type} : emits P (@raise A).
Proof. intros g a g' [=]. Qed.

Lemma emits_bind {A B : Type} (m : builder A) (f : A -> builder B) :
  emits P m -> (forall a, emits P (f a)) -> emits P (bind m f).
Proof.
  intros Hm Hf g b g'. unfold bind.
  destruct (m g) as [[a g1] |] eqn:E; [| discriminate].
  intros Hb.
  destruct (Hm _ _ _ E) as [n1 [-> H1]].
  destruct (Hf a _ _ _ Hb) as [n2 [-> H2]].
  exists (n1 ++ n2)%list. split; [now rewrite app_assoc |].
  apply Forall_app; now split.
Qed.

Lemma emits_call_layer (name : option string) (c : layer_class)
    (inputs : list tensor) :
  (forall outs, P (mk_node name c inputs outs)) ->
  emits P (call_layer name c inputs).
Proof.
  intros HP g a g'. unfold call_layer.
  destruct (output_shapes c (map t_shape inputs)) as [outs |]; [| discriminate].
  intros [= <- <-]. eexists. split; [reflexivity |].
  constructor; [apply HP | constructor].
Qed.

Lemma emits_call (name : option string) (c : layer_class)
    (inputs : list tensor) :
  (forall outs, P (mk_node name c inputs outs)) ->
  emits P (call name c inputs).
Proof.
  intros HP. unfold call. apply emits_bind.
  - now apply emits_call_layer.
  - intros [| t [| ? ?]]; first [apply emits_ret | apply emits_raise].
Qed.

Lemma emits_floordiv (a b : Z) : emits P (floordiv a b).
Proof.
  unfold floordiv. destruct (Z.eqb b 0); [apply emits_raise | apply emits_ret].
Qed.

Lemma emits_last_dim (t : tensor) : emits P (last_dim t).
Proof.
  unfold last_dim. destruct (rev (t_shape t)); [apply emits_raise | apply emits_ret].
Qed.

Lemma emits_for_each {A B : Type} (l : list A) (body : B -> A -> builder B) :
  (forall b a, emits P (body b a)) -> forall b, emits P (for_each l body b).
Proof.
  intros Hbody. induction l as [| a l IH]; intros b; cbn [for_each].
  - apply emits_ret.
  - apply emits_bind; [apply Hbody | exact IH].
Qed.

End Emits.

Lemma emits_weaken (P Q : node -> Prop) {A : Type} (m : builder A) :
  (forall n, P n -> Q n) -> emits P m -> emits Q m.
Proof.
  intros HPQ Hm g a g' E. destruct (Hm _ _ _ E) as [new [-> Hn]].
  exists new. split; [reflexivity |]. eapply Forall_impl; eauto.
Qed.

(** One step of a proof that a builder emits only [P]-nodes. *)
Ltac emits_step :=
  first
    [ apply emits_ret
    | apply emits_raise
    | apply emits_floordiv
    | apply emits_last_dim
    | apply emits_call; intros; reflexivity
    | apply emits_call_layer; intros; reflexivity
    | apply emits_bind; [| intros ?]
    | match goal with
      | H : ?b = false |- emits _ (if ?b then _ else _) => rewrite H
      | |- emits _ (if ?b then _ else _) => destruct b
      | |- emits _ (match ?x with _ => _ end) => destruct x
      end ].

Ltac emits_auto := repeat emits_step.

(** The classes the backbone may create when no block drops its residual
    branch: anything but pooling and dropout. *)
Definition backbone_class (n : node) : bool :=
  match node_class n with
  | GlobalAveragePooling1D | Dropout _ _ => false
  | _ => true
  end.

Definition backbone_node (n : node) : Prop := backbone_class n = true.

Section EmitsBackbone.

Variable image_data_format : string.

Lemma batchnorm_with_activation_emits inputs activation zero_gamma name :
  emits backbone_node (batchnorm_with_activation image_data_format inputs activation
                   zero_gamma name).
Proof. unfold batchnorm_with_activation. emits_auto. Qed.

Lemma conv2d_no_bias_emits inputs filters kernel_size strides padding use_bias name :
  emits backbone_node (conv2d_no_bias inputs filters kernel_size strides padding
                   use_bias name).
Proof. unfold conv2d_no_bias. emits_auto. Qed.

Lemma scaled_dot_product_attention_emits qq kk vv key_dim attn_ratio output_dim
    activation name :
  emits backbone_node (scaled_dot_product_attention image_data_format qq kk vv key_dim
                   attn_ratio output_dim activation name).
Proof.
  unfold scaled_dot_product_attention.
  emits_auto; apply batchnorm_with_activation_emits.
Qed.

Lemma mhsa_with_multi_head_position_emits inputs output_dim num_heads key_dim
    attn_ratio activation name :
  emits backbone_node (mhsa_with_multi_head_position image_data_format inputs
                         output_dim num_heads key_dim attn_ratio activation name).
Proof.
  unfold mhsa_with_multi_head_position.
  emits_auto;
    first [apply batchnorm_with_activation_emits
          | apply scaled_dot_product_attention_emits].
Qed.

Lemma mhsa_with_multi_head_position_and_strides_emits inputs output_dim num_heads
    key_dim attn_ratio strides activation name :
  emits backbone_node (mhsa_with_multi_head_position_and_strides image_data_format
                         inputs output_dim num_heads key_dim attn_ratio strides
                         activation name).
Proof.
  unfold mhsa_with_multi_head_position_and_strides.
  emits_auto;
    first [apply batchnorm_with_activation_emits
          | apply scaled_dot_product_attention_emits].
Qed.

(** With a residual drop rate that is not positive, the residual blocks
    create no [Dropout]. *)
Lemma res_mhsa_with_multi_head_position_emits inputs embed_dim num_heads key_dim
    attn_ratio drop_rate activation name :
  Py.Qgtb drop_rate 0 = false ->
  emits backbone_node (res_mhsa_with_multi_head_position image_data_format inputs
                         embed_dim num_heads key_dim attn_ratio drop_rate
                         activation name).
Proof.
  intros Hd. unfold res_mhsa_with_multi_head_position.
  emits_auto. apply mhsa_with_multi_head_position_emits.
Qed.

Lemma res_mlp_block_emits inputs mlp_ratio drop_rate use_bias activation name :
  Py.Qgtb drop_rate 0 = false ->
  emits backbone_node (res_mlp_block image_data_format inputs mlp_ratio drop_rate
                         use_bias activation name).
Proof.
  intros Hd. unfold res_mlp_block.
  emits_auto; apply batchnorm_with_activation_emits.
Qed.

Lemma attention_mlp_stack_emits inputs out_channel num_heads depth key_dim
    attn_ratio mlp_ratio strides drop_rate activation name :
  Py.Qgtb drop_rate 0 = false ->
  emits backbone_node (attention_mlp_stack image_data_format inputs out_channel
                         num_heads depth key_dim attn_ratio mlp_ratio strides
                         drop_rate activation name).
Proof.
  intros Hd. unfold attention_mlp_stack.
  apply emits_bind; [apply emits_last_dim | intros embed_dim].
  apply emits_bind.
  - apply emits_for_each. intros nn id.
    apply emits_bind; [now apply res_mhsa_with_multi_head_position_emits |].
    intros nn'. destruct (0 <? mlp_ratio);
      [now apply res_mlp_block_emits | apply emits_ret].
  - intros nn. destruct (negb (Z.eqb embed_dim out_channel)); [| apply emits_ret].
    apply emits_bind; [apply emits_floordiv | intros ds_num_heads].
    apply emits_bind; [apply mhsa_with_multi_head_position_and_strides_emits |].
    intros nn'. destruct (0 <? mlp_ratio);
      [now apply res_mlp_block_emits | apply emits_ret].
Qed.

Lemma patch_stem_emits inputs stem_width activation name :
  emits backbone_node (patch_stem image_data_format inputs stem_width activation
                         name).
Proof.
  unfold patch_stem.
  repeat (apply emits_bind;
          [first [apply conv2d_no_bias_emits
                 | apply batchnorm_with_activation_emits] | intros ?]).
  apply batchnorm_with_activation_emits.
Qed.

Lemma stages_emits a nn :
  emits backbone_node (stages image_data_format a nn).
Proof.
  unfold stages. apply emits_for_each. intros nn' [id s].
  now apply attention_mlp_stack_emits.
Qed.

Lemma LeViT_backbone_emits a :
  emits backbone_node (LeViT_backbone image_data_format a).
Proof.
  unfold LeViT_backbone.
  apply emits_bind; [apply emits_call; intros; reflexivity | intros inputs].
  apply emits_bind; [apply patch_stem_emits | intros nn].
  destruct (t_shape nn) as [| h [| w [| c [| ? ?]]]]; try apply emits_raise.
  apply emits_bind; [apply emits_call; intros; reflexivity | intros nn1].
  apply emits_bind; [apply stages_emits | intros nn2]. apply emits_ret.
Qed.

End EmitsBackbone.

(** *** The output of the builder without a classification head *)

(** The claim's reading of the output: produced by a global average pooling
    layer. *)
Definition pooled_output (m : model) : Prop :=
  exists t n, model_outputs m = [t] /\
              nth_error (model_layers m) (t_node t) = Some n /\
              node_class n = GlobalAveragePooling1D.

(** The arguments of [LeViT128S(num_classes=0)]. *)
Definition LeViT128S_features : levit_args :=
  variant_args
    (mk_config 128 [256; 384; 384] [4; 6; 8] [2; 3; 4] [16; 16; 16]
       [2; 2; 2] [2; 2; 2] [2; 2; 0])
    [224; 224; 3] 0 true None (Some "imagenet") "levit128s" default_kwargs.

Example LeViT128S_features_args :
  LeViT128S "channels_last" [224; 224; 3] 0 true None (Some "imagenet")
    default_kwargs
  = LeViT "channels_last" LeViT128S_features.
Proof. reflexivity. Qed.

Example LeViT128S_features_output :
  option_map (fun m => (length (model_layers m),
                        map t_shape (model_outputs m),
                        map (fun t => option_map node_name
                                        (nth_error (model_layers m) (t_node t)))
                            (model_outputs m)))
    (LeViT "channels_last" LeViT128S_features)
  = Some (271%nat, [[16; 384]], [Some (Some "stack3_block4_mlp_add")]).
Proof. vm_compute. reflexivity. Qed.

Example LeViT128S_classifier_output :
  option_map (fun m => (length (model_layers m),
                        map t_shape (model_outputs m),
                        map (fun t => option_map node_name
                                        (nth_error (model_layers m) (t_node t)))
                            (model_outputs m)))
    (LeViT128S "channels_last" [224; 224; 3] 1000 true None (Some "imagenet")
       default_kwargs)
  = Some (276%nat, [[1000]; [1000]],
          [Some (Some "head"); Some (Some "distill_head")]).
Proof. vm_compute. reflexivity. Qed.

(** C1, as stated, fails: [LeViT128S] built with [num_classes = 0] returns
    the 16 x 384 token sequence that the residual addition
    [stack3_block4_mlp_add] produces; it is not the output of a global
    average pooling. *)
Lemma LeViT128S_features_not_pooled :
  exists m, LeViT "channels_last" LeViT128S_features = Some m /\
            num_classes LeViT128S_features = 0 /\
            map t_shape (model_outputs m) = [[16; 384]] /\
            ~ pooled_output m.
Proof.
  destruct (LeViT "channels_last" LeViT128S_features) as [m |] eqn:E;
    [| vm_compute in E; discriminate].
  exists m. split; [reflexivity |]. split; [reflexivity |].
  vm_compute in E. injection E as <-.
  split; [reflexivity |].
  intros (t & n & Hout & Hnth & Hc).
  cbn [model_outputs] in Hout. injection Hout as <-.
  cbn [model_layers t_node] in Hnth. vm_compute in Hnth.
  injection Hnth as <-. discriminate Hc.
Qed.

(** C1 (amended): when [LeViT] is built with [num_classes = 0], the model's
    single output is the tensor the last stage returns, the token sequence
    itself: the graph ends with the stages, and holds no global average
    pooling layer and no classification head after them. *)
Theorem LeViT_num_classes_0 (image_data_format : string) (a : levit_args) (m : model) :
  num_classes a = 0 ->
  LeViT image_data_format a = Some m ->
  exists nn,
    LeViT_backbone image_data_format a [] = Some ((model_input m, nn), model_layers m) /\
    model_outputs m = [nn] /\
    Forall (fun n => node_class n <> GlobalAveragePooling1D) (model_layers m).
Proof.
  intros Hn. unfold LeViT, LeViT_graph, bind.
  destruct (LeViT_backbone image_data_format a []) as [[[inputs nn] g] |] eqn:E;
    [| discriminate].
  rewrite Hn. cbn. intros [= <-]. cbn.
  exists nn. split; [reflexivity |]. split; [reflexivity |].
  destruct (LeViT_backbone_emits image_data_format a _ _ _ E) as [new [-> Hnew]].
  cbn. eapply Forall_impl; [| exact Hnew].
  intros n Hb Hc. unfold backbone_node, backbone_class in Hb.
  rewrite Hc in Hb. discriminate.
Qed.

Lemma LeViT_num_classes_0_witness :
  exists m nn, LeViT "channels_last" LeViT128S_features = Some m /\
               model_outputs m = [nn] /\
               Forall (fun n => node_class n <> GlobalAveragePooling1D) (model_layers m).
Proof.
  destruct (LeViT "channels_last" LeViT128S_features) as [m |] eqn:E;
    [| vm_compute in E; discriminate].
  destruct (LeViT_num_classes_0 "channels_last" LeViT128S_features m eq_refl E)
    as [nn [_ [Hout Hall]]].
  exists m, nn. split; [reflexivity |]. split; assumption.
Defined.

(** *** [drop_connect_rate] *)

(** A node of the whole model: any class, but a [Dropout] only in the form
    the classification head creates it (unnamed, without noise shape). *)
Definition model_class (n : node) : bool :=
  match node_class n with
  | Dropout _ (Some _) => false
  | Dropout _ None => match node_name n with None => true | Some _ => false end
  | _ => true
  end.

Definition model_node (n : node) : Prop := model_class n = true.

Lemma backbone_node_model_node (n : node) : backbone_node n -> model_node n.
Proof.
  unfold backbone_node, backbone_class, model_node, model_class.
  destruct (node_class n); intros H; first [reflexivity | discriminate H].
Qed.

Lemma LeViT_graph_emits (image_data_format : string) (a : levit_args) :
  emits model_node (LeViT_graph image_data_format a).
Proof.
  unfold LeViT_graph.
  apply emits_bind.
  { eapply emits_weaken; [exact backbone_node_model_node |].
    apply LeViT_backbone_emits. }
  intros [inputs nn].
  assert (Hbn : forall x act zg nm,
             emits model_node
               (batchnorm_with_activation image_data_format x act zg nm)).
  { intros. eapply emits_weaken; [exact backbone_node_model_node |].
    apply batchnorm_with_activation_emits. }
  destruct (num_classes a =? 0); [apply emits_ret |].
  apply emits_bind; [apply emits_call; intros; reflexivity | intros nn1].
  apply emits_bind.
  { destruct (_ && _); [apply emits_call; intros; reflexivity | apply emits_ret]. }
  intros nn2.
  apply emits_bind; [apply Hbn | intros out].
  apply emits_bind; [apply emits_call; intros; reflexivity | intros out1].
  destruct (use_distillation a); [| apply emits_ret].
  apply emits_bind; [apply Hbn | intros distill].
  apply emits_bind; [apply emits_call; intros; reflexivity | intros distill1].
  apply emits_ret.
Qed.

(** The stage loop, which fixes the residual drop rate to 0, creates no
    [Dropout] at all. *)
Lemma stages_no_dropout (image_data_format : string) (a : levit_args)
    (nn nn' : tensor) (g g' : list node) :
  stages image_data_format a nn g = Some (nn', g') ->
  exists new, g' = (g ++ new)%list /\
              Forall (fun n => forall rate ns, node_class n <> Dropout rate ns) new.
Proof.
  intros E. destruct (stages_emits image_data_format a nn _ _ _ E) as [new [-> H]].
  exists new. split; [reflexivity |].
  eapply Forall_impl; [| exact H].
  intros n Hb rate ns Hc. unfold backbone_node, backbone_class in Hb.
  rewrite Hc in Hb. discriminate.
Qed.

(** C9: [drop_connect_rate] has no effect on what [LeViT] builds: any two
    values give the same result, and a model that is built holds no
    [Dropout] inside its residual blocks; a [Dropout] node, if any, is the
    unnamed one of the classification head, without noise shape. *)
Theorem drop_connect_rate_has_no_effect (image_data_format : string)
    (a : levit_args) (r1 r2 : Q) :
  LeViT image_data_format (set_drop_connect_rate a r1) =
  LeViT image_data_format (set_drop_connect_rate a r2) /\
  (forall m, LeViT image_data_format (set_drop_connect_rate a r1) = Some m ->
     Forall (fun n => forall rate ns,
                 node_class n = Dropout rate ns ->
                 ns = None /\ node_name n = None)
       (model_layers m)).
Proof.
  split.
  { destruct a. unfold LeViT, LeViT_graph, LeViT_backbone, stages.
    unfold set_drop_connect_rate.
    cbn [patch_channel out_channels num_heads depthes key_dims attn_ratios
         mlp_ratios strides input_shape num_classes activation dropout
         classifier_activation use_distillation pretrained model_name].
    reflexivity. }
  intros m. unfold LeViT.
  destruct (LeViT_graph image_data_format (set_drop_connect_rate a r1) [])
    as [[[inputs out] layers] |] eqn:E; [| discriminate].
  intros [= <-]. cbn [model_layers].
  destruct (LeViT_graph_emits _ _ _ _ _ E) as [new [-> Hnew]]. cbn.
  eapply Forall_impl; [| exact Hnew].
  intros n Hm rate ns Hc. unfold model_node, model_class in Hm.
  rewrite Hc in Hm. destruct ns; [discriminate |].
  destruct (node_name n); [discriminate | auto].
Qed.

Lemma drop_connect_rate_has_no_effect_witness :
  exists m,
    LeViT "channels_last" (set_drop_connect_rate LeViT128S_features (1 # 5)) = Some m /\
    LeViT "channels_last" (set_drop_connect_rate LeViT128S_features 0) = Some m /\
    Forall (fun n => forall rate ns,
                node_class n = Dropout rate ns -> ns = None /\ node_name n = None)
      (model_layers m).
Proof.
  assert (E : exists m, LeViT "channels_last"
                          (set_drop_connect_rate LeViT128S_features (1 # 5)) = Some m).
  { eexists. vm_compute. reflexivity. }
  destruct E as [m E]. exists m.
  pose proof (drop_connect_rate_has_no_effect "channels_last" LeViT128S_features
                (1 # 5) 0) as [Heq Hall].
  split; [exact E |]. split; [exact (eq_trans (eq_sym Heq) E) |].
  exact (Hall m E).
Defined.

End LeViT.

(** ** [model_surgery.py]: rewriting a built model

    A layer is a record of the attributes the surgery functions read or set;
    a model lists its layers in creation order, each with the positions of
    the layers that feed it. *)

Module Surgery.

Local Open Scope string_scope.

Inductive layer_class : Type :=
| InputLayer | Dense | Conv2D | DepthwiseConv2D | SeparableConv2D
| BatchNormalization | PReLU | ReLU | Activation | Add | StochasticDepth
| OtherLayer (class_name : string).

Definition layer_class_eq_dec (a b : layer_class) : {a = b} + {a <> b}.
Proof. decide equality. apply string_dec. Defined.

Inductive dtype_policy : Type :=
| Float32
| MixedFloat16
| OtherPolicy (policy_name : string).

(** One weight array, flattened; its length stands for its shape. *)
Definition weight : Type := list Q.

Record layer : Type := mk_layer {
  name : string;
  class : layer_class;
  trainable : bool;
  use_bias : bool;                       (* Dense and convolutions *)
  center : bool;                         (* BatchNormalization *)
  scale : bool;                          (* BatchNormalization *)
  activation : string;                   (* Activation: the function's name *)
  survival_probability : Q;              (* StochasticDepth *)
  regularizers : list (string * Q);      (* attribute name, L2 factor *)
  dtype : dtype_policy;
  kwargs : list (string * string);       (* further constructor arguments *)
  input_shape : list Z;
  built : bool;
  weights : list weight
}.

(** A layer in its model, with the positions of its inbound layers. *)
Record node : Type := mk_node {
  node_layer : layer;
  inbound : list nat
}.

Definition model : Type := list node.

Definition layers (m : model) : list layer := map node_layer m.

(** [isinstance(layer, c)]; the layer classes are taken as unrelated. *)
Definition isinstance (l : layer) (c : layer_class) : bool :=
  if layer_class_eq_dec (class l) c then true else false.

Definition set_name (l : layer) (n : string) : layer :=
  mk_layer n (class l) (trainable l) (use_bias l) (center l) (scale l)
    (activation l) (survival_probability l) (regularizers l) (dtype l)
    (kwargs l) (input_shape l) (built l) (weights l).

Definition set_dtype (l : layer) (d : dtype_policy) : layer :=
  mk_layer (name l) (class l) (trainable l) (use_bias l) (center l) (scale l)
    (activation l) (survival_probability l) (regularizers l) d
    (kwargs l) (input_shape l) (built l) (weights l).

Definition set_regularizers (l : layer) (r : list (string * Q)) : layer :=
  mk_layer (name l) (class l) (trainable l) (use_bias l) (center l) (scale l)
    (activation l) (survival_probability l) r (dtype l)
    (kwargs l) (input_shape l) (built l) (weights l).

Definition set_built (l : layer) (s : list Z) (w : list weight) : layer :=
  mk_layer (name l) (class l) (trainable l) (use_bias l) (center l) (scale l)
    (activation l) (survival_probability l) (regularizers l) (dtype l)
    (kwargs l) s true w.

(** [layer.__class__.from_config(layer.get_config())]: the same
    configuration in a new layer, which has no weights yet. *)
Definition from_config (l : layer) : layer :=
  mk_layer (name l) (class l) (trainable l) (use_bias l) (center l) (scale l)
    (activation l) (survival_probability l) (regularizers l) (dtype l)
    (kwargs l) [] false [].

Section Engine.

(** The engine creates the weights of a layer that is built on an input
    shape from the layer's initializers. *)
Variable initialize : layer -> list Z -> list weight.

(** The engine names a layer that is given no name from a prefix. *)
Variable unique_object_name : string -> string.

(** [layer.build(input_shape)], also done by the first call of a layer. *)
Definition build (l : layer) (s : list Z) : layer :=
  if built l then l else set_built l s (initialize l s).

Definition shapes (w : list weight) : list nat := map (@length Q) w.

(** [layer.set_weights(w)]: the arrays must match the layer's own in number
    and shape. *)
Definition set_weights (l : layer) (w : list weight) : option layer :=
  if list_eq_dec Nat.eq_dec (shapes w) (shapes (weights l))
  then Some (set_built l (input_shape l) w)
  else None.

(** [keras.layers.Input(shape)] *)
Definition Input (s : list Z) : layer :=
  mk_layer (unique_object_name "input") InputLayer true false false false
    "linear" 1 [] Float32 [] s true [].

(** [keras.models.clone_model(model, input_tensors, clone_function)]: every
    layer but the inputs goes through [clone_function]; the result is called
    on the same connections, which builds it if it is not built.  An input
    layer is replaced by the given input, or made anew from its
    configuration. *)
Definition clone_layer (input_tensors : option layer)
    (clone_function : layer -> option layer) (l : layer) : option layer :=
  if isinstance l InputLayer
  then Some match input_tensors with
            | Some i => i
            | None => set_built (from_config l) (input_shape l) []
            end
  else option_map (fun l' => build l' (input_shape l)) (clone_function l).

Definition clone_model (m : model) (input_tensors : option layer)
    (clone_function : layer -> option layer) : option model :=
  Py.sequence
    (map (fun n => option_map (fun l => mk_node l (inbound n))
                     (clone_layer input_tensors clone_function (node_layer n)))
         m).

(** The default [clone_function]. *)
Definition default_clone_function (l : layer) : option layer :=
  Some (from_config l).

(** [model.input_shape[1:]] *)
Definition model_input_shape (m : model) : list Z :=
  match m with
  | n :: _ => input_shape (node_layer n)
  | [] => []
  end.

(** *** [add_l2_regularizer_2_model] *)

(** [hasattr(layer, attr)] for the regularizer attributes. *)
Definition hasattr (l : layer) (attr : string) : bool :=
  match class l with
  | Dense | Conv2D =>
      String.eqb attr "kernel_regularizer" || String.eqb attr "bias_regularizer"
  | DepthwiseConv2D =>
      String.eqb attr "depthwise_regularizer" || String.eqb attr "bias_regularizer"
  | SeparableConv2D =>
      String.eqb attr "pointwise_regularizer"
      || String.eqb attr "depthwise_regularizer"
      || String.eqb attr "bias_regularizer"
  | BatchNormalization =>
      String.eqb attr "beta_regularizer" || String.eqb attr "gamma_regularizer"
  | PReLU => String.eqb attr "alpha_regularizer"
  | _ => false
  end.

(** [setattr(layer, attr, keras.regularizers.L2(factor))] *)
Definition setattr (l : layer) (attr : string) (factor : Q) : layer :=
  set_regularizers l
    ((attr, factor)
       :: filter (fun p => negb (String.eqb (fst p) attr)) (regularizers l)).

Definition regularizer_attrs (apply_to_batch_normal apply_to_bias : bool)
    (l : layer) : list string :=
  if isinstance l Dense || isinstance l Conv2D
  then "kernel_regularizer"
         :: (if apply_to_bias && use_bias l then ["bias_regularizer"] else [])
  else if isinstance l DepthwiseConv2D
  then "depthwise_regularizer"
         :: (if apply_to_bias && use_bias l then ["bias_regularizer"] else [])
  else if isinstance l SeparableConv2D
  then ["pointwise_regularizer"; "depthwise_regularizer"]
         ++ (if apply_to_bias && use_bias l then ["bias_regularizer"] else [])
  else if apply_to_batch_normal && isinstance l BatchNormalization
  then (if center l then ["beta_regularizer"] else [])
         ++ (if scale l then ["gamma_regularizer"] else [])
  else if apply_to_batch_normal && isinstance l PReLU
  then ["alpha_regularizer"]
  else [].

(** The body of the loop over [model.layers]: it changes the layers of the
    given model in place. *)
Definition regularize_layer (weight_decay : Q)
    (apply_to_batch_normal apply_to_bias : bool) (l : layer) : layer :=
  fold_left
    (fun l attr =>
       if hasattr l attr && trainable l
       then setattr l attr (weight_decay / 2)
       else l)
    (regularizer_attrs apply_to_batch_normal apply_to_bias l) l.

Definition add_l2_regularizer_2_model (m : model) (weight_decay : Q)
    (apply_to_batch_normal apply_to_bias : bool) : option model :=
  let m :=
    map (fun n =>
           mk_node (regularize_layer weight_decay apply_to_batch_normal
                      apply_to_bias (node_layer n)) (inbound n)) m in
  clone_model m None default_clone_function.

(** *** [replace_ReLU] *)

(** [target_activation]: a string, or a class that builds a layer from
    keyword arguments. *)
Inductive target_activation : Type :=
| TargetStr (s : string)
| TargetClass (class_name : string)
    (construct : list (string * string) -> option layer).

Definition has_key (kw : list (string * string)) (k : string) : bool :=
  existsb (fun p => String.eqb (fst p) k) kw.

(** [PReLU(shared_axes=[1, 2], alpha_initializer=Constant(0.25),
    name=layer_name, **kwargs)]: a keyword given twice is an error. *)
Definition new_PReLU (layer_name : string) (kw : list (string * string))
  : option layer :=
  if has_key kw "shared_axes" || has_key kw "alpha_initializer" || has_key kw "name"
  then None
  else Some (mk_layer layer_name PReLU true false false false "" 1 [] Float32
               (("shared_axes", "[1, 2]") :: ("alpha_initializer", "Constant(0.25)") :: kw)
               [] false []).

(** [Activation(activation=act, name=layer_name, **kwargs)] *)
Definition new_Activation (act layer_name : string) (kw : list (string * string))
  : option layer :=
  if has_key kw "activation" || has_key kw "name"
  then None
  else Some (mk_layer layer_name Activation true false false false act 1 []
               Float32 kw [] false []).

Definition convert_ReLU (target : target_activation)
    (kw : list (string * string)) (l : layer) : option layer :=
  if isinstance l ReLU
     || (isinstance l Activation && String.eqb (activation l) "relu")
  then
    match target with
    | TargetStr s =>
        if String.eqb s "PReLU"
        then
          let layer_name := Py.replace (name l) "_relu" "_prelu" in
          new_PReLU layer_name kw
        else
          let layer_name := Py.replace (name l) "_relu" ("_" ++ s) in
          new_Activation s layer_name kw
    | TargetClass act_class_name construct =>
        let layer_name := Py.replace (name l) "_relu" ("_" ++ act_class_name) in
        construct kw
    end
  else Some l.

Definition replace_ReLU (m : model) (target : target_activation)
    (kw : list (string * string)) : option model :=
  let input_tensors := Input (model_input_shape m) in
  clone_model m (Some input_tensors) (convert_ReLU target kw).

(** *** [replace_add_with_stochastic_depth] *)

(** The argument [survivals], by its Python type. *)
Inductive py_survivals : Type :=
| SvFloat (x : Q)                 (* a [float] *)
| SvInt (n : Z)                   (* an [int] *)
| SvSeq (l : list Q).             (* a list or tuple of numbers *)

(** [dict(zip(keys, values))]: kept as the list of pairs; when a key comes
    twice the later pair wins. *)
Fixpoint dict_get {V : Type} (d : list (string * V)) (k : string) : option V :=
  match d with
  | [] => None
  | (k', v) :: r =>
      match dict_get r k with
      | Some v' => Some v'
      | None => if String.eqb k' k then Some v else None
      end
  end.

(** The names of the [Add] layers, in the order of [model.layers]. *)
Definition add_layers (m : model) : list string :=
  map name (filter (fun l => isinstance l Add) (layers m)).

(** The schedule, one survival probability per [Add] layer; an [int] cannot
    be zipped, which is an error. *)
Definition resolve_survivals (survivals : py_survivals) (total_adds : nat)
  : option (list Q) :=
  match survivals with
  | SvFloat x => Some (repeat x total_adds)
  | SvSeq [start; end_] =>
      Some (map (fun ii => start - (1 - end_) * inject_Z (Z.of_nat ii)
                                   / inject_Z (Z.of_nat total_adds))
                (seq 0 total_adds))
  | SvSeq l => Some l
  | SvInt _ => None
  end.

(** [StochasticDepth(survival_probability, name=new_layer_name)] *)
Definition new_StochasticDepth (p : Q) (layer_name : string) : layer :=
  mk_layer layer_name StochasticDepth true false false false "" p [] Float32 []
    [] false [].

Definition __replace_add_with_stochastic_depth__
    (survivals_dict : list (string * Q)) (l : layer) : option layer :=
  if isinstance l Add
  then
    let layer_name := name l in
    let new_layer_name := Py.replace layer_name "_add" "_stochastic_depth" in
    let new_layer_name := Py.replace layer_name "add_" "stochastic_depth_" in
    match dict_get survivals_dict layer_name with
    | None => None
    | Some survival_probability =>
        if Py.Qltb survival_probability 1
        then Some (new_StochasticDepth survival_probability new_layer_name)
        else Some l
    end
  else Some l.

(** [survivals_dict]: the schedule keyed by the names of the [Add] layers. *)
Definition survivals_dict (m : model) (survivals : py_survivals)
  : option (list (string * Q)) :=
  let add_layers := add_layers m in
  let total_adds := length add_layers in
  option_map (combine add_layers) (resolve_survivals survivals total_adds).

Definition replace_add_with_stochastic_depth (m : model)
    (survivals : py_survivals) : option model :=
  match survivals_dict m survivals with
  | None => None
  | Some survivals_dict =>
      let input_tensors := Input (model_input_shape m) in
      clone_model m (Some input_tensors)
        (__replace_add_with_stochastic_depth__ survivals_dict)
  end.

(** *** [convert_to_mixed_float16], [convert_mixed_float16_to_float32] *)

(** The common body of both conversions: the configuration with another
    [dtype], a new layer from it, built on the old input shape, the old
    weights copied over. *)
Definition convert_dtype (policy : dtype_policy) (l : layer) : option layer :=
  let aa := set_dtype l policy in
  let bb := from_config aa in
  let bb := build bb (input_shape l) in
  set_weights bb (weights l).

Definition is_linear_activation (l : layer) : bool :=
  isinstance l Activation && String.eqb (activation l) "linear".

Definition do_convert_to_mixed_float16 (convert_batch_norm : bool) (l : layer)
  : option layer :=
  if negb convert_batch_norm && isinstance l BatchNormalization
  then Some l
  else if negb (isinstance l InputLayer) && negb (is_linear_activation l)
       then convert_dtype MixedFloat16 l
       else Some l.

Definition convert_to_mixed_float16 (m : model) (convert_batch_norm : bool)
  : option model :=
  let input_tensors := Input (model_input_shape m) in
  clone_model m (Some input_tensors) (do_convert_to_mixed_float16 convert_batch_norm).

Definition do_convert_to_float32 (l : layer) : option layer :=
  if negb (isinstance l InputLayer) && negb (is_linear_activation l)
  then convert_dtype Float32 l
  else Some l.

Definition convert_mixed_float16_to_float32 (m : model) : option model :=
  let input_tensors := Input (model_input_shape m) in
  clone_model m (Some input_tensors) do_convert_to_float32.

(** *** Properties of [clone_model] *)

(** A clone has the layers of the original one for one, with the same
    connections. *)
Lemma clone_model_spec (m m' : model) (input_tensors : option layer)
    (f : layer -> option layer) :
  clone_model m input_tensors f = Some m' <->
  Forall2 (fun n n' =>
             clone_layer input_tensors f (node_layer n) = Some (node_layer n') /\
             inbound n' = inbound n) m m'.
Proof.
  unfold clone_model.
  split.
  - intros H. apply Py.sequence_Forall2 in H.
    remember (map _ m) as l eqn:El. revert m El.
    induction H as [| o n' l r Ho _ IH]; intros m El.
    + destruct m; [constructor | discriminate].
    + destruct m as [| n m]; [discriminate |]. cbn in El.
      injection El as -> ->. constructor; [| now apply IH].
      destruct (clone_layer _ _ _) as [l' |]; [| discriminate].
      cbn in Ho. injection Ho as <-. now split.
  - intros H. apply Py.sequence_Forall2.
    induction H as [| n n' m m' [Hl Hi] _ IH]; cbn; constructor; [| exact IH].
    rewrite Hl. cbn. destruct n' as [l' i']. cbn in *. now subst.
Qed.

Lemma clone_model_length (m m' : model) (input_tensors : option layer)
    (f : layer -> option layer) :
  clone_model m input_tensors f = Some m' -> length m' = length m.
Proof.
  intros H. apply clone_model_spec in H. symmetry.
  eapply Forall2_length; eauto.
Qed.

Lemma clone_model_inbound (m m' : model) (input_tensors : option layer)
    (f : layer -> option layer) :
  clone_model m input_tensors f = Some m' -> map inbound m' = map inbound m.
Proof.
  intros H. apply clone_model_spec in H.
  induction H as [| n n' m m' [_ Hi] _ IH]; cbn; [reflexivity |].
  now rewrite Hi, IH.
Qed.

(** The clone exists as soon as [clone_function] accepts every layer that
    is not an input. *)
Lemma clone_model_total (m : model) (input_tensors : option layer)
    (f : layer -> option layer) :
  Forall (fun l => isinstance l InputLayer = false -> f l <> None) (layers m) ->
  exists m', clone_model m input_tensors f = Some m'.
Proof.
  unfold layers. induction m as [| n m IH]; intros H.
  - now exists [].
  - inversion H as [| ? ? Hn Hm]; subst.
    destruct (IH Hm) as [m' Hm']. unfold clone_model in *. cbn.
    rewrite Hm'. unfold clone_layer.
    destruct (isinstance (node_layer n) InputLayer) eqn:Ei; cbn.
    + eauto.
    + destruct (f (node_layer n)); [cbn; eauto | now exfalso; apply Hn].
Qed.

(** If [clone_function] followed by the build acts as [g] on the layers of
    the model, the clone is the model with [g] applied to each layer. *)
Lemma clone_model_map (m : model) (input_tensors : option layer)
    (f : layer -> option layer) (g : layer -> layer) :
  Forall (fun l => clone_layer input_tensors f l = Some (g l)) (layers m) ->
  clone_model m input_tensors f =
  Some (map (fun n => mk_node (g (node_layer n)) (inbound n)) m).
Proof.
  intros H. apply clone_model_spec. unfold layers in H.
  induction m as [| n m IH]; cbn; constructor.
  - inversion H; subst. now split.
  - apply IH. now inversion H.
Qed.

Lemma Forall2_map_in {A B C : Type} (R : B -> C -> Prop) (f : A -> B)
    (g : A -> C) (l : list A) :
  (forall x, In x l -> R (f x) (g x)) -> Forall2 R (map f l) (map g l).
Proof.
  induction l as [| x l IH]; intros H; cbn; constructor.
  - apply H. now left.
  - apply IH. intros y Hy. apply H. now right.
Qed.

(** *** Round trip through mixed precision *)

(** What the engine guarantees of a layer of a built model: it is built; an
    input layer has no weights; the weights of any other layer have the
    shapes its configuration gives them, whatever its [dtype] policy. *)
Definition well_built (l : layer) : Prop :=
  built l = true /\
  if isinstance l InputLayer then weights l = []
  else forall d, shapes (weights l) =
                 shapes (initialize (from_config (set_dtype l d)) (input_shape l)).

(** The layer with another [dtype] policy and nothing else changed. *)
Definition with_dtype (d : dtype_policy) (l : layer) : layer :=
  set_built (from_config (set_dtype l d)) (input_shape l) (weights l).

Lemma convert_dtype_with_dtype (d : dtype_policy) (l : layer) :
  shapes (weights l) =
  shapes (initialize (from_config (set_dtype l d)) (input_shape l)) ->
  convert_dtype d l = Some (with_dtype d l).
Proof.
  intros H. unfold convert_dtype, build, set_weights. cbn.
  destruct (list_eq_dec _ _ _) as [_ | Hne]; [reflexivity | contradiction].
Qed.

Lemma with_dtype_well_built (d : dtype_policy) (l : layer) :
  well_built l -> isinstance l InputLayer = false -> well_built (with_dtype d l).
Proof.
  unfold well_built, isinstance. cbn. intros [_ H] Hi.
  split; [reflexivity |].
  destruct (layer_class_eq_dec (class l) InputLayer); [discriminate |].
  intros d'. exact (H d').
Qed.

(** The first conversion, layer by layer. *)
Definition mixed_float16_layer (input_tensors : layer)
    (convert_batch_norm : bool) (l : layer) : layer :=
  if isinstance l InputLayer then input_tensors
  else if (negb convert_batch_norm && isinstance l BatchNormalization)
          || is_linear_activation l
       then l
       else with_dtype MixedFloat16 l.

(** The second conversion, layer by layer. *)
Definition float32_layer (input_tensors : layer) (l : layer) : layer :=
  if isinstance l InputLayer then input_tensors
  else if is_linear_activation l then l
       else with_dtype Float32 l.

Lemma convert_to_mixed_float16_map (m : model) (convert_batch_norm : bool) :
  Forall well_built (layers m) ->
  convert_to_mixed_float16 m convert_batch_norm =
  Some (map (fun n =>
               mk_node (mixed_float16_layer (Input (model_input_shape m))
                          convert_batch_norm (node_layer n)) (inbound n)) m).
Proof.
  intros H. unfold convert_to_mixed_float16. apply clone_model_map.
  eapply Forall_impl; [| exact H]. intros l [Hb Hw].
  unfold clone_layer, mixed_float16_layer, do_convert_to_mixed_float16.
  destruct (isinstance l InputLayer) eqn:Ei; [reflexivity |].
  destruct (negb convert_batch_norm && isinstance l BatchNormalization); cbn.
  - unfold build. now rewrite Hb.
  - destruct (is_linear_activation l); cbn.
    + unfold build. now rewrite Hb.
    + rewrite convert_dtype_with_dtype by apply Hw. reflexivity.
Qed.

Lemma convert_mixed_float16_to_float32_map (m : model) :
  Forall well_built (layers m) ->
  convert_mixed_float16_to_float32 m =
  Some (map (fun n =>
               mk_node (float32_layer (Input (model_input_shape m))
                          (node_layer n)) (inbound n)) m).
Proof.
  intros H. unfold convert_mixed_float16_to_float32. apply clone_model_map.
  eapply Forall_impl; [| exact H]. intros l [Hb Hw].
  unfold clone_layer, float32_layer, do_convert_to_float32.
  destruct (isinstance l InputLayer) eqn:Ei; [reflexivity |].
  destruct (is_linear_activation l); cbn.
  - unfold build. now rewrite Hb.
  - rewrite convert_dtype_with_dtype by apply Hw. reflexivity.
Qed.

Lemma Input_well_built (s : list Z) : well_built (Input s).
Proof. split; reflexivity. Qed.

Lemma mixed_float16_layer_well_built (s : list Z) (convert_batch_norm : bool)
    (l : layer) :
  well_built l -> well_built (mixed_float16_layer (Input s) convert_batch_norm l).
Proof.
  intros H. unfold mixed_float16_layer.
  destruct (isinstance l InputLayer) eqn:Ei; [apply Input_well_built |].
  destruct (_ || _); [exact H | now apply with_dtype_well_built].
Qed.

(** One layer through both conversions. *)
Lemma round_trip_layer (s1 s2 : list Z) (convert_batch_norm : bool) (l : layer) :
  well_built l ->
  let l2 := float32_layer (Input s2)
              (mixed_float16_layer (Input s1) convert_batch_norm l) in
  class l2 = class l /\
  weights l2 = weights l /\
  (isinstance l InputLayer = false -> name l2 = name l).
Proof.
  intros [_ Hw]. unfold float32_layer, mixed_float16_layer.
  unfold is_linear_activation, isinstance in *.
  destruct (layer_class_eq_dec (class l) InputLayer) as [Hi | Hi]; cbn.
  - rewrite Hi. rewrite Hw. repeat split. discriminate.
  - destruct (negb convert_batch_norm
              && (if layer_class_eq_dec (class l) BatchNormalization
                  then true else false)); cbn;
      destruct (layer_class_eq_dec (class l) InputLayer); try contradiction;
      destruct ((if layer_class_eq_dec (class l) Activation then true else false)
                && String.eqb (activation l) "linear") eqn:El; cbn;
      rewrite ?El; cbn;
      try (destruct (layer_class_eq_dec (class l) InputLayer); try contradiction);
      repeat split.
Qed.


(** *** The survival schedule *)

Lemma dict_get_absent {V : Type} (ks : list string) (vs : list V) (k : string) :
  ~ In k ks -> dict_get (combine ks vs) k = None.
Proof.
  revert vs. induction ks as [| k0 ks IH]; intros vs Hk; [reflexivity |].
  destruct vs as [| v0 vs]; [reflexivity |]. cbn.
  rewrite IH by (intros H; apply Hk; now right).
  destruct (String.eqb_spec k0 k) as [-> | _]; [| reflexivity].
  exfalso. apply Hk. now left.
Qed.

(** With distinct keys, the [i]-th key is bound to the [i]-th value. *)
Lemma dict_get_positional {V : Type} (ks : list string) (vs : list V)
    (i : nat) (k : string) (v : V) :
  NoDup ks -> nth_error ks i = Some k -> nth_error vs i = Some v ->
  dict_get (combine ks vs) k = Some v.
Proof.
  intros Hnd. revert vs i. induction Hnd as [| k0 ks Hk0 _ IH]; intros vs i Hk Hv.
  - destruct i; discriminate.
  - destruct vs as [| v0 vs]; [destruct i; discriminate |].
    destruct i as [| i]; cbn in Hk, Hv |- *.
    + injection Hk as <-. injection Hv as <-.
      rewrite dict_get_absent by exact Hk0. now rewrite String.eqb_refl.
    + now rewrite (IH vs i Hk Hv).
Qed.

(** A constant schedule binds every key to the constant. *)
Lemma dict_get_repeat {V : Type} (ks : list string) (x : V) (k : string) :
  In k ks -> dict_get (combine ks (repeat x (length ks))) k = Some x.
Proof.
  induction ks as [| k0 ks IH]; intros Hk; [contradiction |]. cbn.
  destruct (in_dec string_dec k ks) as [Hin | Hout].
  - now rewrite IH.
  - rewrite dict_get_absent by exact Hout.
    destruct Hk as [-> | Hk]; [now rewrite String.eqb_refl | contradiction].
Qed.

Lemma add_layers_In (m : model) (l : layer) :
  In l (layers m) -> isinstance l Add = true -> In (name l) (add_layers m).
Proof.
  intros Hl Ha. unfold add_layers. apply in_map. apply filter_In. now split.
Qed.

(** *** What the clone function of the stochastic-depth conversion does *)

Lemma replace_add_below_1 (d : list (string * Q)) (l : layer) (p : Q) :
  isinstance l Add = true -> dict_get d (name l) = Some p -> Py.Qltb p 1 = true ->
  __replace_add_with_stochastic_depth__ d l =
  Some (new_StochasticDepth p (Py.replace (name l) "add_" "stochastic_depth_")).
Proof.
  intros Ha Hd Hp. unfold __replace_add_with_stochastic_depth__.
  now rewrite Ha, Hd, Hp.
Qed.

Lemma replace_add_not_below_1 (d : list (string * Q)) (l : layer) (p : Q) :
  isinstance l Add = true -> dict_get d (name l) = Some p -> Py.Qltb p 1 = false ->
  __replace_add_with_stochastic_depth__ d l = Some l.
Proof.
  intros Ha Hd Hp. unfold __replace_add_with_stochastic_depth__.
  now rewrite Ha, Hd, Hp.
Qed.

Lemma replace_add_other_layer (d : list (string * Q)) (l : layer) :
  isinstance l Add = false -> __replace_add_with_stochastic_depth__ d l = Some l.
Proof.
  intros Ha. unfold __replace_add_with_stochastic_depth__. now rewrite Ha.
Qed.

Lemma nth_error_map_seq {V : Type} (f : nat -> V) (n i : nat) :
  (i < n)%nat -> nth_error (map f (seq 0 n)) i = Some (f i).
Proof.
  intros Hi. apply map_nth_error.
  rewrite (nth_error_nth' _ O) by now rewrite length_seq.
  now rewrite seq_nth.
Qed.


(** *** What [replace_ReLU] does to names *)

(** The test of [convert_ReLU]. *)
Definition is_rectifier (l : layer) : bool :=
  isinstance l ReLU || (isinstance l Activation && String.eqb (activation l) "relu").

Lemma convert_ReLU_PReLU (kw : list (string * string)) (l l' : layer) :
  is_rectifier l = true ->
  convert_ReLU (TargetStr "PReLU") kw l = Some l' ->
  name l' = Py.replace (name l) "_relu" "_prelu" /\ class l' = PReLU.
Proof.
  unfold is_rectifier, convert_ReLU. intros -> . cbn. unfold new_PReLU.
  destruct (_ || _); [discriminate |]. intros [= <-]. now split.
Qed.

Lemma convert_ReLU_named (s : string) (kw : list (string * string)) (l l' : layer) :
  is_rectifier l = true -> s <> "PReLU" ->
  convert_ReLU (TargetStr s) kw l = Some l' ->
  name l' = Py.replace (name l) "_relu" ("_" ++ s) /\
  class l' = Activation /\ activation l' = s.
Proof.
  unfold is_rectifier, convert_ReLU. intros -> Hs.
  destruct (String.eqb_spec s "PReLU") as [-> | _]; [contradiction |].
  unfold new_Activation. destruct (_ || _); [discriminate |].
  intros [= <-]. now repeat split.
Qed.

(** With a class as target the new layer is whatever the class builds from
    the keyword arguments: the name computed for it is not passed on. *)
Lemma convert_ReLU_class (class_name : string)
    (construct : list (string * string) -> option layer)
    (kw : list (string * string)) (l : layer) :
  is_rectifier l = true ->
  convert_ReLU (TargetClass class_name construct) kw l = construct kw.
Proof. unfold is_rectifier, convert_ReLU. now intros ->. Qed.

Lemma convert_ReLU_other (target : target_activation)
    (kw : list (string * string)) (l : layer) :
  is_rectifier l = false -> convert_ReLU target kw l = Some l.
Proof. unfold is_rectifier, convert_ReLU. now intros ->. Qed.

(** The layers that are neither inputs nor rectifiers stay, in number, order
    and connections. *)
Lemma replace_ReLU_other_layers (m m' : model) (target : target_activation)
    (kw : list (string * string)) :
  Forall (fun l => built l = true) (layers m) ->
  replace_ReLU m target kw = Some m' ->
  Forall2 (fun n n' =>
             inbound n' = inbound n /\
             (isinstance (node_layer n) InputLayer = false ->
              is_rectifier (node_layer n) = false ->
              node_layer n' = node_layer n)) m m'.
Proof.
  intros Hb H. unfold replace_ReLU in H.
  set (inp := Input (model_input_shape m)) in H. clearbody inp.
  apply clone_model_spec in H.
  unfold layers in Hb. rewrite Forall_map in Hb. revert Hb.
  induction H as [| n n' m0 m0' [Hl Hi] _ IH]; intros Hb; constructor.
  - split; [exact Hi |]. intros Hin Hr.
    unfold clone_layer in Hl. rewrite Hin in Hl.
    rewrite convert_ReLU_other in Hl by exact Hr. cbn in Hl.
    inversion Hb as [| ? ? Hbn _]; subst.
    unfold build in Hl. rewrite Hbn in Hl. now injection Hl.
  - apply IH. now inversion Hb.
Qed.

(** *** What [add_l2_regularizer_2_model] returns *)

(** A layer made anew from a configuration and built: its weights are those
    the initializers give. *)
Definition fresh_layer (l : layer) : layer :=
  if isinstance l InputLayer
  then set_built (from_config l) (input_shape l) []
  else set_built (from_config l) (input_shape l)
         (initialize (from_config l) (input_shape l)).

Lemma add_l2_regularizer_2_model_map (m : model) (weight_decay : Q)
    (apply_to_batch_normal apply_to_bias : bool) :
  add_l2_regularizer_2_model m weight_decay apply_to_batch_normal apply_to_bias =
  Some (map (fun n =>
               mk_node (fresh_layer
                          (regularize_layer weight_decay apply_to_batch_normal
                             apply_to_bias (node_layer n)))
                 (inbound n)) m).
Proof.
  unfold add_l2_regularizer_2_model.
  rewrite (clone_model_map _ None default_clone_function fresh_layer).
  - now rewrite map_map.
  - apply Forall_forall. intros l _.
    unfold clone_layer, fresh_layer, default_clone_function.
    destruct (isinstance l InputLayer); reflexivity.
Qed.

(** The loop over the layers sets the kernel regularizer of every trainable
    [Dense] and [Conv2D] layer, and leaves a layer that is not trainable as
    it is. *)
Lemma regularize_layer_kernel (weight_decay : Q)
    (apply_to_batch_normal apply_to_bias : bool) (l : layer) :
  isinstance l Dense || isinstance l Conv2D = true -> trainable l = true ->
  In ("kernel_regularizer", (weight_decay / 2)%Q)
     (regularizers (regularize_layer weight_decay apply_to_batch_normal
                      apply_to_bias l)).
Proof.
  intros Hc Ht. unfold regularize_layer, regularizer_attrs. rewrite Hc.
  assert (Hh : forall attr, attr = "kernel_regularizer" \/ attr = "bias_regularizer" ->
                 hasattr l attr = true).
  { intros attr Ha. unfold hasattr, isinstance in *.
    destruct (class l); cbn in Hc; try discriminate;
      destruct Ha as [-> | ->]; reflexivity. }
  cbn [fold_left]. rewrite Hh, Ht by now left. cbn [andb].
  destruct (apply_to_bias && use_bias l); cbn [fold_left].
  - assert (Hh' : hasattr (setattr l "kernel_regularizer" (weight_decay / 2)%Q)
                    "bias_regularizer" = true).
    { unfold hasattr, setattr, set_regularizers. cbn [class].
      apply (Hh "bias_regularizer"). now right. }
    rewrite Hh'. cbn [setattr set_regularizers trainable]. rewrite Ht. cbn.
    right. now left.
  - cbn. now left.
Qed.

Lemma regularize_layer_not_trainable (weight_decay : Q)
    (apply_to_batch_normal apply_to_bias : bool) (l : layer) :
  trainable l = false ->
  regularize_layer weight_decay apply_to_batch_normal apply_to_bias l = l.
Proof.
  intros Ht. unfold regularize_layer.
  induction (regularizer_attrs apply_to_batch_normal apply_to_bias l)
    as [| attr attrs IH]; [reflexivity |].
  cbn [fold_left]. rewrite Ht, andb_false_r. exact IH.
Qed.

End Engine.

(** *** A small model, and an engine to run the functions on it *)

Definition example_initialize (l : layer) (s : list Z) : list weight :=
  match class l with
  | Dense => if use_bias l then [[0; 0]; [0]] else [[0; 0]]
  | PReLU => [[1 # 4]]
  | _ => []
  end.

Definition example_unique_object_name (prefix : string) : string :=
  prefix ++ "_1".

Definition example_layer (n : string) (c : layer_class) (act : string)
    (w : list weight) : layer :=
  mk_layer n c true true true true act 1 [] Float32 [] [2%Z] true w.

(** An input, a dense layer with trained weights, a rectifier and two
    residual additions. *)
Definition example_model : model :=
  [ mk_node (example_layer "input_1" InputLayer "" []) [];
    mk_node (example_layer "stem_dense" Dense "linear" [[1; 2]; [5]]) [0%nat];
    mk_node (example_layer "stem_relu" ReLU "" []) [1%nat];
    mk_node (example_layer "stack1_block1_add" Add "" []) [1%nat; 2%nat];
    mk_node (example_layer "stack1_block1_mlp_add" Add "" []) [3%nat; 2%nat] ].

(** A layer class given as [target_activation]: without a [name] keyword
    the engine names its instances itself. *)
Definition example_LeakyReLU (kw : list (string * string)) : option layer :=
  Some (mk_layer (example_unique_object_name "leaky_re_lu")
          (OtherLayer "LeakyReLU") true false false false "" 1 [] Float32 kw
          [] false []).

Lemma example_model_well_built :
  Forall (well_built example_initialize) (layers example_model).
Proof.
  repeat constructor; cbn; intros; reflexivity.
Qed.

Lemma example_model_built :
  Forall (fun l => built l = true) (layers example_model).
Proof. repeat constructor. Qed.

Lemma example_model_add_layers :
  add_layers example_model = ["stack1_block1_add"; "stack1_block1_mlp_add"].
Proof. reflexivity. Qed.

Example replace_ReLU_default :
  option_map (fun m' => map (fun l => (name l, class l, weights l)) (layers m'))
    (replace_ReLU example_initialize example_unique_object_name example_model
       (TargetStr "PReLU") [])
  = Some [("input_1", InputLayer, []);
          ("stem_dense", Dense, [[1; 2]; [5]]);
          ("stem_prelu", PReLU, [[1 # 4]]);
          ("stack1_block1_add", Add, []);
          ("stack1_block1_mlp_add", Add, [])].
Proof. reflexivity. Qed.

Example replace_ReLU_swish :
  option_map (fun m' => map (fun l => (name l, class l, activation l)) (layers m'))
    (replace_ReLU example_initialize example_unique_object_name example_model
       (TargetStr "swish") [])
  = Some [("input_1", InputLayer, "linear");
          ("stem_dense", Dense, "linear");
          ("stem_swish", Activation, "swish");
          ("stack1_block1_add", Add, "");
          ("stack1_block1_mlp_add", Add, "")].
Proof. reflexivity. Qed.

Example replace_add_schedule :
  option_map (fun m' => map (fun l => (name l, class l, survival_probability l))
                            (layers m'))
    (replace_add_with_stochastic_depth example_initialize
       example_unique_object_name example_model (SvSeq [1; 4 # 5]))
  = Some [("input_1", InputLayer, 1);
          ("stem_dense", Dense, 1);
          ("stem_relu", ReLU, 1);
          ("stack1_block1_add", Add, 1);
          ("stack1_block1_mlp_add", StochasticDepth, 9 # 10)].
Proof. vm_compute. reflexivity. Qed.

(** C3: on the example model, whose dense layer holds the weights
    [[1, 2], [5]], [add_l2_regularizer_2_model] returns a clone whose dense
    layer has the kernel regularizer set and the weights of a new layer,
    [[0, 0], [0]]: the weights of the given model are not in the clone. *)
Theorem add_l2_regularizer_2_model_resets_weights :
  map weights (layers example_model) = [[]; [[1; 2]; [5]]; []; []; []] /\
  option_map
    (fun m' => map (fun l => (name l, regularizers l, weights l)) (layers m'))
    (add_l2_regularizer_2_model example_initialize example_model (1 # 1000)
       false false)
  = Some [("input_1", [], []);
          ("stem_dense", [("kernel_regularizer", 1 # 2000)], [[0; 0]; [0]]);
          ("stem_relu", [], []);
          ("stack1_block1_add", [], []);
          ("stack1_block1_mlp_add", [], [])].
Proof. split; reflexivity. Qed.

(** C4: on the example model with survival probability 1/2, the addition
    [stack1_block1_add] is replaced by a stochastic-depth layer that is still
    named [stack1_block1_add], where replacing ["_add"] would have given
    [stack1_block1_stochastic_depth]: the result of the first replacement is
    overwritten by the second, which finds no ["add_"] in the name. *)
Theorem replace_add_with_stochastic_depth_keeps_name :
  option_map
    (fun m' => map (fun l => (name l, class l, survival_probability l)) (layers m'))
    (replace_add_with_stochastic_depth example_initialize
       example_unique_object_name example_model (SvFloat (1 # 2)))
  = Some [("input_1", InputLayer, 1);
          ("stem_dense", Dense, 1);
          ("stem_relu", ReLU, 1);
          ("stack1_block1_add", StochasticDepth, 1 # 2);
          ("stack1_block1_mlp_add", StochasticDepth, 1 # 2)] /\
  Py.replace "stack1_block1_add" "_add" "_stochastic_depth"
  = "stack1_block1_stochastic_depth".
Proof. split; reflexivity. Qed.



(** C6: on the example model with a layer class as target, the rectifier
    [stem_relu] is replaced by a layer named by the engine, [leaky_re_lu_1],
    where the claim has [stem_LeakyReLU]: the computed name is not given to
    the new layer. *)
Theorem replace_ReLU_class_name_not_used :
  option_map (fun m' => map (fun l => (name l, class l)) (layers m'))
    (replace_ReLU example_initialize example_unique_object_name example_model
       (TargetClass "LeakyReLU" example_LeakyReLU) [])
  = Some [("input_1", InputLayer);
          ("stem_dense", Dense);
          ("leaky_re_lu_1", OtherLayer "LeakyReLU");
          ("stack1_block1_add", Add);
          ("stack1_block1_mlp_add", Add)] /\
  Py.replace "stem_relu" "_relu" ("_" ++ "LeakyReLU") = "stem_LeakyReLU".
Proof. split; reflexivity. Qed.


End Surgery.

(** ** [model_surgery.py]: [SAMModel]

    The arithmetic of the tensors' entries is a parameter: the step is the
    same program over single precision numbers, which is what the code
    computes with, and over the real numbers.  The forward pass, the loss,
    what a call of the loss does to the metrics, differentiation, the
    optimizer and the metrics belong to the engine and are parameters of the
    step; the state of the model is passed explicitly. *)

Module SAM.

(** The numbers of the tensors and the operations [train_step] uses on
    them; [epsilon] is the constant [1e-12] in these numbers. *)
Record arithmetic : Type := mk_arithmetic {
  num : Type;
  zero : num;
  add : num -> num -> num;
  sub : num -> num -> num;
  mul : num -> num -> num;
  div : num -> num -> num;
  root : num -> num;
  epsilon : num
}.

(** Real numbers. *)
Definition reals : arithmetic :=
  mk_arithmetic R 0%R Rplus Rminus Rmult Rdiv sqrt (/ 10 ^ 12)%R.

(** IEEE 754 single precision, rounding to nearest even: the default dtype
    of the variables.  [1e-12] rounds to [9223372 * 2^-63]. *)
Definition float32 : arithmetic :=
  mk_arithmetic spec_float (S754_zero false)
    (SFadd 24 128) (SFsub 24 128) (SFmul 24 128) (SFdiv 24 128) (SFsqrt 24 128)
    (S754_finite false 9223372 (-63)).

Section Loops.

Variable A : arithmetic.

(** A tensor, flattened; its length stands for its shape. *)
Definition tensor : Type := list (num A).

(** [v.assign_add(e)] and [v.assign_sub(e)], on the value of the variable:
    the shapes must agree. *)
Definition assign_add (v e : tensor) : option tensor :=
  if Nat.eqb (length v) (length e)
  then Some (map (fun p => add A (fst p) (snd p)) (combine v e))
  else None.

Definition assign_sub (v e : tensor) : option tensor :=
  if Nat.eqb (length v) (length e)
  then Some (map (fun p => sub A (fst p) (snd p)) (combine v e))
  else None.

(** [grad * scale] *)
Definition scale_tensor (grad : tensor) (scale : num A) : tensor :=
  map (fun g => mul A g scale) grad.

Definition sum (l : list (num A)) : num A := fold_right (add A) (zero A) l.

(** [tf.linalg.global_norm(gradients)]: the square root of the sum of the
    squares of all entries.  The sums are taken tensor by tensor, from the
    last entry to the first; the engine is free in the order, which matters
    for rounding only. *)
Definition global_norm (gradients : list tensor) : num A :=
  root A (sum (map (fun t => sum (map (fun g => mul A g g) t)) gradients)).

(** The first loop: [for v, grad in zip(trainable_vars, gradients)].  It
    returns the new values of the variables and [e_w_list]. *)
Fixpoint perturb (trainable_vars gradients : list tensor) (scale : num A)
  : option (list tensor * list tensor) :=
  match trainable_vars, gradients with
  | v :: vars, grad :: grads =>
      let e_w := scale_tensor grad scale in
      match assign_add v e_w, perturb vars grads scale with
      | Some v', Some (vars', e_w_list) => Some (v' :: vars', e_w :: e_w_list)
      | _, _ => None
      end
  | _, _ => Some (trainable_vars, [])
  end.

(** The second loop: [for v, e_w in zip(trainable_vars, e_w_list)]. *)
Fixpoint restore (trainable_vars e_w_list : list tensor) : option (list tensor) :=
  match trainable_vars, e_w_list with
  | v :: vars, e_w :: e_ws =>
      match assign_sub v e_w, restore vars e_ws with
      | Some v', Some vars' => Some (v' :: vars')
      | _, _ => None
      end
  | _, _ => Some trainable_vars
  end.

(** The gradients that are not [None]: [tf.linalg.global_norm] ignores the
    entries that are. *)
Fixpoint present (gradients : list (option tensor)) : list tensor :=
  match gradients with
  | [] => []
  | Some grad :: grads => grad :: present grads
  | None :: grads => present grads
  end.

End Loops.

Section TrainStep.

Variable A : arithmetic.

(** Inputs, targets, sample weights, predictions; the state of the model
    besides its trainable variables (moving statistics, random seeds), of
    the optimizer and of the metrics; what the metrics report. *)
Variables X Y SW Pred Aux Opt Metrics Logs : Type.

(** [self(x, training=True)] *)
Variable call : list (tensor A) -> Aux -> X -> Pred * Aux.

(** [self.compiled_loss(y, y_pred, sample_weight=...,
    regularization_losses=self.losses)]: the value of the loss, where the
    regularization losses depend on the variables, and what the call does
    to [self.metrics], which hold the trackers of the loss. *)
Variable compiled_loss : Y -> Pred -> option SW -> list (tensor A) -> num A.
Variable track_loss :
  Metrics -> Y -> Pred -> option SW -> list (tensor A) -> Metrics.

(** Differentiation: the derivative of a loss by the [j]-th entry of the
    [i]-th variable, at the given values; [None] for a variable the loss
    does not depend on. *)
Variable derivative :
  (list (tensor A) -> num A) -> list (tensor A) -> nat -> option (nat -> num A).

(** [self.optimizer.apply_gradients(zip(gradients, trainable_vars))]: the
    new state of the optimizer and the new values of the variables. *)
Variable apply_gradients :
  Opt -> list (option (tensor A) * tensor A) -> Opt * list (tensor A).

(** [self.compiled_metrics.update_state(y, y_pred, sample_weight=...)] and
    the loop over [self.metrics] that collects [metric.result()]. *)
Variable update_state : Metrics -> Y -> Pred -> option SW -> Metrics.
Variable results : Metrics -> Logs.

Record model : Type := mk_model {
  rho : num A;
  trainable_variables : list (tensor A);
  non_trainable : Aux;
  optimizer : Opt;
  metrics : Metrics
}.

(** [data]: of length 3, of length 2, or of another length. *)
Inductive batch : Type :=
| Batch2 (x : X) (y : Y)
| Batch3 (x : X) (y : Y) (sample_weight : SW)
| BatchOther.

(** The first lines: [x, y = data] raises unless [data] has length 2. *)
Definition unpack (data : batch) : option (X * Y * option SW) :=
  match data with
  | Batch3 x y sample_weight => Some (x, y, Some sample_weight)
  | Batch2 x y => Some (x, y, None)
  | BatchOther => None
  end.

(** [tape.gradient(loss, trainable_vars)]: for each variable a gradient of
    the variable's shape, or [None]. *)
Definition tape_gradient (loss : list (tensor A) -> num A)
    (trainable_vars : list (tensor A)) : list (option (tensor A)) :=
  map (fun iv =>
         match derivative loss trainable_vars (fst iv) with
         | Some d => Some (map d (seq 0 (length (snd iv))))
         | None => None
         end)
      (combine (seq 0 (length trainable_vars)) trainable_vars).

Definition train_step (self : model) (data : batch) : option (model * Logs) :=
  match unpack data with
  | None => None
  | Some (x, y, sample_weight) =>
      (* 1st step *)
      let trainable_vars := trainable_variables self in
      let '(y_pred, aux1) := call trainable_vars (non_trainable self) x in
      let loss := fun w =>
        compiled_loss y (fst (call w (non_trainable self) x)) sample_weight w in
      let metrics1 :=
        track_loss (metrics self) y y_pred sample_weight trainable_vars in
      let gradients := tape_gradient loss trainable_vars in
      let norm := global_norm A (present A gradients) in
      let scale := div A (rho self) (add A norm (epsilon A)) in
      (* [grad * scale] raises for a gradient that is [None] *)
      match Py.sequence gradients with
      | None => None
      | Some gradients =>
          match perturb A trainable_vars gradients scale with
          | None => None
          | Some (perturbed, e_w_list) =>
              (* 2nd step *)
              let '(y_pred_adv, aux2) := call perturbed aux1 x in
              let loss_adv := fun w =>
                compiled_loss y (fst (call w aux1 x)) sample_weight w in
              let metrics2 :=
                track_loss metrics1 y y_pred_adv sample_weight perturbed in
              let gradients_adv := tape_gradient loss_adv perturbed in
              match restore A perturbed e_w_list with
              | None => None
              | Some restored =>
                  (* optimize *)
                  let '(opt', updated) :=
                    apply_gradients (optimizer self)
                      (combine gradients_adv restored) in
                  let metrics' := update_state metrics2 y y_pred sample_weight in
                  Some (mk_model (rho self) updated aux2 opt' metrics',
                        results metrics')
              end
          end
      end
  end.

End TrainStep.

Arguments mk_model {A Aux Opt Metrics}.
Arguments rho {A Aux Opt Metrics}.
Arguments trainable_variables {A Aux Opt Metrics}.
Arguments non_trainable {A Aux Opt Metrics}.
Arguments optimizer {A Aux Opt Metrics}.
Arguments metrics {A Aux Opt Metrics}.
Arguments Batch2 {X Y SW}.
Arguments Batch3 {X Y SW}.
Arguments BatchOther {X Y SW}.
Arguments unpack {X Y SW}.
Arguments tape_gradient {A}.
Arguments train_step {A X Y SW Pred Aux Opt Metrics Logs}.

(** *** A step in single precision

    A model of one weight [w] with the prediction [w * x], whose loss is
    its prediction; the metrics are the mean of the losses that were
    tracked; the optimizer is gradient descent. *)

Definition example_call (w : list (tensor float32)) (aux : unit)
    (x : num float32) : num float32 * unit :=
  (mul float32 (nth 0 (nth 0 w []) (zero float32)) x, tt).

Definition example_loss (y : unit) (y_pred : num float32) (sw : option unit)
    (w : list (tensor float32)) : num float32 :=
  y_pred.

(** The tracker of the loss: the total and the count. *)
Definition example_track_loss (m : num float32 * num float32) (y : unit)
    (y_pred : num float32) (sw : option unit) (w : list (tensor float32))
  : num float32 * num float32 :=
  (add float32 (fst m) (example_loss y y_pred sw w),
   add float32 (snd m) (S754_finite false 8388608 (-23))).

(** The loss is linear in the weight: its derivative is its value at the
    weight 1. *)
Definition example_derivative (loss : list (tensor float32) -> num float32)
    (w : list (tensor float32)) (i : nat) : option (nat -> num float32) :=
  Some (fun _ => loss [[S754_finite false 8388608 (-23)]]).

Definition example_apply_gradients (learning_rate : num float32) (opt : unit)
    (l : list (option (tensor float32) * tensor float32))
  : unit * list (tensor float32) :=
  (opt,
   map (fun gv =>
          match fst gv with
          | Some g =>
              map (fun p => sub float32 (fst p) (mul float32 learning_rate (snd p)))
                  (combine (snd gv) g)
          | None => snd gv
          end) l).

Definition example_update_state (m : num float32 * num float32) (y : unit)
    (y_pred : num float32) (sw : option unit) : num float32 * num float32 :=
  m.

Definition example_results (m : num float32 * num float32) : num float32 :=
  div float32 (fst m) (snd m).

(** The weight 0.1 and [rho = 0.05], in single precision. *)
Definition example_model : model float32 unit unit (num float32 * num float32) :=
  mk_model (A := float32) (S754_finite false 13421773 (-28))
    [[S754_finite false 13421773 (-27)]] tt tt
    (S754_zero false, S754_zero false).

(** *** The two loops *)

Section LoopFacts.

Variable A : arithmetic.

(** Two lists of tensors of the same shapes. *)
Definition same_shapes (l1 l2 : list (tensor A)) : Prop :=
  Forall2 (fun a b => length a = length b) l1 l2.

Lemma assign_add_same (v e : tensor A) :
  length v = length e ->
  assign_add A v e = Some (map (fun p => add A (fst p) (snd p)) (combine v e)).
Proof. intros H. unfold assign_add. now rewrite H, Nat.eqb_refl. Qed.

Lemma assign_sub_same (v e : tensor A) :
  length v = length e ->
  assign_sub A v e = Some (map (fun p => sub A (fst p) (snd p)) (combine v e)).
Proof. intros H. unfold assign_sub. now rewrite H, Nat.eqb_refl. Qed.

(** What the first loop computes. *)
Lemma perturb_same_shapes (trainable_vars gradients : list (tensor A))
    (scale : num A) :
  same_shapes trainable_vars gradients ->
  let e_w_list := map (map (fun g => mul A g scale)) gradients in
  perturb A trainable_vars gradients scale =
  Some (map (fun ve => map (fun p => add A (fst p) (snd p))
                           (combine (fst ve) (snd ve)))
            (combine trainable_vars e_w_list),
        e_w_list).
Proof.
  induction 1 as [| v grad vars grads Hlen _ IH]; [reflexivity |].
  cbn -[assign_add]. cbn zeta in IH. rewrite IH.
  unfold scale_tensor.
  rewrite assign_add_same by (now rewrite length_map).
  reflexivity.
Qed.

(** What the second loop computes. *)
Lemma restore_same_shapes (perturbed e_w_list : list (tensor A)) :
  same_shapes perturbed e_w_list ->
  restore A perturbed e_w_list =
  Some (map (fun ve => map (fun p => sub A (fst p) (snd p))
                           (combine (fst ve) (snd ve)))
            (combine perturbed e_w_list)).
Proof.
  induction 1 as [| v e vars es Hlen _ IH]; [reflexivity |].
  cbn -[assign_sub]. rewrite IH, assign_sub_same by exact Hlen.
  reflexivity.
Qed.

Lemma same_shapes_perturbed (trainable_vars gradients : list (tensor A))
    (scale : num A) :
  same_shapes trainable_vars gradients ->
  let e_w_list := map (map (fun g => mul A g scale)) gradients in
  same_shapes
    (map (fun ve => map (fun p => add A (fst p) (snd p))
                        (combine (fst ve) (snd ve)))
         (combine trainable_vars e_w_list))
    e_w_list.
Proof.
  induction 1 as [| v grad vars grads Hlen _ IH]; cbn; constructor.
  - cbn. rewrite !length_map, length_combine, length_map, Hlen.
    apply Nat.min_id.
  - exact IH.
Qed.

Lemma same_shapes_map (l1 l2 : list (tensor A)) (f : num A -> num A) :
  same_shapes l1 l2 -> same_shapes l1 (map (map f) l2).
Proof.
  induction 1 as [| a b l1 l2 Hlen _ IH]; cbn; constructor; [| exact IH].
  now rewrite length_map.
Qed.

Lemma present_sequence (gradients : list (option (tensor A)))
    (g : list (tensor A)) :
  Py.sequence gradients = Some g -> present A gradients = g.
Proof.
  revert g. induction gradients as [| [grad |] grads IH]; intros g; cbn.
  - now intros [= <-].
  - destruct (Py.sequence grads) as [r |]; [| discriminate].
    intros [= <-]. now rewrite (IH r).
  - discriminate.
Qed.

(** *** Numbers in which a sum minus its second term is the first term *)

Section Cancellation.

Hypothesis add_sub : forall a b : num A, sub A (add A a b) b = a.

Lemma add_then_sub (v e : tensor A) :
  length v = length e ->
  map (fun p => sub A (fst p) (snd p))
      (combine (map (fun p => add A (fst p) (snd p)) (combine v e)) e) = v.
Proof.
  revert e. induction v as [| a v IH]; intros [| b e] Hlen;
    try discriminate; try reflexivity.
  cbn. rewrite IH by (now injection Hlen). now rewrite add_sub.
Qed.

Lemma assign_add_sub (v e : tensor A) :
  length v = length e ->
  exists v', assign_add A v e = Some v' /\ assign_sub A v' e = Some v.
Proof.
  intros Hlen. unfold assign_add. rewrite Hlen, Nat.eqb_refl.
  eexists. split; [reflexivity |].
  unfold assign_sub. rewrite length_map, length_combine, Hlen, Nat.min_id.
  rewrite Nat.eqb_refl. now rewrite add_then_sub.
Qed.

Lemma perturb_restore (trainable_vars gradients : list (tensor A))
    (scale : num A) :
  same_shapes trainable_vars gradients ->
  exists perturbed,
    perturb A trainable_vars gradients scale =
    Some (perturbed, map (fun grad => scale_tensor A grad scale) gradients) /\
    Forall2 (fun v' ve =>
               assign_add A (fst ve) (scale_tensor A (snd ve) scale) = Some v')
      perturbed (combine trainable_vars gradients) /\
    restore A perturbed (map (fun grad => scale_tensor A grad scale) gradients) =
    Some trainable_vars.
Proof.
  induction 1 as [| v grad vars grads Hlen _ [perturbed [Hp [Hf Hr]]]].
  - exists []. repeat split; constructor.
  - destruct (assign_add_sub v (scale_tensor A grad scale)) as [v' [Ha Hs]].
    { unfold scale_tensor. now rewrite length_map. }
    exists (v' :: perturbed). cbn. rewrite Ha, Hp, Hs, Hr.
    repeat split. constructor; [exact Ha | exact Hf].
Qed.

Lemma restored_same (trainable_vars e_w_list : list (tensor A)) :
  same_shapes trainable_vars e_w_list ->
  map (fun ve => map (fun p => sub A (fst p) (snd p))
                     (combine (fst ve) (snd ve)))
      (combine
         (map (fun ve => map (fun p => add A (fst p) (snd p))
                             (combine (fst ve) (snd ve)))
              (combine trainable_vars e_w_list))
         e_w_list)
  = trainable_vars.
Proof.
  induction 1 as [| v e vars es Hlen _ IH]; [reflexivity |].
  cbn. rewrite IH, add_then_sub by exact Hlen. reflexivity.
Qed.

End Cancellation.

End LoopFacts.

Arguments same_shapes {A}.

Section TrainStepProperties.

Variable A : arithmetic.
Variables X Y SW Pred Aux Opt Metrics Logs : Type.
Variable call : list (tensor A) -> Aux -> X -> Pred * Aux.
Variable compiled_loss : Y -> Pred -> option SW -> list (tensor A) -> num A.
Variable track_loss :
  Metrics -> Y -> Pred -> option SW -> list (tensor A) -> Metrics.
Variable derivative :
  (list (tensor A) -> num A) -> list (tensor A) -> nat -> option (nat -> num A).
Variable apply_gradients :
  Opt -> list (option (tensor A) * tensor A) -> Opt * list (tensor A).
Variable update_state : Metrics -> Y -> Pred -> option SW -> Metrics.
Variable results : Metrics -> Logs.

(** The gradients the tape returns, when none of them is [None], are the
    derivatives of the engine, entry by entry. *)
Lemma tape_gradient_entries (loss : list (tensor A) -> num A)
    (w g : list (tensor A)) :
  Py.sequence (tape_gradient derivative loss w) = Some g ->
  forall i v, nth_error w i = Some v ->
    exists d, derivative loss w i = Some d /\
              nth_error g i = Some (map d (seq 0 (length v))).
Proof.
  unfold tape_gradient. generalize (derivative loss w) as dv. intros dv.
  assert (H : forall start g,
             Py.sequence
               (map (fun iv : nat * tensor A =>
                       match dv (fst iv) with
                       | Some d => Some (map d (seq 0 (length (snd iv))))
                       | None => None
                       end)
                    (combine (seq start (length w)) w)) = Some g ->
             forall i v, nth_error w i = Some v ->
               exists d, dv (start + i)%nat = Some d /\
                         nth_error g i = Some (map d (seq 0 (length v)))).
  { clear. induction w as [| v0 w IH]; intros start g Hg i v Hi.
    - destruct i; discriminate.
    - cbn in Hg. destruct (dv start) as [d |] eqn:Ed; [| discriminate].
      destruct (Py.sequence _) as [r |] eqn:Er; [| discriminate].
      injection Hg as <-. destruct i as [| i]; cbn in Hi.
      + injection Hi as <-. exists d. rewrite Nat.add_0_r. now split.
      + destruct (IH (S start) r Er i v Hi) as [d' [Hd' Hn]].
        exists d'. rewrite Nat.add_succ_r. now split. }
  intros Hg i v Hi. exact (H 0%nat g Hg i v Hi).
Qed.

Lemma tape_gradient_same_shapes (loss : list (tensor A) -> num A)
    (w g : list (tensor A)) :
  Py.sequence (tape_gradient derivative loss w) = Some g -> same_shapes w g.
Proof.
  unfold tape_gradient, same_shapes.
  generalize (derivative loss w) as dv. intros dv.
  assert (H : forall start g,
             Py.sequence
               (map (fun iv : nat * tensor A =>
                       match dv (fst iv) with
                       | Some d => Some (map d (seq 0 (length (snd iv))))
                       | None => None
                       end)
                    (combine (seq start (length w)) w)) = Some g ->
             Forall2 (fun a b : tensor A => length a = length b) w g).
  { clear. induction w as [| v w IH]; intros start g Hg; cbn in Hg.
    - injection Hg as <-. constructor.
    - destruct (dv start) as [d |]; [| discriminate].
      destruct (Py.sequence _) as [r |] eqn:Er; [| discriminate].
      injection Hg as <-. constructor.
      + now rewrite length_map, length_seq.
      + exact (IH (S start) r Er). }
  apply H.
Qed.

(** The step, when the batch unpacks and the first gradients are [g1]. *)
Lemma train_step_steps (self : model A Aux Opt Metrics) (data : batch X Y SW)
    (x : X) (y : Y) (sample_weight : option SW) (g1 : list (tensor A)) :
  unpack data = Some (x, y, sample_weight) ->
  let w0 := trainable_variables self in
  let first := call w0 (non_trainable self) x in
  Py.sequence
    (tape_gradient derivative
       (fun w => compiled_loss y (fst (call w (non_trainable self) x)) sample_weight w)
       w0) = Some g1 ->
  let norm :=
    root A (fold_right (add A) (zero A)
              (map (fun t => fold_right (add A) (zero A)
                               (map (fun g => mul A g g) t)) g1)) in
  let scale := div A (rho self) (add A norm (epsilon A)) in
  let e_w_list := map (map (fun g => mul A g scale)) g1 in
  let perturbed :=
    map (fun ve => map (fun p => add A (fst p) (snd p))
                       (combine (fst ve) (snd ve)))
        (combine w0 e_w_list) in
  let second := call perturbed (snd first) x in
  let g2 :=
    tape_gradient derivative
      (fun w => compiled_loss y (fst (call w (snd first) x)) sample_weight w)
      perturbed in
  let restored :=
    map (fun ve => map (fun p => sub A (fst p) (snd p))
                       (combine (fst ve) (snd ve)))
        (combine perturbed e_w_list) in
  let update := apply_gradients (optimizer self) (combine g2 restored) in
  let metrics' :=
    update_state
      (track_loss
         (track_loss (metrics self) y (fst first) sample_weight w0)
         y (fst second) sample_weight perturbed)
      y (fst first) sample_weight in
  train_step call compiled_loss track_loss derivative apply_gradients
    update_state results self data =
  Some (mk_model (rho self) (snd update) (snd second) (fst update) metrics',
        results metrics').
Proof.
  intros Hd w0 first Hg. cbv zeta. subst w0 first.
  pose proof (tape_gradient_same_shapes _ _ _ Hg) as Hs.
  unfold train_step. rewrite Hd.
  destruct (call (trainable_variables self) (non_trainable self) x)
    as [y_pred aux1].
  cbn [fst snd] in *. rewrite Hg, (present_sequence A _ _ Hg).
  unfold global_norm, sum.
  rewrite (perturb_same_shapes A _ _ _ Hs).
  match goal with
  | |- context [call ?p aux1 x] => destruct (call p aux1 x) as [y_pred_adv aux2]
  end.
  cbn [fst snd].
  rewrite (restore_same_shapes A _ _ (same_shapes_perturbed A _ _ _ Hs)).
  destruct (apply_gradients _ _). reflexivity.
Qed.

(** Where the step raises: on a batch that has neither two nor three parts,
    and when the tape has no gradient for one of the variables. *)
Lemma train_step_other_length (self : model A Aux Opt Metrics) :
  train_step call compiled_loss track_loss derivative apply_gradients
    update_state results self (BatchOther (X := X) (Y := Y) (SW := SW)) = None.
Proof. reflexivity. Qed.

Lemma train_step_None_gradient (self : model A Aux Opt Metrics)
    (data : batch X Y SW) (x : X) (y : Y) (sample_weight : option SW) :
  unpack data = Some (x, y, sample_weight) ->
  In None
    (tape_gradient derivative
       (fun w => compiled_loss y (fst (call w (non_trainable self) x)) sample_weight w)
       (trainable_variables self)) ->
  train_step call compiled_loss track_loss derivative apply_gradients
    update_state results self data = None.
Proof.
  intros Hd Hn. unfold train_step. rewrite Hd.
  destruct (call (trainable_variables self) (non_trainable self) x)
    as [y_pred aux1].
  destruct (Py.sequence _) as [g |] eqn:E; [exfalso | reflexivity].
  apply Py.sequence_Forall2 in E. revert Hn E.
  generalize (tape_gradient derivative
                (fun w => compiled_loss y (fst (call w (non_trainable self) x))
                            sample_weight w)
                (trainable_variables self)) as l.
  intros l Hn E. induction E as [| o t l g Ho _ IH]; [contradiction |].
  destruct Hn as [-> | Hn]; [discriminate | now apply IH].
Qed.

(** C2: one [train_step] on a batch [(x, y)] or [(x, y, sample_weight)],
    when the first pass gives a gradient [g1] for every variable (the
    derivatives of the loss at the current variables): [e_w] is
    [g1 * (rho / (norm + 1e-12))] with [norm] the square root of the sum of
    the squares of all entries of [g1]; the variables become [v + e_w]; the
    gradients [g2] are taken there, on the state the first pass left; the
    same [e_w] is subtracted, which gives [(v + e_w) - e_w]; the optimizer
    is applied to [g2] and these values, and the variables the step leaves
    are those the optimizer returns.  The values handed to the optimizer
    are those from before the perturbation where a sum minus its second
    term is the first term, as for real numbers.  The metrics the step
    reports have seen the losses of both passes, and the compiled metrics
    among them the predictions of the first pass. *)
Theorem train_step_sharpness_aware (self : model A Aux Opt Metrics)
    (data : batch X Y SW) (x : X) (y : Y) (sample_weight : option SW)
    (g1 : list (tensor A)) :
  unpack data = Some (x, y, sample_weight) ->
  let w0 := trainable_variables self in
  let first := call w0 (non_trainable self) x in
  let loss := fun w =>
    compiled_loss y (fst (call w (non_trainable self) x)) sample_weight w in
  Py.sequence (tape_gradient derivative loss w0) = Some g1 ->
  let norm :=
    root A (fold_right (add A) (zero A)
              (map (fun t => fold_right (add A) (zero A)
                               (map (fun g => mul A g g) t)) g1)) in
  let scale := div A (rho self) (add A norm (epsilon A)) in
  let e_w_list := map (map (fun g => mul A g scale)) g1 in
  let perturbed :=
    map (fun ve => map (fun p => add A (fst p) (snd p))
                       (combine (fst ve) (snd ve)))
        (combine w0 e_w_list) in
  let second := call perturbed (snd first) x in
  let g2 :=
    tape_gradient derivative
      (fun w => compiled_loss y (fst (call w (snd first) x)) sample_weight w)
      perturbed in
  let restored :=
    map (fun ve => map (fun p => sub A (fst p) (snd p))
                       (combine (fst ve) (snd ve)))
        (combine perturbed e_w_list) in
  let update := apply_gradients (optimizer self) (combine g2 restored) in
  let metrics' :=
    update_state
      (track_loss
         (track_loss (metrics self) y (fst first) sample_weight w0)
         y (fst second) sample_weight perturbed)
      y (fst first) sample_weight in
  (forall i v, nth_error w0 i = Some v ->
     exists d, derivative loss w0 i = Some d /\
               nth_error g1 i = Some (map d (seq 0 (length v)))) /\
  train_step call compiled_loss track_loss derivative apply_gradients
    update_state results self data =
  Some (mk_model (rho self) (snd update) (snd second) (fst update) metrics',
        results metrics') /\
  ((forall a b : num A, sub A (add A a b) b = a) -> restored = w0).
Proof.
  intros Hd w0 first loss Hg. cbv zeta. split; [| split].
  - exact (tape_gradient_entries loss w0 g1 Hg).
  - exact (train_step_steps self data x y sample_weight g1 Hd Hg).
  - intros add_sub. apply (restored_same A add_sub).
    apply same_shapes_map.
    exact (tape_gradient_same_shapes _ _ _ Hg).
Qed.

End TrainStepProperties.

(** The step of the example in single precision: the optimizer, with the
    learning rate 0, returns the values it is given, and these are
    [(0.1 + 0.05) - 0.05 = 13421774 * 2^-27], one unit in the last place
    above the weight [0.1 = 13421773 * 2^-27]; the loss reported is
    [0.125], the mean of the losses [0.1] and [0.15] of the two passes. *)
Lemma train_step_sharpness_aware_witness :
  train_step example_call example_loss example_track_loss example_derivative
    (example_apply_gradients (S754_zero false)) example_update_state
    example_results example_model (Batch2 (S754_finite false 8388608 (-23)) tt)
  = Some (mk_model (A := float32) (S754_finite false 13421773 (-28))
            [[S754_finite false 13421774 (-27)]] tt tt
            (S754_finite false 8388608 (-25), S754_finite false 8388608 (-22)),
          S754_finite false 8388608 (-26)).
Proof.
  exact (proj1 (proj2
    (train_step_sharpness_aware float32 (num float32) unit unit (num float32)
       unit unit (num float32 * num float32) (num float32)
       example_call example_loss example_track_loss example_derivative
       (example_apply_gradients (S754_zero false)) example_update_state
       example_results example_model
       (Batch2 (S754_finite false 8388608 (-23)) tt)
       (S754_finite false 8388608 (-23)) tt None
       [[S754_finite false 8388608 (-23)]] eq_refl eq_refl))).
Defined.

(** In single precision the step does not give the variable its value from
    before the perturbation: the second loop leaves [13421774 * 2^-27] where
    the weight was [13421773 * 2^-27], and the optimizer, which changes
    nothing, returns that value.  The loss the step reports, [0.125], is
    not the loss [0.1] of the first predictions, which the metrics would
    report had they seen the first pass only. *)
Lemma train_step_float32_not_restored :
  let x := S754_finite false 8388608 (-23) in
  let w0 := trainable_variables example_model in
  let first := example_call w0 tt x in
  let first_only :=
    example_results
      (example_update_state
         (example_track_loss (metrics example_model) tt (fst first) None w0)
         tt (fst first) None) in
  let w1 := [[S754_finite false 13421774 (-27)]] in
  let logs := S754_finite false 8388608 (-26) in
  train_step example_call example_loss example_track_loss example_derivative
    (example_apply_gradients (S754_zero false)) example_update_state
    example_results example_model (Batch2 x tt)
  = Some (mk_model (A := float32) (rho example_model) w1 tt tt
            (S754_finite false 8388608 (-25), S754_finite false 8388608 (-22)),
          logs) /\
  perturb float32 w0 [[x]] (rho example_model)
  = Some ([[S754_finite false 10066330 (-26)]],
          [[S754_finite false 13421773 (-28)]]) /\
  restore float32 [[S754_finite false 10066330 (-26)]]
    [[S754_finite false 13421773 (-28)]]
  = Some w1 /\
  w0 = [[S754_finite false 13421773 (-27)]] /\
  w1 <> w0 /\
  first_only = S754_finite false 13421773 (-27) /\
  logs <> first_only.
Proof.
  cbv zeta.
  assert (E : example_results
                (example_update_state
                   (example_track_loss (metrics example_model) tt
                      (fst (example_call (trainable_variables example_model) tt
                              (S754_finite false 8388608 (-23))))
                      None (trainable_variables example_model))
                   tt
                   (fst (example_call (trainable_variables example_model) tt
                           (S754_finite false 8388608 (-23))))
                   None)
              = S754_finite false 13421773 (-27)) by reflexivity.
  split; [reflexivity |].
  split; [reflexivity |].
  split; [reflexivity |].
  split; [reflexivity |].
  split; [discriminate |].
  split; [exact E |].
  rewrite E. discriminate.
Qed.

End SAM.

(** ** More on [MultiHeadPositionalEmbedding]: the index tensor, entry by
    entry *)

Module PositionalEmbeddingFacts.

Import PositionalEmbedding.
Local Open Scope Z_scope.

(** Flattening a matrix whose rows all have [c] entries: entry [n] of the
    flat list is entry [n mod c] of row [n / c]. *)
Lemma nth_concat_rows {A : Type} (rows : list (list A)) (c n : nat) (d : A) :
  (0 < c)%nat ->
  Forall (fun row => length row = c) rows ->
  (n < length rows * c)%nat ->
  nth n (concat rows) d = nth (n mod c) (nth (n / c) rows []) d.
Proof.
  intros Hc Hrows. revert n.
  induction Hrows as [| row rows Hrow _ IH]; intros n Hn; [cbn in Hn; lia |].
  cbn [concat]. destruct (Nat.lt_ge_cases n c) as [Hlt | Hge].
  - rewrite app_nth1 by lia.
    rewrite Nat.div_small, Nat.mod_small by exact Hlt. reflexivity.
  - rewrite app_nth2 by lia. rewrite Hrow.
    cbn in Hn. rewrite IH by lia.
    replace n with ((n - c) + 1 * c)%nat at 3 4 by lia.
    rewrite Nat.Div0.mod_add, Nat.div_add by lia.
    replace ((n - c) / c + 1)%nat with (S ((n - c) / c)) by lia.
    reflexivity.
Qed.

Lemma length_concat_rows {A : Type} (rows : list (list A)) (c : nat) :
  Forall (fun row => length row = c) rows ->
  length (concat rows) = (length rows * c)%nat.
Proof.
  induction 1 as [| row rows Hrow _ IH]; [reflexivity |].
  cbn. rewrite length_app, IH, Hrow. reflexivity.
Qed.

Lemma nth_map_in_range {A B : Type} (f : A -> B) (l : list A) (i : nat)
    (d : A) (d' : B) :
  (i < length l)%nat -> nth i (map f l) d' = f (nth i l d).
Proof.
  revert i. induction l as [| a l IH]; intros i Hi; [cbn in Hi; lia |].
  destruct i as [| i]; [reflexivity |]. cbn. apply IH. cbn in Hi. lia.
Qed.

Lemma length_range (n : Z) : length (range n) = Z.to_nat n.
Proof. unfold range. now rewrite length_map, length_seq. Qed.

Lemma nth_range (n : Z) (i : nat) :
  (i < Z.to_nat n)%nat -> nth i (range n) 0 = Z.of_nat i.
Proof.
  intros Hi. unfold range.
  rewrite (nth_map_in_range _ _ _ O) by now rewrite length_seq.
  now rewrite seq_nth.
Qed.

(** The grid coordinates, in row-major order: position [n] of a [q] x [q]
    grid is column [n mod q] of row [n / q]. *)
Lemma coordinates_meshgrid (q : Z) :
  let grid := coordinates (meshgrid (range q) (range q)) in
  length grid = (Z.to_nat q * Z.to_nat q)%nat /\
  forall n, (n < Z.to_nat q * Z.to_nat q)%nat ->
            nth n grid (0, 0) =
            (Z.of_nat (n mod Z.to_nat q), Z.of_nat (n / Z.to_nat q)).
Proof.
  cbv zeta. unfold coordinates, meshgrid. cbn [fst snd].
  set (c := Z.to_nat q).
  assert (Hx : Forall (fun row => length row = c)
                 (map (fun _ : Z => range q) (range q))).
  { apply Forall_map, Forall_forall. intros _ _. apply length_range. }
  assert (Hy : Forall (fun row => length row = c)
                 (map (fun y : Z => map (fun _ : Z => y) (range q)) (range q))).
  { apply Forall_map, Forall_forall. intros y _.
    rewrite length_map. apply length_range. }
  pose proof (length_concat_rows _ _ Hx) as Lx.
  pose proof (length_concat_rows _ _ Hy) as Ly.
  rewrite length_map, length_range in Lx, Ly. fold c in Lx, Ly.
  split.
  - rewrite length_combine, Lx, Ly. apply Nat.min_id.
  - intros n Hn.
    assert (Hc : (0 < c)%nat) by (destruct c; [cbn in Hn; lia | lia]).
    assert (Hdiv : (n / c < c)%nat) by (apply Nat.Div0.div_lt_upper_bound; lia).
    assert (Hmod : (n mod c < c)%nat) by (apply Nat.mod_upper_bound; lia).
    rewrite combine_nth by now rewrite Lx, Ly.
    rewrite (nth_concat_rows _ c n 0 Hc Hx)
      by now rewrite length_map, length_range.
    rewrite (nth_concat_rows _ c n 0 Hc Hy)
      by now rewrite length_map, length_range.
    f_equal.
    + rewrite (nth_map_in_range _ _ _ 0) by now rewrite length_range.
      now apply nth_range.
    + rewrite (nth_map_in_range _ _ _ 0) by now rewrite length_range.
      rewrite (nth_map_in_range _ _ _ 0) by now rewrite length_range.
      now apply nth_range.
Qed.

(** [bb_pos] as [build] leaves it, unfolded. *)
Lemma build_bb_pos (num_heads qq_blocks kk_blocks : Z) (l : layer) :
  build num_heads qq_blocks kk_blocks = Some l ->
  ceil_sqrt_ratio kk_blocks qq_blocks = Some (strides l) /\
  bb_pos l =
  map (fun a =>
         map (fun b => Z.abs (fst b - fst a * strides l)
                       + Z.abs (snd b - snd a * strides l) * int_sqrt kk_blocks)
             (coordinates (meshgrid (range (int_sqrt kk_blocks))
                             (range (int_sqrt kk_blocks)))))
      (coordinates (meshgrid (range (int_sqrt qq_blocks))
                      (range (int_sqrt qq_blocks)))).
Proof.
  unfold build.
  destruct (ceil_sqrt_ratio kk_blocks qq_blocks) as [s |]; [| discriminate].
  intros [= <-]. cbn [strides bb_pos]. split; [reflexivity |].
  rewrite map_map. apply map_ext. intros a. now rewrite map_map.
Qed.

(** The index tensor has one row per position of the query grid and one
    column per position of the key grid. *)
Theorem bb_pos_shape (num_heads qq_blocks kk_blocks : Z) (l : layer) :
  build num_heads qq_blocks kk_blocks = Some l ->
  Z.of_nat (length (bb_pos l)) = int_sqrt qq_blocks * int_sqrt qq_blocks /\
  Forall (fun row => Z.of_nat (length row)
                     = int_sqrt kk_blocks * int_sqrt kk_blocks) (bb_pos l).
Proof.
  intros Hb. apply build_bb_pos in Hb. destruct Hb as [_ ->].
  pose proof (Z.sqrt_nonneg qq_blocks). pose proof (Z.sqrt_nonneg kk_blocks).
  unfold int_sqrt in *.
  destruct (coordinates_meshgrid (Z.sqrt qq_blocks)) as [Lq _].
  destruct (coordinates_meshgrid (Z.sqrt kk_blocks)) as [Lk _].
  split.
  - rewrite length_map, Lq. lia.
  - apply Forall_map, Forall_forall. intros a _. rewrite length_map, Lk. lia.
Qed.

Lemma bb_pos_shape_witness :
  exists l, build 6 16 49 = Some l /\ Z.of_nat (length (bb_pos l)) = 16 /\
            Forall (fun row => Z.of_nat (length row) = 49) (bb_pos l).
Proof.
  eexists. split; [reflexivity |].
  exact (bb_pos_shape 6 16 49 _ eq_refl).
Defined.

(** One entry of the index tensor, by its row and column. *)
Lemma bb_pos_nth (num_heads qq_blocks kk_blocks : Z) (l : layer) (n m : nat) :
  build num_heads qq_blocks kk_blocks = Some l ->
  let q := int_sqrt qq_blocks in
  let k := int_sqrt kk_blocks in
  Z.of_nat n < q * q -> Z.of_nat m < k * k ->
  nth m (nth n (bb_pos l) []) 0 =
  Z.abs (Z.of_nat m mod k - (Z.of_nat n mod q) * strides l)
  + Z.abs (Z.of_nat m / k - (Z.of_nat n / q) * strides l) * k.
Proof.
  intros Hb q k Hn Hm. apply build_bb_pos in Hb. destruct Hb as [_ ->].
  fold q k.
  assert (Hq : 0 <= q) by apply Z.sqrt_nonneg.
  assert (Hk : 0 <= k) by apply Z.sqrt_nonneg.
  destruct (coordinates_meshgrid q) as [Lq Eq].
  destruct (coordinates_meshgrid k) as [Lk Ek].
  assert (Hn' : (n < Z.to_nat q * Z.to_nat q)%nat) by nia.
  assert (Hm' : (m < Z.to_nat k * Z.to_nat k)%nat) by nia.
  rewrite (nth_map_in_range _ _ _ (0, 0)) by now rewrite Lq.
  rewrite (nth_map_in_range _ _ _ (0, 0)) by now rewrite Lk.
  rewrite Eq, Ek by assumption. cbn [fst snd].
  rewrite !Nat2Z.inj_mod, !Nat2Z.inj_div, !Z2Nat.id by assumption.
  reflexivity.
Qed.

(** The entry for query position [n] and key position [m]: the distance
    between the key's column and row and the query's, scaled by the stride,
    the two distances packed into one index. *)
Theorem bb_pos_entry (num_heads qq_blocks kk_blocks : Z) (l : layer) (n m : nat) :
  build num_heads qq_blocks kk_blocks = Some l ->
  let q := int_sqrt qq_blocks in
  let k := int_sqrt kk_blocks in
  Z.of_nat n < q * q -> Z.of_nat m < k * k ->
  nth m (nth n (bb_pos l) []) 0 =
  Z.abs (Z.of_nat m mod k - (Z.of_nat n mod q) * strides l)
  + Z.abs (Z.of_nat m / k - (Z.of_nat n / q) * strides l) * k.
Proof. exact (bb_pos_nth num_heads qq_blocks kk_blocks l n m). Qed.

Lemma bb_pos_entry_witness :
  exists l, build 6 16 49 = Some l /\
            nth 10 (nth 5 (bb_pos l) []) 0 = 1 + 1 * 7.
Proof.
  eexists. split; [reflexivity |].
  exact (bb_pos_entry 6 16 49 _ 5 10 eq_refl eq_refl eq_refl).
Defined.

(** Without downsampling, on a [k] x [k] grid of queries and keys, the stride
    is 1, a position's index for itself is 0, and the index tensor is
    symmetric. *)
Theorem bb_pos_square (num_heads k : Z) :
  0 < k ->
  exists l, build num_heads (k * k) (k * k) = Some l /\
            strides l = 1 /\
            (forall n, Z.of_nat n < k * k -> nth n (nth n (bb_pos l) []) 0 = 0) /\
            (forall n m, Z.of_nat n < k * k -> Z.of_nat m < k * k ->
                         nth m (nth n (bb_pos l) []) 0 = nth n (nth m (bb_pos l) []) 0).
Proof.
  intros Hk.
  assert (Hs : int_sqrt (k * k) = k).
  { unfold int_sqrt. apply Z.sqrt_square. lia. }
  assert (Hc : ceil_sqrt_ratio (k * k) (k * k) = Some 1).
  { unfold ceil_sqrt_ratio. destruct (Z.eqb_spec (k * k) 0) as [E | _]; [nia |].
    rewrite Z.div_same by nia. change (Z.sqrt 1) with 1.
    destruct (Z.eqb_spec (1 * 1 * (k * k)) (k * k)); [reflexivity | lia]. }
  destruct (build num_heads (k * k) (k * k)) as [l |] eqn:Hb.
  2: { unfold build in Hb. rewrite Hc in Hb. discriminate. }
  exists l. split; [reflexivity |].
  assert (H1 : strides l = 1).
  { apply build_bb_pos in Hb. destruct Hb as [Hb _]. congruence. }
  split; [exact H1 |].
  assert (He : forall n m, Z.of_nat n < k * k -> Z.of_nat m < k * k ->
             nth m (nth n (bb_pos l) []) 0 =
             Z.abs (Z.of_nat m mod k - Z.of_nat n mod k)
             + Z.abs (Z.of_nat m / k - Z.of_nat n / k) * k).
  { intros n m Hn Hm.
    rewrite (bb_pos_nth num_heads (k * k) (k * k) l n m Hb)
      by now rewrite Hs.
    rewrite Hs, H1, !Z.mul_1_r. reflexivity. }
  split.
  - intros n Hn. rewrite He by assumption. rewrite !Z.sub_diag. reflexivity.
  - intros n m Hn Hm. rewrite !He by assumption.
    f_equal; [| f_equal]; lia.
Qed.

Lemma bb_pos_square_witness :
  exists l, build 4 (14 * 14) (14 * 14) = Some l /\ strides l = 1.
Proof.
  destruct (bb_pos_square 4 14 eq_refl) as [l [Hb [Hs _]]].
  exists l. split; assumption.
Defined.

End PositionalEmbeddingFacts.

(** ** More on the builder: the shapes of what the blocks return *)

Module LeViTShapes.

Import Graph LeViT.
Local Open Scope string_scope.
Local Open Scope Z_scope.

(** [returns m Q]: whenever [m] returns a value, the value satisfies [Q]. *)
Definition returns {A : Type} (m : builder A) (Q : A -> Prop) : Prop :=
  forall g a g', m g = Some (a, g') -> Q a.

Lemma returns_ret {A : Type} (a : A) (Q : A -> Prop) : Q a -> returns (ret a) Q.
Proof. intros H g a' g' [= <- <-]. exact H. Qed.

Lemma returns_raise {A : Type} (Q : A -> Prop) : returns (@raise A) Q.
Proof. intros g a g' [=]. Qed.

Lemma returns_bind {A B : Type} (m : builder A) (f : A -> builder B)
    (Q1 : A -> Prop) (Q : B -> Prop) :
  returns m Q1 -> (forall a, Q1 a -> returns (f a) Q) -> returns (bind m f) Q.
Proof.
  intros Hm Hf g b g'. unfold bind.
  destruct (m g) as [[a g1] |] eqn:E; [| discriminate].
  intros Hb. exact (Hf a (Hm _ _ _ E) _ _ _ Hb).
Qed.

Lemma returns_weaken {A : Type} (m : builder A) (Q1 Q : A -> Prop) :
  returns m Q1 -> (forall a, Q1 a -> Q a) -> returns m Q.
Proof. intros Hm HQ g a g' E. apply HQ. exact (Hm _ _ _ E). Qed.

(** The outputs of a layer have the shapes that shape inference gives. *)
Lemma returns_call_layer (name : option string) (c : layer_class)
    (inputs : list tensor) (Q : list tensor -> Prop) :
  (forall ts, output_shapes c (map t_shape inputs) = Some (map t_shape ts) -> Q ts) ->
  returns (call_layer name c inputs) Q.
Proof.
  intros HQ g ts g'. unfold call_layer.
  destruct (output_shapes c (map t_shape inputs)) as [outs |] eqn:E; [| discriminate].
  intros [= <- <-]. apply HQ. f_equal.
  rewrite map_map. cbn [t_shape].
  clear. generalize 0%nat. induction outs as [| o outs IH]; intros s; cbn;
    [reflexivity |]. now rewrite <- IH.
Qed.

Lemma returns_call (name : option string) (c : layer_class)
    (inputs : list tensor) (Q : tensor -> Prop) :
  (forall t, output_shapes c (map t_shape inputs) = Some [t_shape t] -> Q t) ->
  returns (call name c inputs) Q.
Proof.
  intros HQ. unfold call.
  eapply returns_bind; [apply returns_call_layer; intros ts H; exact H |].
  intros [| t [| ? ?]] H; cbn in H;
    first [apply returns_raise | apply returns_ret; now apply HQ].
Qed.

Lemma returns_floordiv (a b : Z) (Q : Z -> Prop) :
  (b <> 0 -> Q (a / b)) -> returns (floordiv a b) Q.
Proof.
  intros H. unfold floordiv. destruct (Z.eqb_spec b 0);
    [apply returns_raise | apply returns_ret; auto].
Qed.

Lemma returns_last_dim (t : tensor) (Q : Z -> Prop) :
  (forall d r, rev (t_shape t) = d :: r -> Q d) -> returns (last_dim t) Q.
Proof.
  intros H. unfold last_dim. destruct (rev (t_shape t)) eqn:E;
    [apply returns_raise | apply returns_ret; eauto].
Qed.

Lemma returns_for_each {A B : Type} (l : list A) (body : B -> A -> builder B)
    (I : B -> Prop) :
  (forall b a, I b -> returns (body b a) I) ->
  forall b, I b -> returns (for_each l body b) I.
Proof.
  intros Hbody. induction l as [| a l IH]; intros b Hb; cbn [for_each].
  - now apply returns_ret.
  - eapply returns_bind; [now apply Hbody | exact IH].
Qed.

Section Shapes.

Variable image_data_format : string.

(** Batch normalization and the activation keep the shape. *)
Lemma batchnorm_with_activation_shape inputs activation zero_gamma name :
  returns (batchnorm_with_activation image_data_format inputs activation
             zero_gamma name)
    (fun t => t_shape t = t_shape inputs).
Proof.
  unfold batchnorm_with_activation.
  eapply returns_bind; [apply returns_call; intros t H; exact H |].
  cbn. intros nn [= Hnn].
  destruct activation as [act |]; [| now apply returns_ret].
  destruct (String.eqb act "hard_swish").
  - apply returns_call. cbn. intros t [= Ht]. congruence.
  - destruct (Py.truthy (Some act)); [| now apply returns_ret].
    apply returns_call. cbn. intros t [= Ht]. congruence.
Qed.

(** *** Facts of shape inference *)

Lemma with_last_spec (s s' : shape) (d : Z) :
  with_last s d = Some s' -> exists r x, s = (r ++ [x])%list /\ s' = (r ++ [d])%list.
Proof.
  revert s'. induction s as [| a s IH]; intros s' H; [discriminate |].
  destruct s as [| b s].
  - cbn in H. injection H as <-. now exists [], a.
  - change (with_last (a :: b :: s) d)
      with (option_map (cons a) (with_last (b :: s) d)) in H.
    destruct (with_last (b :: s) d) as [s1 |] eqn:E; [| discriminate].
    cbn in H. injection H as <-. destruct (IH s1 eq_refl) as [r [x [Hs Hs1]]].
    exists (a :: r), x. cbn. now rewrite Hs, Hs1.
Qed.

Lemma with_last_app (r : list Z) (x d : Z) :
  with_last (r ++ [x])%list d = Some (r ++ [d])%list.
Proof.
  induction r as [| a r IH]; [reflexivity |].
  cbn [app]. destruct (r ++ [x])%list as [| b t] eqn:E; [now destruct r |].
  change (with_last (a :: b :: t) d)
    with (option_map (cons a) (with_last (b :: t) d)).
  now rewrite IH.
Qed.

Lemma broadcast_dim_refl (a : Z) : broadcast_dim a a = Some a.
Proof. unfold broadcast_dim. now rewrite Z.eqb_refl. Qed.

Lemma broadcast_refl (s : shape) : broadcast s s = Some s.
Proof.
  induction s as [| a s IH]; [reflexivity |].
  cbn. now rewrite broadcast_dim_refl, IH.
Qed.

(** Against the square of its own integer root a dimension broadcasts to
    itself, if at all. *)
Lemma broadcast_dim_sqrt (a r : Z) :
  broadcast_dim a (Z.sqrt a * Z.sqrt a) = Some r -> r = a.
Proof.
  unfold broadcast_dim.
  destruct (Z.eqb_spec a (Z.sqrt a * Z.sqrt a)); [congruence |].
  destruct (Z.eqb_spec a 1) as [-> | _]; [now contradiction n |].
  destruct (Z.sqrt a * Z.sqrt a =? 1); congruence.
Qed.

(** The residual MLP block returns a tensor of the shape of its input. *)
Theorem res_mlp_block_shape inputs mlp_ratio drop_rate use_bias activation name :
  returns (res_mlp_block image_data_format inputs mlp_ratio drop_rate use_bias
             activation name)
    (fun t => t_shape t = t_shape inputs).
Proof.
  unfold res_mlp_block.
  eapply returns_bind
    with (Q1 := fun d => exists r, rev (t_shape inputs) = d :: r);
    [apply returns_last_dim; eauto |].
  intros in_channels [r Hrev].
  assert (Hs : t_shape inputs = (rev r ++ [in_channels])%list).
  { rewrite <- (rev_involutive (t_shape inputs)), Hrev. reflexivity. }
  eapply returns_bind; [apply returns_call; intros t H; exact H |].
  cbn. intros nn1 H1. rewrite Hs, with_last_app in H1. cbn in H1.
  injection H1 as H1.
  eapply returns_bind; [apply batchnorm_with_activation_shape |].
  cbn. intros nn2 H2. rewrite <- H1 in H2.
  eapply returns_bind; [apply returns_call; intros t H; exact H |].
  cbn. intros nn3 H3. rewrite H2, with_last_app in H3. cbn in H3.
  injection H3 as H3.
  eapply returns_bind; [apply batchnorm_with_activation_shape |].
  cbn. intros nn4 H4. rewrite <- H3, <- Hs in H4.
  eapply returns_bind with (Q1 := fun t => t_shape t = t_shape inputs).
  { destruct (Py.Qgtb drop_rate 0); [| now apply returns_ret].
    apply returns_call. cbn. intros t [= Ht]. congruence. }
  cbn. intros nn5 H5. apply returns_call. cbn.
  rewrite H5, broadcast_refl. cbn. now intros t [= Ht].
Qed.

(** One call of a layer in a proof about shapes: [H] is what shape inference
    says of the result. *)
Ltac call_step H :=
  eapply returns_bind; [apply returns_call; intros ? H; exact H |];
  intros ? H.

(** [runs m Q]: on every graph [m] returns, a value that satisfies [Q]. *)
Definition runs {A : Type} (m : builder A) (Q : A -> Prop) : Prop :=
  forall g, exists a g', m g = Some (a, g') /\ Q a.

Lemma runs_ret {A : Type} (a : A) (Q : A -> Prop) : Q a -> runs (ret a) Q.
Proof. intros H g. now exists a, g. Qed.

Lemma runs_bind {A B : Type} (m : builder A) (f : A -> builder B)
    (Q1 : A -> Prop) (Q : B -> Prop) :
  runs m Q1 -> (forall a, Q1 a -> runs (f a) Q) -> runs (bind m f) Q.
Proof.
  intros Hm Hf g. destruct (Hm g) as [a [g1 [E Ha]]].
  destruct (Hf a Ha g1) as [b [g2 [E2 Hb]]].
  exists b, g2. unfold bind. rewrite E. now split.
Qed.

Lemma runs_weaken {A : Type} (m : builder A) (Q1 Q : A -> Prop) :
  runs m Q1 -> (forall a, Q1 a -> Q a) -> runs m Q.
Proof.
  intros Hm HQ g. destruct (Hm g) as [a [g' [E Ha]]]. exists a, g'. auto.
Qed.

Lemma runs_call (name : option string) (c : layer_class)
    (inputs : list tensor) (s : shape) :
  output_shapes c (map t_shape inputs) = Some [s] ->
  runs (call name c inputs) (fun t => t_shape t = s).
Proof.
  intros H g. unfold call, bind, call_layer. rewrite H. cbn.
  eexists. eexists. split; reflexivity.
Qed.

Lemma batchnorm_with_activation_runs inputs activation zero_gamma name :
  runs (batchnorm_with_activation image_data_format inputs activation
          zero_gamma name)
    (fun t => t_shape t = t_shape inputs).
Proof.
  unfold batchnorm_with_activation.
  eapply runs_bind; [now apply runs_call |].
  cbn. intros nn Hnn.
  destruct activation as [act |]; [| now apply runs_ret].
  destruct (String.eqb act "hard_swish").
  - eapply runs_weaken; [now apply runs_call |].
    cbn. intros t Ht. congruence.
  - destruct (Py.truthy (Some act)); [| now apply runs_ret].
    eapply runs_weaken; [now apply runs_call |].
    cbn. intros t Ht. congruence.
Qed.

Lemma scaled_dot_product_attention_shape qq kk vv key_dim attn_ratio output_dim
    activation name :
  returns (scaled_dot_product_attention image_data_format qq kk vv key_dim
             attn_ratio output_dim activation name)
    (fun t => exists h bq d, t_shape qq = [h; bq; d] /\ t_shape t = [bq; output_dim]).
Proof.
  unfold scaled_dot_product_attention.
  call_step H1. unfold output_shapes, map, matmul_shape in H1.
  destruct (t_shape qq) as [| h [| bq [| d [| ? ?]]]] eqn:Eqq; try discriminate H1.
  destruct (t_shape kk) as [| h2 [| bk [| d2 [| ? ?]]]] eqn:Ekk; try discriminate H1.
  destruct ((h =? h2) && (d =? d2)) eqn:E1; try discriminate H1.
  cbn in H1. injection H1 as H1.
  call_step H2. cbn in H2. injection H2 as H2. rewrite <- H1 in H2.
  call_step H3. cbn [output_shapes map] in H3. rewrite <- H2 in H3.
  destruct (PositionalEmbedding.ceil_sqrt_ratio bk bq); [| discriminate H3].
  unfold PositionalEmbedding.int_sqrt in H3. cbn [broadcast] in H3.
  rewrite broadcast_dim_refl in H3.
  destruct (broadcast_dim bq _) as [rq |] eqn:Eq; [| discriminate H3].
  destruct (broadcast_dim bk _) as [rk |] eqn:Ek; [| discriminate H3].
  apply broadcast_dim_sqrt in Eq, Ek. subst rq rk.
  cbn in H3. injection H3 as H3.
  call_step H4. cbn in H4. injection H4 as H4. rewrite <- H3 in H4.
  call_step H5. unfold output_shapes, map, matmul_shape in H5. rewrite <- H4 in H5.
  destruct (t_shape vv) as [| h3 [| bk3 [| dv [| ? ?]]]] eqn:Evv; try discriminate H5.
  destruct ((h =? h3) && (bk =? bk3)) eqn:E5; try discriminate H5.
  cbn in H5. injection H5 as H5.
  call_step H6. cbn in H6. rewrite <- H5 in H6. cbn in H6. injection H6 as H6.
  rewrite <- H6.
  call_step H7. cbn in H7. injection H7 as H7.
  eapply returns_bind with (Q1 := fun t => t_shape t = [bq; h * dv]).
  { destruct activation as [act |]; [| apply returns_ret; congruence].
    destruct (String.eqb act "hard_swish").
    - apply returns_call. cbn. intros t [= Ht]. congruence.
    - destruct (Py.truthy (Some act)); [| apply returns_ret; congruence].
      apply returns_call. cbn. intros t [= Ht]. congruence. }
  intros out2 H8.
  call_step H9. cbn in H9. rewrite H8 in H9. cbn in H9. injection H9 as H9.
  eapply returns_weaken; [apply batchnorm_with_activation_shape |].
  cbn. intros t Ht. exists h, bq, d. split; [reflexivity | congruence].
Qed.

Lemma mhsa_with_multi_head_position_shape inputs output_dim num_heads key_dim
    attn_ratio activation name :
  returns (mhsa_with_multi_head_position image_data_format inputs output_dim
             num_heads key_dim attn_ratio activation name)
    (fun t => exists blocks c, t_shape inputs = [blocks; c] /\
                               t_shape t = [blocks; output_dim]).
Proof.
  unfold mhsa_with_multi_head_position.
  destruct (t_shape inputs) as [| blocks [| c [| ? ?]]] eqn:Ein;
    try apply returns_raise.
  call_step H1. cbn in H1. rewrite Ein in H1. cbn in H1. injection H1 as H1.
  eapply returns_bind; [apply batchnorm_with_activation_shape |].
  cbn. intros qkv2 H2.
  eapply returns_bind with (Q1 := fun _ => True);
    [apply returns_floordiv; trivial |].
  intros per_head _.
  call_step H3. cbn in H3. injection H3 as H3.
  call_step H4. cbn in H4. rewrite <- H3 in H4. cbn in H4. injection H4 as H4.
  eapply returns_bind; [apply returns_call_layer; intros ts H; exact H |].
  intros parts H5. cbn [output_shapes map] in H5. rewrite <- H4 in H5.
  cbn [rev app] in H5.
  destruct (total _ =? per_head); [| discriminate H5].
  cbn in H5. injection H5 as H5.
  destruct parts as [| qq [| kk [| vv [| ? ?]]]]; try apply returns_raise.
  cbn in H5. injection H5 as Hqq Hkk Hvv.
  eapply returns_weaken; [apply scaled_dot_product_attention_shape |].
  cbn. intros t [h [bq [d [Eqq Et]]]].
  rewrite <- Hqq in Eqq. injection Eqq as <- <- <-.
  exists blocks, c. split; [reflexivity | exact Et].
Qed.

Lemma res_mhsa_with_multi_head_position_shape inputs embed_dim num_heads key_dim
    attn_ratio drop_rate activation name :
  returns (res_mhsa_with_multi_head_position image_data_format inputs embed_dim
             num_heads key_dim attn_ratio drop_rate activation name)
    (fun t => exists blocks c, t_shape inputs = [blocks; c] /\
                (c = embed_dim -> t_shape t = t_shape inputs)).
Proof.
  unfold res_mhsa_with_multi_head_position.
  eapply returns_bind; [apply mhsa_with_multi_head_position_shape |].
  cbn. intros nn [blocks [c [Ein Hnn]]].
  eapply returns_bind with (Q1 := fun t => t_shape t = [blocks; embed_dim]).
  { destruct (Py.Qgtb drop_rate 0); [| now apply returns_ret].
    apply returns_call. cbn. intros t [= Ht]. congruence. }
  cbn. intros nn2 H2. apply returns_call. cbn. rewrite Ein, H2.
  intros t Ht. exists blocks, c. split; [reflexivity |].
  intros ->. rewrite broadcast_refl in Ht. cbn in Ht. now injection Ht.
Qed.

(** The number of query blocks the strided attention keeps. *)
Definition strided_blocks (blocks strides : Z) : Z :=
  if strides =? 1 then blocks
  else strided (Z.sqrt blocks) strides * strided (Z.sqrt blocks) strides.

Lemma mhsa_with_multi_head_position_and_strides_returns inputs output_dim
    num_heads key_dim attn_ratio strides activation name :
  returns (mhsa_with_multi_head_position_and_strides image_data_format inputs
             output_dim num_heads key_dim attn_ratio strides activation name)
    (fun t => exists blocks c, t_shape inputs = [blocks; c] /\
                t_shape t = [strided_blocks blocks strides; output_dim]).
Proof.
  unfold mhsa_with_multi_head_position_and_strides.
  destruct (t_shape inputs) as [| blocks [| c [| ? ?]]] eqn:Ein;
    try apply returns_raise.
  eapply returns_bind
    with (Q1 := fun t => t_shape t = [strided_blocks blocks strides; c]).
  { unfold strided_blocks. destruct (strides =? 1); cbn [negb];
      [now apply returns_ret |].
    call_step H1. cbn in H1. injection H1 as H1.
    call_step H2. cbn in H2. rewrite <- H1 in H2.
    destruct (strides =? 0); [discriminate H2 |]. cbn in H2.
    injection H2 as H2. rewrite <- H2.
    apply returns_call. cbn. intros t [= Ht].
    unfold PositionalEmbedding.int_sqrt in Ht. congruence. }
  intros qq1 H1.
  call_step H2. cbn in H2. rewrite H1 in H2. cbn in H2. injection H2 as H2.
  eapply returns_bind; [apply batchnorm_with_activation_shape |].
  cbn. intros qq3 H3. rewrite <- H2 in H3. rewrite H3.
  call_step H4. cbn in H4. injection H4 as H4.
  call_step H5. cbn in H5. rewrite <- H4 in H5. cbn in H5. injection H5 as H5.
  call_step H6.
  eapply returns_bind; [apply batchnorm_with_activation_shape |].
  cbn. intros kv2 H7.
  eapply returns_bind with (Q1 := fun _ => True);
    [apply returns_floordiv; trivial |].
  intros per_head _.
  call_step H8.
  call_step H9.
  eapply returns_bind with (Q1 := fun _ => True);
    [apply returns_call_layer; trivial |].
  intros parts _.
  destruct parts as [| kk [| vv [| ? ?]]]; try apply returns_raise.
  eapply returns_weaken; [apply scaled_dot_product_attention_shape |].
  cbn. intros t [h [bq [d [Eqq Et]]]].
  rewrite <- H5 in Eqq. injection Eqq as <- <- <-.
  exists blocks, c. split; [reflexivity | exact Et].
Qed.

(** The strided attention returns [strided_blocks] tokens of [output_dim]
    channels. *)
Theorem mhsa_with_multi_head_position_and_strides_shape inputs output_dim
    num_heads key_dim attn_ratio strides activation name :
  returns (mhsa_with_multi_head_position_and_strides image_data_format inputs
             output_dim num_heads key_dim attn_ratio strides activation name)
    (fun t => exists blocks c, t_shape inputs = [blocks; c] /\
                t_shape t = [strided_blocks blocks strides; output_dim]).
Proof. apply mhsa_with_multi_head_position_and_strides_returns. Qed.

(** A stage: the blocks keep the shape of the tokens; the downsampling
    attention, taken when the stage changes the width, leaves
    [strided_blocks] tokens of the new width. *)
Theorem attention_mlp_stack_shape inputs out_channel num_heads depth key_dim
    attn_ratio mlp_ratio strides drop_rate activation name :
  returns (attention_mlp_stack image_data_format inputs out_channel num_heads
             depth key_dim attn_ratio mlp_ratio strides drop_rate activation name)
    (fun t => exists embed_dim r,
                rev (t_shape inputs) = embed_dim :: r /\
                if embed_dim =? out_channel
                then t_shape t = t_shape inputs
                else exists blocks,
                       t_shape inputs = [blocks; embed_dim] /\
                       t_shape t = [strided_blocks blocks strides; out_channel]).
Proof.
  unfold attention_mlp_stack.
  eapply returns_bind
    with (Q1 := fun d => exists r, rev (t_shape inputs) = d :: r);
    [apply returns_last_dim; eauto |].
  intros embed_dim [r Hrev].
  eapply returns_bind with (Q1 := fun t => t_shape t = t_shape inputs).
  { apply returns_for_each; [| reflexivity].
    intros nn id Hnn.
    eapply returns_bind with (Q1 := fun t => t_shape t = t_shape inputs).
    - eapply returns_weaken;
        [apply res_mhsa_with_multi_head_position_shape |].
      cbn. intros t [blocks [c [Ein Ht]]]. rewrite Ht, Hnn; [reflexivity |].
      rewrite Hnn in Ein. rewrite Ein in Hrev. cbn in Hrev. congruence.
    - intros nn' Hnn'. destruct (0 <? mlp_ratio); [| now apply returns_ret].
      eapply returns_weaken; [apply res_mlp_block_shape |].
      cbn. intros t Ht. congruence. }
  intros nn Hnn. destruct (embed_dim =? out_channel) eqn:Ee; cbn [negb].
  { apply returns_ret. exists embed_dim, r. now rewrite Ee. }
  eapply returns_bind with (Q1 := fun _ => True);
    [apply returns_floordiv; trivial |].
  intros ds_num_heads _.
  eapply returns_bind;
    [apply mhsa_with_multi_head_position_and_strides_returns |].
  cbn. intros nn2 [blocks [c [Ein H2]]].
  assert (Hc : c = embed_dim).
  { rewrite Hnn in Ein. rewrite Ein in Hrev. cbn in Hrev. congruence. }
  subst c.
  eapply returns_weaken with
    (Q1 := fun t => t_shape t = [strided_blocks blocks strides; out_channel]).
  { destruct (0 <? mlp_ratio); [| now apply returns_ret].
    eapply returns_weaken; [apply res_mlp_block_shape |].
    cbn. intros t Ht. congruence. }
  intros t Ht. exists embed_dim, r. split; [exact Hrev |]. rewrite Ee.
  exists blocks. split; [congruence | exact Ht].
Qed.

(** A 3 x 3 convolution of stride 2 with ["same"] padding halves each side,
    rounding up; it accepts any image of positive sides. *)
Lemma conv2d_no_bias_same_runs inputs filters use_bias name (h w c : Z) :
  t_shape inputs = [h; w; c] -> 1 <= h -> 1 <= w ->
  runs (conv2d_no_bias inputs filters 3 2 "same" use_bias name)
    (fun t => t_shape t = [(h + 1) / 2; (w + 1) / 2; filters]).
Proof.
  intros Hs Hh Hw. unfold conv2d_no_bias.
  change (String.eqb (Py.upper "same") "SAME") with true. cbv iota.
  eapply runs_bind.
  { apply runs_call. cbn. rewrite Hs. reflexivity. }
  cbn. intros padded Hp.
  apply runs_call. cbn. rewrite Hp. cbn.
  destruct (Z.leb_spec 3 (h + 2)); [| lia].
  destruct (Z.leb_spec 3 (w + 2)); [| lia].
  cbn.
  assert (Hd : forall x, (x + 2 - 3) / 2 + 1 = (x + 1) / 2).
  { intros x. replace (x + 2 - 3) with ((x + 1) + (-1) * 2) by lia.
    rewrite Z.div_add by lia. lia. }
  now rewrite !Hd.
Qed.

Lemma patch_stem_shape_runs inputs stem_width activation name (h w c : Z) :
  t_shape inputs = [h; w; c] -> 1 <= h -> 1 <= w ->
  runs (patch_stem image_data_format inputs stem_width activation name)
    (fun t => t_shape t = [(h + 15) / 16; (w + 15) / 16; stem_width]).
Proof.
  intros Hs Hh Hw. unfold patch_stem.
  assert (Hpos : forall x, 1 <= x -> 1 <= (x + 1) / 2).
  { intros x Hx. Z.div_mod_to_equations. lia. }
  eapply runs_bind; [exact (conv2d_no_bias_same_runs _ _ _ _ h w c Hs Hh Hw) |].
  cbn. intros c1 H1.
  eapply runs_bind; [apply batchnorm_with_activation_runs |].
  cbn. intros b1 Hb1. rewrite H1 in Hb1.
  eapply runs_bind;
    [exact (conv2d_no_bias_same_runs _ _ _ _ _ _ _ Hb1 (Hpos _ Hh) (Hpos _ Hw)) |].
  cbn. intros c2 H2.
  eapply runs_bind; [apply batchnorm_with_activation_runs |].
  cbn. intros b2 Hb2. rewrite H2 in Hb2.
  eapply runs_bind;
    [exact (conv2d_no_bias_same_runs _ _ _ _ _ _ _ Hb2
              (Hpos _ (Hpos _ Hh)) (Hpos _ (Hpos _ Hw))) |].
  cbn. intros c3 H3.
  eapply runs_bind; [apply batchnorm_with_activation_runs |].
  cbn. intros b3 Hb3. rewrite H3 in Hb3.
  eapply runs_bind;
    [exact (conv2d_no_bias_same_runs _ _ _ _ _ _ _ Hb3
              (Hpos _ (Hpos _ (Hpos _ Hh))) (Hpos _ (Hpos _ (Hpos _ Hw)))) |].
  cbn. intros c4 H4.
  eapply runs_weaken; [apply batchnorm_with_activation_runs |].
  cbn. intros t Ht. rewrite Ht, H4.
  assert (Hd : forall x, ((((x + 1) / 2 + 1) / 2 + 1) / 2 + 1) / 2 = (x + 15) / 16).
  { intros x. Z.div_mod_to_equations. lia. }
  now rewrite !Hd.
Qed.


(** With a classification head, the outputs are vectors of [num_classes]
    entries: the classification and, with distillation, a second one. *)
Theorem LeViT_head_outputs a m :
  LeViT image_data_format a = Some m ->
  num_classes a <> 0 ->
  map t_shape (model_outputs m) =
  if use_distillation a then [[num_classes a]; [num_classes a]]
  else [[num_classes a]].
Proof.
  intros Hm Hn. unfold LeViT in Hm.
  destruct (LeViT_graph image_data_format a []) as [[[inputs out] layers] |] eqn:E;
    [| discriminate].
  injection Hm as <-. cbn [model_outputs].
  revert E. 
  change (map t_shape out) with (map t_shape (snd (inputs, out))).
  generalize (inputs, out) as p. intros p E.
  revert E. 
  enough (H : returns (LeViT_graph image_data_format a)
                (fun p => map t_shape (snd p) =
                          if use_distillation a
                          then [[num_classes a]; [num_classes a]]
                          else [[num_classes a]])).
  { intros E. exact (H _ _ _ E). }
  unfold LeViT_graph.
  eapply returns_bind with (Q1 := fun _ => True).
  { intros ? ? ? _. exact I. }
  intros [inp nn] _.
  destruct (Z.eqb_spec (num_classes a) 0); [contradiction |].
  call_step H1. cbn [output_shapes map] in H1.
  destruct (t_shape nn) as [| steps [| features [| ? ?]]]; try discriminate H1.
  cbn in H1. injection H1 as H1.
  eapply returns_bind with (Q1 := fun t => t_shape t = [features]).
  { destruct (_ && _); [| apply returns_ret; now symmetry].
    apply returns_call. cbn. intros t Ht. injection Ht as Ht.
    rewrite <- Ht. now symmetry. }
  intros nn2 H2.
  eapply returns_bind; [apply batchnorm_with_activation_shape |].
  cbn. intros out1 H3. rewrite H2 in H3.
  call_step H4. cbn in H4. rewrite H3 in H4. cbn in H4. injection H4 as H4.
  destruct (use_distillation a).
  - eapply returns_bind; [apply batchnorm_with_activation_shape |].
    cbn. intros d1 H5. rewrite H2 in H5.
    call_step H6. cbn in H6. rewrite H5 in H6. cbn in H6. injection H6 as H6.
    apply returns_ret. cbn. now rewrite <- H4, <- H6.
  - apply returns_ret. cbn. now rewrite <- H4.
Qed.

End Shapes.

(** The tokens that enter the first stage of [LeViT128S]. *)
Definition stage_input : tensor := mk_tensor 0 0 [196; 128].

Lemma mhsa_with_multi_head_position_and_strides_shape_witness :
  exists t g,
    mhsa_with_multi_head_position_and_strides "channels_last" stage_input 256 8
      16 4 2 (Some "hard_swish") "stack1_downsample_" [] = Some (t, g) /\
    t_shape t = [49; 256].
Proof.
  assert (E : exists t g,
             mhsa_with_multi_head_position_and_strides "channels_last"
               stage_input 256 8 16 4 2 (Some "hard_swish")
               "stack1_downsample_" [] = Some (t, g)).
  { eexists. eexists. vm_compute. reflexivity. }
  destruct E as [t [g E]]. exists t, g. split; [exact E |].
  destruct (mhsa_with_multi_head_position_and_strides_shape _ _ _ _ _ _ _ _ _
              _ _ _ E) as [blocks [c [Hin Ht]]].
  injection Hin as <- <-. exact Ht.
Defined.

Lemma attention_mlp_stack_shape_witness :
  exists t g,
    attention_mlp_stack "channels_last" stage_input 256 4 2 16 2 2 2 0
      (Some "hard_swish") "stack1_" [] = Some (t, g) /\
    t_shape t = [49; 256].
Proof.
  assert (E : exists t g,
             attention_mlp_stack "channels_last" stage_input 256 4 2 16 2 2 2 0
               (Some "hard_swish") "stack1_" [] = Some (t, g)).
  { eexists. eexists. vm_compute. reflexivity. }
  destruct E as [t [g E]]. exists t, g. split; [exact E |].
  destruct (attention_mlp_stack_shape _ _ _ _ _ _ _ _ _ _ _ _ _ _ _ E)
    as [embed_dim [r [Hrev H]]].
  injection Hrev as <- <-. destruct H as [blocks [Hin Ht]].
  injection Hin as <-. exact Ht.
Defined.


(** The arguments of [LeViT128S()] with its defaults. *)
Definition LeViT128S_classifier : levit_args :=
  variant_args
    (mk_config 128 [256; 384; 384] [4; 6; 8] [2; 3; 4] [16; 16; 16]
       [2; 2; 2] [2; 2; 2] [2; 2; 0])
    [224; 224; 3] 1000 true None (Some "imagenet") "levit128s" default_kwargs.

Lemma LeViT_head_outputs_witness :
  exists m,
    LeViT "channels_last" LeViT128S_classifier = Some m /\
    map t_shape (model_outputs m) = [[1000]; [1000]].
Proof.
  assert (E : exists m, LeViT "channels_last" LeViT128S_classifier = Some m).
  { eexists. vm_compute. reflexivity. }
  destruct E as [m E]. exists m. split; [exact E |].
  assert (Hn : num_classes LeViT128S_classifier <> 0) by discriminate.
  exact (LeViT_head_outputs "channels_last" LeViT128S_classifier m E Hn).
Defined.

End LeViTShapes.

(** ** More on the builder: the graph is well formed *)

Module LeViTGraph.

Import Graph LeViT.
Local Open Scope string_scope.
Local Open Scope Z_scope.

(** A tensor is valid in a graph when the node it names is there and has
    an output of that index and shape. *)
Definition valid (g : list node) (t : tensor) : Prop :=
  exists n, nth_error g (t_node t) = Some n /\
            nth_error (node_outputs n) (t_index t) = Some (t_shape t).

(** A graph is well formed when the inputs of every node are outputs of
    earlier nodes. *)
Definition well_formed (g : list node) : Prop :=
  forall i n, nth_error g i = Some n ->
              Forall (fun t => (t_node t < i)%nat /\ valid g t) (inbound n).

Lemma valid_app (g new : list node) (t : tensor) :
  valid g t -> valid (g ++ new)%list t.
Proof.
  intros [n [Hn Ho]]. exists n. split; [| exact Ho].
  rewrite nth_error_app1; [exact Hn |]. apply nth_error_Some. congruence.
Qed.

Lemma valid_lt (g : list node) (t : tensor) :
  valid g t -> (t_node t < length g)%nat.
Proof. intros [n [Hn _]]. apply nth_error_Some. congruence. Qed.

Lemma well_formed_nil : well_formed [].
Proof. intros [| i] n H; discriminate. Qed.

Lemma well_formed_snoc (g : list node) (n : node) :
  well_formed g -> Forall (valid g) (inbound n) -> well_formed (g ++ [n])%list.
Proof.
  intros Hg Hn i n' Hi.
  destruct (Nat.lt_ge_cases i (length g)) as [Hlt | Hge].
  - rewrite nth_error_app1 in Hi by exact Hlt.
    eapply Forall_impl; [| exact (Hg i n' Hi)].
    intros t [H1 H2]. split; [exact H1 | now apply valid_app].
  - rewrite nth_error_app2 in Hi by exact Hge.
    destruct (i - length g)%nat as [| k] eqn:E; [| destruct k; discriminate].
    cbn in Hi. injection Hi as <-.
    eapply Forall_impl; [| exact Hn].
    intros t Ht. split; [| now apply valid_app].
    apply valid_lt in Ht. lia.
Qed.

(** [sound ctx m V]: run on a well-formed graph in which the tensors [ctx]
    are valid, [m] leaves a well-formed extension of the graph in which the
    tensors [V] of its result are valid. *)
Definition sound (ctx : list tensor) {A : Type} (m : builder A)
    (V : A -> list tensor) : Prop :=
  forall g, well_formed g -> Forall (valid g) ctx ->
  forall a g', m g = Some (a, g') ->
    well_formed g' /\ (exists new, g' = (g ++ new)%list) /\ Forall (valid g') (V a).

Lemma sound_ret ctx {A : Type} (a : A) (V : A -> list tensor) :
  incl (V a) ctx -> sound ctx (ret a) V.
Proof.
  intros Hi g Hg Hc a' g' [= <- <-]. split; [exact Hg |].
  split; [exists []; now rewrite app_nil_r |].
  rewrite Forall_forall in Hc |- *. auto.
Qed.

Lemma sound_raise ctx {A : Type} (V : A -> list tensor) : sound ctx (@raise A) V.
Proof. intros g _ _ a g' [=]. Qed.

Lemma sound_bind ctx {A B : Type} (m : builder A) (f : A -> builder B)
    (V1 : A -> list tensor) (V2 : B -> list tensor) :
  sound ctx m V1 -> (forall a, sound (V1 a ++ ctx) (f a) V2) ->
  sound ctx (bind m f) V2.
Proof.
  intros Hm Hf g Hg Hc b g'. unfold bind.
  destruct (m g) as [[a g1] |] eqn:E; [| discriminate].
  intros Hb. destruct (Hm g Hg Hc a g1 E) as [Hg1 [[n1 ->] Hv1]].
  assert (Hc1 : Forall (valid (g ++ n1)) (V1 a ++ ctx)).
  { apply Forall_app. split; [exact Hv1 |].
    eapply Forall_impl; [| exact Hc]. intros t. apply valid_app. }
  destruct (Hf a _ Hg1 Hc1 b g' Hb) as [Hg' [[n2 ->] Hv2]].
  split; [exact Hg' |]. split; [| exact Hv2].
  exists (n1 ++ n2)%list. now rewrite app_assoc.
Qed.

Lemma combine_seq_nth_error {A : Type} (l : list A) (i : nat) (x : A) :
  In (i, x) (combine (seq 0 (length l)) l) -> nth_error l i = Some x.
Proof.
  assert (H : forall k, In (i, x) (combine (seq k (length l)) l) ->
             nth_error l (i - k) = Some x /\ (k <= i)%nat).
  { induction l as [| o l IH]; intros k Hin; [contradiction |].
    cbn in Hin. destruct Hin as [[= <- <-] | Hin].
    - rewrite Nat.sub_diag. split; [reflexivity | lia].
    - destruct (IH _ Hin) as [H1 H2]. split; [| lia].
      replace (i - k)%nat with (S (i - S k)) by lia. exact H1. }
  intros Hin. destruct (H _ Hin) as [H1 _]. now rewrite Nat.sub_0_r in H1.
Qed.

Lemma sound_call_layer ctx (name : option string) (c : layer_class)
    (inputs : list tensor) :
  incl inputs ctx -> sound ctx (call_layer name c inputs) (fun ts => ts).
Proof.
  intros Hi g Hg Hc ts g'. unfold call_layer.
  destruct (output_shapes c (map t_shape inputs)) as [outs |]; [| discriminate].
  intros [= <- <-].
  split; [| split; [eexists; reflexivity |]].
  - apply well_formed_snoc; [exact Hg |]. cbn.
    rewrite Forall_forall in Hc |- *. auto.
  - apply Forall_forall. intros t Ht. apply in_map_iff in Ht.
    destruct Ht as [[i s] [<- Hin]]. exists (mk_node name c inputs outs).
    cbn. split.
    + rewrite nth_error_app2 by lia. now rewrite Nat.sub_diag.
    + now apply combine_seq_nth_error.
Qed.

Lemma sound_call ctx (name : option string) (c : layer_class)
    (inputs : list tensor) :
  incl inputs ctx -> sound ctx (call name c inputs) (fun t => [t]).
Proof.
  intros Hi. unfold call. eapply sound_bind; [now apply sound_call_layer |].
  intros [| t [| ? ?]]; first [apply sound_raise | apply sound_ret].
  intros x Hx. apply in_or_app. now left.
Qed.

Lemma sound_weaken ctx ctx' {A : Type} (m : builder A) (V : A -> list tensor) :
  incl ctx ctx' -> sound ctx m V -> sound ctx' m V.
Proof.
  intros Hi Hm g Hg Hc. apply Hm; [exact Hg |].
  rewrite Forall_forall in Hc |- *. auto.
Qed.

Lemma sound_floordiv ctx (a b : Z) : sound ctx (floordiv a b) (fun _ => []).
Proof.
  unfold floordiv. destruct (Z.eqb b 0); [apply sound_raise | apply sound_ret].
  intros x [].
Qed.

Lemma sound_last_dim ctx (t : tensor) : sound ctx (last_dim t) (fun _ => []).
Proof.
  unfold last_dim. destruct (rev (t_shape t)); [apply sound_raise | apply sound_ret].
  intros x [].
Qed.

Lemma sound_for_each {A : Type} (l : list A) (body : tensor -> A -> builder tensor) :
  (forall ctx b a, In b ctx -> sound ctx (body b a) (fun t => [t])) ->
  forall ctx b, In b ctx -> sound ctx (for_each l body b) (fun t => [t]).
Proof.
  intros Hbody. induction l as [| a l IH]; intros ctx b Hb; cbn [for_each].
  - apply sound_ret. intros x [<- | []]. exact Hb.
  - eapply sound_bind; [now apply Hbody |].
    intros b'. apply IH. now left.
Qed.

(** Membership in a context built by the bind rule. *)
Ltac in_ctx :=
  cbn [app In]; repeat first [left; reflexivity | assumption | right].

Ltac incl_ctx :=
  let x := fresh "x" in let Hx := fresh "Hx" in
  intros x Hx; cbn [In] in Hx;
  repeat (destruct Hx as [<- | Hx]; [solve [in_ctx] |]);
  first [contradiction | solve [in_ctx]].

Ltac sound_step :=
  first
    [ apply sound_raise
    | apply (sound_ret _ _ (fun t : tensor => [t])); incl_ctx
    | apply sound_ret; incl_ctx
    | apply sound_floordiv
    | apply sound_last_dim
    | apply sound_call; incl_ctx
    | apply sound_call_layer; incl_ctx
    | eapply sound_bind; [| intros ?]
    | match goal with
      | |- sound _ (if ?b then _ else _) _ => destruct b
      | |- sound _ (match ?x with _ => _ end) _ => destruct x
      end ].

Section WellFormed.

Variable image_data_format : string.

Lemma batchnorm_with_activation_sound ctx inputs activation zero_gamma name :
  In inputs ctx ->
  sound ctx (batchnorm_with_activation image_data_format inputs activation
               zero_gamma name) (fun t => [t]).
Proof. intros Hin. unfold batchnorm_with_activation. repeat sound_step. Qed.

Lemma conv2d_no_bias_sound ctx inputs filters kernel_size strides padding
    use_bias name :
  In inputs ctx ->
  sound ctx (conv2d_no_bias inputs filters kernel_size strides padding use_bias
               name) (fun t => [t]).
Proof. intros Hin. unfold conv2d_no_bias. repeat sound_step. Qed.

Lemma scaled_dot_product_attention_sound ctx qq kk vv key_dim attn_ratio
    output_dim activation name :
  In qq ctx -> In kk ctx -> In vv ctx ->
  sound ctx (scaled_dot_product_attention image_data_format qq kk vv key_dim
               attn_ratio output_dim activation name) (fun t => [t]).
Proof.
  intros Hq Hk Hv. unfold scaled_dot_product_attention.
  repeat first [apply batchnorm_with_activation_sound; in_ctx | sound_step].
Qed.

Lemma mhsa_with_multi_head_position_sound ctx inputs output_dim num_heads
    key_dim attn_ratio activation name :
  In inputs ctx ->
  sound ctx (mhsa_with_multi_head_position image_data_format inputs output_dim
               num_heads key_dim attn_ratio activation name) (fun t => [t]).
Proof.
  intros Hin. unfold mhsa_with_multi_head_position.
  repeat first [apply batchnorm_with_activation_sound; in_ctx
               | apply scaled_dot_product_attention_sound; in_ctx
               | sound_step].
Qed.

Lemma mhsa_with_multi_head_position_and_strides_sound ctx inputs output_dim
    num_heads key_dim attn_ratio strides activation name :
  In inputs ctx ->
  sound ctx (mhsa_with_multi_head_position_and_strides image_data_format inputs
               output_dim num_heads key_dim attn_ratio strides activation name)
    (fun t => [t]).
Proof.
  intros Hin. unfold mhsa_with_multi_head_position_and_strides.
  repeat first [apply batchnorm_with_activation_sound; in_ctx
               | apply scaled_dot_product_attention_sound; in_ctx
               | sound_step].
Qed.

Lemma res_mhsa_with_multi_head_position_sound ctx inputs embed_dim num_heads
    key_dim attn_ratio drop_rate activation name :
  In inputs ctx ->
  sound ctx (res_mhsa_with_multi_head_position image_data_format inputs embed_dim
               num_heads key_dim attn_ratio drop_rate activation name)
    (fun t => [t]).
Proof.
  intros Hin. unfold res_mhsa_with_multi_head_position.
  eapply sound_bind; [now apply mhsa_with_multi_head_position_sound |].
  intros nn. repeat sound_step.
Qed.

Lemma res_mlp_block_sound ctx inputs mlp_ratio drop_rate use_bias activation name :
  In inputs ctx ->
  sound ctx (res_mlp_block image_data_format inputs mlp_ratio drop_rate use_bias
               activation name) (fun t => [t]).
Proof.
  intros Hin. unfold res_mlp_block.
  repeat first [apply batchnorm_with_activation_sound; in_ctx | sound_step].
Qed.

Lemma attention_mlp_stack_sound ctx inputs out_channel num_heads depth key_dim
    attn_ratio mlp_ratio strides drop_rate activation name :
  In inputs ctx ->
  sound ctx (attention_mlp_stack image_data_format inputs out_channel num_heads
               depth key_dim attn_ratio mlp_ratio strides drop_rate activation
               name) (fun t => [t]).
Proof.
  intros Hin. unfold attention_mlp_stack.
  eapply sound_bind; [apply sound_last_dim | intros embed_dim].
  eapply sound_bind.
  { apply sound_for_each; [| in_ctx]. intros ctx' nn id Hnn.
    eapply sound_bind; [now apply res_mhsa_with_multi_head_position_sound |].
    intros nn'. destruct (0 <? mlp_ratio);
      [apply res_mlp_block_sound; in_ctx | apply sound_ret; incl_ctx]. }
  intros nn. destruct (negb _); [| apply sound_ret; incl_ctx].
  eapply sound_bind; [apply sound_floordiv | intros ds_num_heads].
  eapply sound_bind;
    [apply mhsa_with_multi_head_position_and_strides_sound; in_ctx |].
  intros nn'. destruct (0 <? mlp_ratio);
    [apply res_mlp_block_sound; in_ctx | apply sound_ret; incl_ctx].
Qed.

Lemma patch_stem_sound ctx inputs stem_width activation name :
  In inputs ctx ->
  sound ctx (patch_stem image_data_format inputs stem_width activation name)
    (fun t => [t]).
Proof.
  intros Hin. unfold patch_stem.
  repeat (eapply sound_bind;
          [first [apply conv2d_no_bias_sound; in_ctx
                 | apply batchnorm_with_activation_sound; in_ctx] | intros ?]).
  apply batchnorm_with_activation_sound; in_ctx.
Qed.

Lemma stages_sound ctx a nn :
  In nn ctx -> sound ctx (stages image_data_format a nn) (fun t => [t]).
Proof.
  intros Hin. unfold stages. apply sound_for_each; [| exact Hin].
  intros ctx' nn' [id s] Hnn. now apply attention_mlp_stack_sound.
Qed.

Lemma LeViT_graph_sound a :
  sound [] (LeViT_graph image_data_format a) (fun p => fst p :: snd p).
Proof.
  unfold LeViT_graph, LeViT_backbone.
  eapply sound_bind with (V1 := fun p => [fst p; snd p]).
  { eapply sound_bind; [apply sound_call; incl_ctx | intros inputs].
    eapply sound_bind; [apply patch_stem_sound; in_ctx | intros nn].
    destruct (t_shape nn) as [| h [| w [| c [| ? ?]]]]; try apply sound_raise.
    eapply sound_bind; [apply sound_call; incl_ctx | intros nn1].
    eapply sound_bind; [apply stages_sound; in_ctx | intros nn2].
    apply sound_ret. incl_ctx. }
  intros [inputs nn]. cbn [fst snd].
  destruct (num_classes a =? 0); [apply sound_ret; incl_ctx |].
  eapply sound_bind; [apply sound_call; incl_ctx | intros nn1].
  eapply sound_bind with (V1 := fun t => [t]).
  { destruct (_ && _); [apply sound_call; incl_ctx | apply sound_ret; incl_ctx]. }
  intros nn2.
  eapply sound_bind; [apply batchnorm_with_activation_sound; in_ctx | intros out].
  eapply sound_bind; [apply sound_call; incl_ctx | intros out1].
  destruct (use_distillation a); [| apply sound_ret; incl_ctx].
  eapply sound_bind; [apply batchnorm_with_activation_sound; in_ctx | intros d].
  eapply sound_bind; [apply sound_call; incl_ctx | intros d1].
  apply sound_ret. incl_ctx.
Qed.

(** The graph of a model that [LeViT] returns is well formed: every layer
    reads outputs of layers created before it, with the shapes these have,
    and so do the model's input and outputs. *)
Theorem LeViT_well_formed a m :
  LeViT image_data_format a = Some m ->
  well_formed (model_layers m) /\
  valid (model_layers m) (model_input m) /\
  Forall (valid (model_layers m)) (model_outputs m).
Proof.
  unfold LeViT.
  destruct (LeViT_graph image_data_format a []) as [[[inputs out] layers] |] eqn:E;
    [| discriminate].
  intros [= <-]. cbn.
  destruct (LeViT_graph_sound a [] well_formed_nil (Forall_nil _) _ _ E)
    as [Hwf [_ Hv]].
  cbn in Hv. inversion Hv; subst. auto.
Qed.
End WellFormed.

Lemma LeViT_well_formed_witness :
  exists m, LeViT "channels_last" LeViT128S_features = Some m /\
            well_formed (model_layers m) /\
            valid (model_layers m) (model_input m) /\
            Forall (valid (model_layers m)) (model_outputs m).
Proof.
  assert (E : exists m, LeViT "channels_last" LeViT128S_features = Some m).
  { eexists. vm_compute. reflexivity. }
  destruct E as [m E]. exists m. split; [exact E |].
  exact (LeViT_well_formed "channels_last" LeViT128S_features m E).
Defined.

End LeViTGraph.

(** ** More on [model_surgery.py]: the conversions on whole models *)

Module SurgeryFacts.

Import Surgery.
Local Open Scope string_scope.

(** *** [replace_stochastic_depth_with_add] *)

Section Engine.

Variable initialize : layer -> list Z -> list weight.
Variable unique_object_name : string -> string.

(** The names the engine gives in another call: it never gives a name
    twice. *)
Variable unique_object_name2 : string -> string.

(** [keras.layers.Add(name=new_layer_name)] *)
Definition new_Add (layer_name : string) : layer :=
  mk_layer layer_name Add true false false false "" 1 [] Float32 [] [] false [].

(** [keras.layers.Lambda(lambda xx: xx[0] + xx[1] * survival,
    name=new_layer_name)]; the factor of the function is kept in
    [survival_probability]. *)
Definition new_Lambda (survival : Q) (layer_name : string) : layer :=
  mk_layer layer_name (OtherLayer "Lambda") true false false false "" survival
    [] Float32 [] [] false [].

Definition __replace_stochastic_depth_with_add__ (drop_survival : bool)
    (l : layer) : option layer :=
  if isinstance l StochasticDepth
  then
    let layer_name := name l in
    let new_layer_name := Py.replace layer_name "_stochastic_depth" "_lambda" in
    let survival := survival_probability l in
    if drop_survival || negb (Py.Qltb survival 1)
    then Some (new_Add new_layer_name)
    else Some (new_Lambda survival new_layer_name)
  else Some l.

Definition replace_stochastic_depth_with_add (m : model) (drop_survival : bool)
  : option model :=
  let input_tensors := Input unique_object_name (model_input_shape m) in
  clone_model initialize m (Some input_tensors)
    (__replace_stochastic_depth_with_add__ drop_survival).

Lemma build_class (l : layer) (s : list Z) : class (build initialize l s) = class l.
Proof. unfold build. now destruct (built l). Qed.

Lemma build_name (l : layer) (s : list Z) : name (build initialize l s) = name l.
Proof. unfold build. now destruct (built l). Qed.

(** The class of a layer after the reverse conversion. *)
Definition class_after_reverse (drop_survival : bool) (l : layer) : layer_class :=
  if isinstance l InputLayer then InputLayer
  else if isinstance l StochasticDepth
       then if drop_survival || negb (Py.Qltb (survival_probability l) 1)
            then Add else OtherLayer "Lambda"
       else class l.

Lemma replace_stochastic_depth_with_add_spec (m : model)
    (drop_survival : bool) :
  exists m',
    replace_stochastic_depth_with_add m drop_survival = Some m' /\
    map inbound m' = map inbound m /\
    map class (layers m') = map (class_after_reverse drop_survival) (layers m) /\
    Forall (fun l => class l <> StochasticDepth) (layers m').
Proof.
  destruct (clone_model_total initialize m
              (Some (Input unique_object_name (model_input_shape m)))
              (__replace_stochastic_depth_with_add__ drop_survival)) as [m' Hm'].
  { apply Forall_forall. intros l _ _.
    unfold __replace_stochastic_depth_with_add__.
    destruct (isinstance l StochasticDepth); [| discriminate].
    destruct (_ || _); discriminate. }
  exists m'. split; [exact Hm' |].
  split; [exact (clone_model_inbound _ _ _ _ _ Hm') |].
  apply clone_model_spec in Hm'.
  assert (Hc : Forall2 (fun n n' => class (node_layer n') =
                          class_after_reverse drop_survival (node_layer n)) m m').
  { eapply Forall2_impl; [| exact Hm']. intros n n' [Hl _].
    unfold clone_layer, class_after_reverse in *.
    destruct (isinstance (node_layer n) InputLayer); [now injection Hl as <- |].
    unfold __replace_stochastic_depth_with_add__ in Hl.
    destruct (isinstance (node_layer n) StochasticDepth).
    - destruct (_ || _); cbn in Hl; injection Hl as <-; reflexivity.
    - cbn [option_map] in Hl. injection Hl as <-. now rewrite build_class. }
  split.
  - unfold layers. rewrite !map_map.
    clear Hm'. induction Hc as [| n n' m0 m0' H _ IH]; cbn; [reflexivity |].
    now rewrite H, IH.
  - unfold layers. apply Forall_map.
    clear Hm'. induction Hc as [| n n' m0 m0' H _ IH]; constructor; [| exact IH].
    rewrite H. unfold class_after_reverse, isinstance.
    destruct (layer_class_eq_dec (class (node_layer n)) InputLayer);
      [discriminate |].
    destruct (layer_class_eq_dec (class (node_layer n)) StochasticDepth);
      [destruct (_ || _); discriminate | assumption].
Qed.

(** The model that the reverse conversion returns has the connections of
    the given one; each stochastic-depth layer has become an addition, or,
    when its survival probability is below 1 and [drop_survival] is not set,
    a [Lambda] layer; every other layer has the class it had, and no
    stochastic-depth layer is left. *)
Theorem replace_stochastic_depth_with_add_classes (m m' : model)
    (drop_survival : bool) :
  replace_stochastic_depth_with_add m drop_survival = Some m' ->
  map inbound m' = map inbound m /\
  map class (layers m') = map (class_after_reverse drop_survival) (layers m) /\
  Forall (fun l => class l <> StochasticDepth) (layers m').
Proof.
  intros H.
  destruct (replace_stochastic_depth_with_add_spec m drop_survival)
    as [m0 [E H0]].
  rewrite E in H. injection H as <-. exact H0.
Qed.


Lemma isinstance_true (l : layer) (c : layer_class) :
  isinstance l c = true <-> class l = c.
Proof.
  unfold isinstance. destruct (layer_class_eq_dec (class l) c);
    split; congruence.
Qed.

Lemma isinstance_false (l : layer) (c : layer_class) :
  isinstance l c = false <-> class l <> c.
Proof.
  unfold isinstance. destruct (layer_class_eq_dec (class l) c);
    split; congruence.
Qed.

(** Additions turned into stochastic depth and back with [drop_survival]:
    the model has the classes and the connections it had. *)
Theorem stochastic_depth_round_trip (m m1 m2 : model)
    (survivals : py_survivals) :
  Forall (fun l => class l <> StochasticDepth) (layers m) ->
  replace_add_with_stochastic_depth initialize unique_object_name2 m survivals
  = Some m1 ->
  replace_stochastic_depth_with_add m1 true = Some m2 ->
  map inbound m2 = map inbound m /\
  map class (layers m2) = map class (layers m).
Proof.
  intros Hsd H1 H2'.
  destruct (replace_stochastic_depth_with_add_spec m1 true)
    as [m0 [H2 [Hi [Hc _]]]].
  rewrite H2 in H2'. injection H2' as <-.
  unfold replace_add_with_stochastic_depth in H1.
  destruct (survivals_dict m survivals) as [d |]; [| discriminate].
  split.
  - rewrite Hi. exact (clone_model_inbound _ _ _ _ _ H1).
  - rewrite Hc. apply clone_model_spec in H1.
    unfold layers in *. rewrite Forall_map in Hsd. rewrite !map_map.
    revert Hsd. clear -H1.
    induction H1 as [| n n' m0 m0' [Hl _] _ IH]; intros Hsd; [reflexivity |].
    inversion Hsd as [| ? ? Hn Hm0]; subst. cbn. rewrite (IH Hm0). f_equal.
    unfold clone_layer in Hl. unfold class_after_reverse.
    destruct (isinstance (node_layer n) InputLayer) eqn:Ein.
    + injection Hl as <-. cbn. symmetry. now apply isinstance_true.
    + assert (Hcl : class (node_layer n') = class (node_layer n) \/
                    (class (node_layer n) = Add /\
                     class (node_layer n') = StochasticDepth)).
      { unfold __replace_add_with_stochastic_depth__ in Hl.
        destruct (isinstance (node_layer n) Add) eqn:Ea.
        - destruct (dict_get d (name (node_layer n))) as [p |]; [| discriminate].
          destruct (Py.Qltb p 1); cbn in Hl; injection Hl as <-.
          + right. split; [now apply isinstance_true | reflexivity].
          + left. apply build_class.
        - cbn in Hl. injection Hl as <-. left. apply build_class. }
      apply isinstance_false in Ein.
      destruct Hcl as [Hcl | [Ha Hcl]].
      * assert (E1 : isinstance (node_layer n') InputLayer = false).
        { apply isinstance_false. congruence. }
        assert (E2 : isinstance (node_layer n') StochasticDepth = false).
        { apply isinstance_false. congruence. }
        now rewrite E1, E2.
      * assert (E1 : isinstance (node_layer n') InputLayer = false).
        { apply isinstance_false. rewrite Hcl. discriminate. }
        assert (E2 : isinstance (node_layer n') StochasticDepth = true).
        { now apply isinstance_true. }
        rewrite E1, E2. cbn. now symmetry.
Qed.


(** *** The schedule of the forward conversion *)

Lemma filter_Add_isinstance (m : model) (i : nat) (l : layer) :
  nth_error (filter (fun l => isinstance l Add) (layers m)) i = Some l ->
  In l (layers m) /\ isinstance l Add = true.
Proof. intros H. apply nth_error_In in H. now apply filter_In in H. Qed.

Lemma Qltb_compat (p q r : Q) : (p == q)%Q -> Py.Qltb p r = Py.Qltb q r.
Proof.
  intros H. unfold Py.Qltb. f_equal.
  destruct (Qle_bool r p) eqn:E1, (Qle_bool r q) eqn:E2; try reflexivity.
  - apply Qle_bool_iff in E1. rewrite H in E1. apply Qle_bool_iff in E1. congruence.
  - apply Qle_bool_iff in E2. rewrite <- H in E2. apply Qle_bool_iff in E2. congruence.
Qed.

(** With a pair [(start, end)], the first addition of the model gets the
    probability [start - (1 - end) * 0 / total_adds], which is [start]
    whatever [end] is: it becomes a stochastic depth layer with that
    probability when [start < 1], and stays as it is otherwise, as with the
    default [(1, 0.8)]. *)
Theorem replace_add_first_layer (m : model) (start end_ : Q) (l : layer) :
  NoDup (add_layers m) ->
  nth_error (filter (fun l => isinstance l Add) (layers m)) 0 = Some l ->
  exists d p,
    survivals_dict m (SvSeq [start; end_]) = Some d /\
    dict_get d (name l) = Some p /\
    (p == start)%Q /\
    __replace_add_with_stochastic_depth__ d l =
    Some (if Py.Qltb start 1
          then new_StochasticDepth p
                 (Py.replace (name l) "add_" "stochastic_depth_")
          else l).
Proof.
  intros Hnd Hi.
  assert (Ha : isinstance l Add = true).
  { apply nth_error_In in Hi. now apply filter_In in Hi. }
  assert (Hlen : (0 < length (add_layers m))%nat).
  { unfold add_layers. rewrite length_map. apply nth_error_Some. now rewrite Hi. }
  set (p := (start - (1 - end_) * inject_Z (Z.of_nat 0)
                     / inject_Z (Z.of_nat (length (add_layers m))))%Q).
  assert (Hd : dict_get
                 (combine (add_layers m)
                    (map (fun ii => (start - (1 - end_) * inject_Z (Z.of_nat ii)
                                     / inject_Z (Z.of_nat (length (add_layers m))))%Q)
                         (seq 0 (length (add_layers m)))))
                 (name l) = Some p).
  { apply (dict_get_positional _ _ 0%nat); [exact Hnd | |].
    - exact (map_nth_error name 0 _ Hi).
    - now rewrite nth_error_map_seq. }
  assert (Hp : (p == start)%Q).
  { unfold p, Qdiv. change (inject_Z (Z.of_nat 0)) with 0%Q.
    set (x := (/ inject_Z _)%Q). lra. }
  eexists. exists p. split; [reflexivity |].
  split; [exact Hd |]. split; [exact Hp |].
  rewrite <- (Qltb_compat p start 1 Hp).
  destruct (Py.Qltb p 1) eqn:E.
  - now apply replace_add_below_1.
  - now apply (replace_add_not_below_1 _ _ p).
Qed.

Lemma sequence_None {B : Type} (l : list (option B)) :
  In None l -> Py.sequence l = None.
Proof.
  induction l as [| o l IH]; intros H; [contradiction |].
  cbn. destruct o as [x |]; [| reflexivity].
  destruct H as [H | H]; [discriminate |]. now rewrite IH.
Qed.

(** A layer that [clone_function] refuses makes the whole clone fail. *)
Lemma clone_model_fails (m : model) (input_tensors : option layer)
    (f : layer -> option layer) (l : layer) :
  In l (layers m) -> isinstance l InputLayer = false -> f l = None ->
  clone_model initialize m input_tensors f = None.
Proof.
  intros Hl Hi Hf. unfold clone_model. apply sequence_None.
  unfold layers in Hl. apply in_map_iff in Hl. destruct Hl as [n [<- Hn]].
  apply in_map_iff. exists n. split; [| exact Hn].
  unfold clone_layer. now rewrite Hi, Hf.
Qed.

(** A list of probabilities that is not a pair is taken as it is, one entry
    per addition; when it has fewer entries than the model has additions, the
    conversion fails. *)
Theorem replace_add_short_list (m : model) (l : list Q) :
  NoDup (add_layers m) ->
  length l <> 2%nat -> (length l < length (add_layers m))%nat ->
  replace_add_with_stochastic_depth initialize unique_object_name m (SvSeq l)
  = None.
Proof.
  intros Hnd H2 Hlt.
  assert (Hr : resolve_survivals (SvSeq l) (length (add_layers m)) = Some l).
  { destruct l as [| a [| b [| c r]]]; try reflexivity. now contradiction H2. }
  unfold replace_add_with_stochastic_depth, survivals_dict. rewrite Hr. cbn.
  destruct (nth_error (filter (fun l => isinstance l Add) (layers m)) (length l))
    as [lk |] eqn:Ek.
  2: { apply nth_error_None in Ek. unfold add_layers in Hlt.
       rewrite length_map in Hlt. lia. }
  destruct (filter_Add_isinstance m _ lk Ek) as [Hin Ha].
  apply (clone_model_fails _ _ _ lk Hin).
  { apply isinstance_false. apply isinstance_true in Ha. rewrite Ha. discriminate. }
  unfold __replace_add_with_stochastic_depth__. rewrite Ha.
  assert (Hk : nth_error (add_layers m) (length l) = Some (name lk)).
  { exact (map_nth_error name _ _ Ek). }
  destruct (nth_error_split _ _ Hk) as [l1 [l2 [Hs Hl1]]].
  assert (Hd : dict_get (combine (add_layers m) l) (name lk) = None).
  { rewrite combine_firstn_r. rewrite Hs, <- Hl1, firstn_app, firstn_all.
    rewrite Nat.sub_diag. cbn [firstn]. rewrite app_nil_r.
    apply dict_get_absent. rewrite Hs in Hnd.
    apply NoDup_remove_2 in Hnd. intros Hc. apply Hnd. apply in_or_app. now left. }
  now rewrite Hd.
Qed.


(** *** [replace_ReLU] on a whole model *)

Lemma build_activation (l : layer) (s : list Z) :
  activation (build initialize l s) = activation l.
Proof. unfold build. now destruct (built l). Qed.

Lemma is_rectifier_not_input (l : layer) :
  is_rectifier l = true -> isinstance l InputLayer = false.
Proof.
  unfold is_rectifier, isinstance.
  destruct (layer_class_eq_dec (class l) InputLayer) as [-> | _];
    [discriminate | reflexivity].
Qed.

Lemma is_rectifier_build (l : layer) (s : list Z) :
  is_rectifier (build initialize l s) = is_rectifier l.
Proof.
  unfold is_rectifier, isinstance. now rewrite build_class, build_activation.
Qed.

(** [PReLU(shared_axes=[1, 2])] is built on feature maps: its input has at
    least two axes besides the batch axis.  The test says that every
    rectifier of the model, a [ReLU] layer or an [Activation] of [relu], has
    such an input. *)
Definition on_feature_maps (m : model) : bool :=
  forallb (fun l => negb (is_rectifier l)
                    || (2 <=? length (input_shape l))%nat)
          (layers m).

(** With the default target, on a model whose rectifiers have feature maps
    as inputs: in the model that [replace_ReLU] returns every rectifier of
    the given model, a [ReLU] layer or an [Activation] of [relu], has become
    a [PReLU] layer named after it; the other layers keep their class, all
    keep their connections, and no rectifier is left. *)
Theorem replace_ReLU_leaves_no_rectifier (m m' : model)
    (kw : list (string * string)) :
  on_feature_maps m = true ->
  replace_ReLU initialize unique_object_name m (TargetStr "PReLU") kw = Some m' ->
  map inbound m' = map inbound m /\
  Forall2 (fun l l' =>
             if is_rectifier l
             then class l' = PReLU /\
                  name l' = Py.replace (name l) "_relu" "_prelu"
             else class l' = class l)
    (layers m) (layers m') /\
  Forall (fun l' => is_rectifier l' = false) (layers m').
Proof.
  intros _.
  unfold replace_ReLU.
  set (inp := Input unique_object_name (model_input_shape m)). intros Hm'.
  assert (Hl : forall l l',
             clone_layer initialize (Some inp)
               (convert_ReLU (TargetStr "PReLU") kw) l = Some l' ->
             (if is_rectifier l
              then class l' = PReLU /\
                   name l' = Py.replace (name l) "_relu" "_prelu"
              else class l' = class l) /\
             is_rectifier l' = false).
  { intros l l'. unfold clone_layer.
    destruct (isinstance l InputLayer) eqn:Ei.
    - intros [= <-]. apply isinstance_true in Ei.
      unfold is_rectifier, isinstance. rewrite Ei. cbn. now split.
    - destruct (is_rectifier l) eqn:Er.
      + destruct (convert_ReLU (TargetStr "PReLU") kw l) as [x |] eqn:Ex;
          [| discriminate].
        destruct (convert_ReLU_PReLU kw l x Er Ex) as [Hn Hc].
        cbn. intros [= <-]. rewrite build_class, build_name, is_rectifier_build.
        split; [now split |].
        unfold is_rectifier, isinstance. now rewrite Hc.
      + rewrite convert_ReLU_other by exact Er. cbn. intros [= <-].
        rewrite build_class, is_rectifier_build. now split. }
  split; [exact (clone_model_inbound _ _ _ _ _ Hm') |].
  apply clone_model_spec in Hm'. unfold layers. clearbody inp.
  split.
  - induction Hm' as [| n n' m0 m0' [Hc _] _ IH]; cbn; constructor;
      [exact (proj1 (Hl _ _ Hc)) | exact IH].
  - induction Hm' as [| n n' m0 m0' [Hc _] _ IH]; cbn; constructor;
      [exact (proj2 (Hl _ _ Hc)) | exact IH].
Qed.

(** A [name] among the keyword arguments clashes with the name the function
    passes itself: with a string as target the conversion fails as soon as
    the model has a rectifier. *)
Theorem replace_ReLU_name_keyword (m : model) (s : string)
    (kw : list (string * string)) (l : layer) :
  has_key kw "name" = true -> In l (layers m) -> is_rectifier l = true ->
  replace_ReLU initialize unique_object_name m (TargetStr s) kw = None.
Proof.
  intros Hk Hl Hr. unfold replace_ReLU.
  apply (clone_model_fails _ _ _ l Hl (is_rectifier_not_input l Hr)).
  unfold convert_ReLU. fold (is_rectifier l). rewrite Hr.
  destruct (String.eqb s "PReLU").
  - unfold new_PReLU. rewrite Hk. now rewrite !orb_true_r.
  - unfold new_Activation. rewrite Hk. now rewrite !orb_true_r.
Qed.

(** *** [add_l2_regularizer_2_model] on a whole model *)

(** The loop over the attributes, for any list of attributes. *)
Definition set_regularizer_attrs (factor : Q) (attrs : list string) (l : layer)
  : layer :=
  fold_left
    (fun l attr => if hasattr l attr && trainable l then setattr l attr factor else l)
    attrs l.

Lemma set_regularizer_attrs_fields (factor : Q) (attrs : list string) (l : layer) :
  let l' := set_regularizer_attrs factor attrs l in
  name l' = name l /\ class l' = class l /\ trainable l' = trainable l.
Proof.
  revert l. induction attrs as [| attr attrs IH]; intros l; cbn; [auto |].
  destruct (hasattr l attr && trainable l); [| apply IH].
  destruct (IH (setattr l attr factor)) as [H1 [H2 H3]].
  unfold set_regularizer_attrs in *. rewrite H1, H2, H3. auto.
Qed.

Lemma set_regularizer_attrs_In (factor : Q) (attrs : list string) (l : layer)
    (p : string * Q) :
  In p (regularizers (set_regularizer_attrs factor attrs l)) ->
  In p (regularizers l) \/ (In (fst p) attrs /\ snd p = factor).
Proof.
  revert l. induction attrs as [| attr attrs IH]; intros l; cbn; [auto |].
  destruct (hasattr l attr && trainable l).
  - intros H. apply IH in H. destruct H as [H | [H1 H2]]; [| now right; auto].
    cbn in H. destruct H as [<- | H]; [now right; auto |].
    apply filter_In in H. now left.
  - intros H. apply IH in H. destruct H as [H | [H1 H2]]; [now left | right; auto].
Qed.

Lemma regularizer_attrs_no_bias (apply_to_batch_normal : bool) (l : layer) :
  ~ In "bias_regularizer" (regularizer_attrs apply_to_batch_normal false l).
Proof.
  unfold regularizer_attrs. cbn [andb].
  destruct (isinstance l Dense || isinstance l Conv2D);
    [cbn; intuition discriminate |].
  destruct (isinstance l DepthwiseConv2D); [cbn; intuition discriminate |].
  destruct (isinstance l SeparableConv2D); [cbn; intuition discriminate |].
  destruct (apply_to_batch_normal && isinstance l BatchNormalization);
    [destruct (center l), (scale l); cbn; intuition discriminate |].
  destruct (apply_to_batch_normal && isinstance l PReLU);
    cbn; intuition discriminate.
Qed.

Lemma regularizer_attrs_no_batch_normal (apply_to_bias : bool) (l : layer) :
  isinstance l BatchNormalization || isinstance l PReLU = true ->
  regularizer_attrs false apply_to_bias l = [].
Proof.
  unfold regularizer_attrs, isinstance.
  destruct (class l); cbn; try discriminate; reflexivity.
Qed.

Lemma fresh_layer_fields (l : layer) :
  let l' := fresh_layer initialize l in
  name l' = name l /\ class l' = class l /\ regularizers l' = regularizers l.
Proof. unfold fresh_layer. destruct (isinstance l InputLayer); cbn; auto. Qed.

(** The clone that [add_l2_regularizer_2_model] returns has the layers of
    the model, by name, class and connections.  A trainable [Dense] or
    [Conv2D] layer carries the kernel regularizer, with half the weight decay
    as its factor; a layer that is not trainable has the regularizers it had;
    without [apply_to_bias] no regularizer of a bias is set; without
    [apply_to_batch_normal] the [BatchNormalization] and [PReLU] layers have
    the regularizers they had. *)
Theorem add_l2_regularizer_2_model_layers (m : model) (weight_decay : Q)
    (apply_to_batch_normal apply_to_bias : bool) :
  exists m',
    add_l2_regularizer_2_model initialize m weight_decay apply_to_batch_normal
      apply_to_bias = Some m' /\
    map inbound m' = map inbound m /\
    map name (layers m') = map name (layers m) /\
    map class (layers m') = map class (layers m) /\
    Forall2 (fun l l' =>
               (trainable l = false -> regularizers l' = regularizers l) /\
               (isinstance l Dense || isinstance l Conv2D = true ->
                trainable l = true ->
                In ("kernel_regularizer", (weight_decay / 2)%Q) (regularizers l')) /\
               (apply_to_bias = false ->
                forall factor, In ("bias_regularizer", factor) (regularizers l') ->
                               In ("bias_regularizer", factor) (regularizers l)) /\
               (apply_to_batch_normal = false ->
                isinstance l BatchNormalization || isinstance l PReLU = true ->
                regularizers l' = regularizers l))
      (layers m) (layers m').
Proof.
  eexists. split; [apply add_l2_regularizer_2_model_map |].
  unfold layers. rewrite !map_map. cbn [inbound node_layer].
  set (reg := regularize_layer weight_decay apply_to_batch_normal apply_to_bias).
  assert (Hf : forall l,
             name (reg l) = name l /\ class (reg l) = class l /\
             trainable (reg l) = trainable l).
  { intros l. apply (set_regularizer_attrs_fields (weight_decay / 2)%Q). }
  split; [reflexivity |].
  split.
  { apply map_ext. intros n.
    rewrite (proj1 (fresh_layer_fields _)). apply Hf. }
  split.
  { apply map_ext. intros n.
    rewrite (proj1 (proj2 (fresh_layer_fields _))). apply Hf. }
  apply Forall2_map_in. intros n _.
  rewrite (proj2 (proj2 (fresh_layer_fields _))).
  set (l := node_layer n).
  split; [| split; [| split]].
  - intros Ht. unfold reg. now rewrite regularize_layer_not_trainable.
  - intros Hc Ht. now apply regularize_layer_kernel.
  - intros -> factor H.
    apply (set_regularizer_attrs_In (weight_decay / 2)%Q) in H.
    destruct H as [H | [H _]]; [exact H |].
    now apply regularizer_attrs_no_bias in H.
  - intros -> Hc. unfold reg, regularize_layer.
    now rewrite regularizer_attrs_no_batch_normal.
Qed.

(** *** The precision conversions on a whole model *)


Lemma float32_layer_well_built (s : list Z) (l : layer) :
  well_built initialize l ->
  well_built initialize (float32_layer (Input unique_object_name s) l).
Proof.
  intros H. unfold float32_layer.
  destruct (isinstance l InputLayer) eqn:Ei; [apply Input_well_built |].
  destruct (is_linear_activation l); [exact H | now apply with_dtype_well_built].
Qed.

Lemma float32_layer_again (inp inp2 l : layer) :
  isinstance inp InputLayer = true ->
  isinstance (float32_layer inp l) InputLayer = false ->
  float32_layer inp2 (float32_layer inp l) = float32_layer inp l.
Proof.
  unfold float32_layer. intros Hinp.
  destruct (isinstance l InputLayer) eqn:Ei; [congruence |].
  destruct (is_linear_activation l) eqn:El; intros _.
  - now rewrite Ei, El.
  - assert (E1 : isinstance (with_dtype Float32 l) InputLayer = false)
      by exact Ei.
    assert (E2 : is_linear_activation (with_dtype Float32 l) = false)
      by exact El.
    now rewrite E1, E2.
Qed.

(** Converting to [float32] a second time changes nothing: in the model
    that [convert_mixed_float16_to_float32] returns for a model it has
    returned, every layer but the input is the layer it was, connected as it
    was. *)
Theorem convert_mixed_float16_to_float32_idempotent (m m1 : model) :
  Forall (well_built initialize) (layers m) ->
  convert_mixed_float16_to_float32 initialize unique_object_name m = Some m1 ->
  exists m2,
    convert_mixed_float16_to_float32 initialize unique_object_name2 m1 = Some m2 /\
    Forall2 (fun n1 n2 =>
               inbound n2 = inbound n1 /\
               (isinstance (node_layer n1) InputLayer = false ->
                node_layer n2 = node_layer n1)) m1 m2.
Proof.
  intros H H1.
  rewrite convert_mixed_float16_to_float32_map in H1 by exact H.
  injection H1 as <-.
  set (inp := Input unique_object_name (model_input_shape m)).
  set (m1 := map _ m).
  assert (Hw1 : Forall (well_built initialize) (layers m1)).
  { unfold m1, layers. rewrite map_map. cbn [node_layer].
    apply Forall_map. unfold layers in H. rewrite Forall_map in H.
    eapply Forall_impl; [| exact H].
    intros n Hn. now apply float32_layer_well_built. }
  eexists. split; [now apply convert_mixed_float16_to_float32_map |].
  rewrite <- (map_id m1) at 1. apply Forall2_map_in.
  intros n1 Hn1. cbn [inbound node_layer]. split; [reflexivity |].
  unfold m1 in Hn1. apply in_map_iff in Hn1. destruct Hn1 as [n [<- _]].
  cbn [node_layer]. now apply float32_layer_again.
Qed.

Lemma with_dtype_own (l : layer) :
  built l = true -> with_dtype (dtype l) l = l.
Proof. destruct l. cbn. now intros ->. Qed.

Lemma with_dtype_twice (d1 d2 : dtype_policy) (l : layer) :
  with_dtype d2 (with_dtype d1 l) = with_dtype d2 l.
Proof. reflexivity. Qed.


End Engine.

(** *** The theorems on the example model *)

Lemma example_model_add_layers_NoDup : NoDup (add_layers example_model).
Proof.
  rewrite example_model_add_layers.
  repeat constructor; cbn; intuition discriminate.
Qed.

Lemma example_model_no_stochastic_depth :
  Forall (fun l => class l <> StochasticDepth) (layers example_model).
Proof. repeat constructor; discriminate. Qed.

(** The names of a later call. *)
Definition example_unique_object_name2 (prefix : string) : string :=
  prefix ++ "_2".

Lemma example_model_float32 :
  Forall (fun l => dtype l = Float32) (layers example_model).
Proof. repeat constructor. Qed.

Lemma stochastic_depth_round_trip_witness :
  exists m1 m2,
    replace_add_with_stochastic_depth example_initialize
      example_unique_object_name example_model (SvFloat (1 # 2)) = Some m1 /\
    replace_stochastic_depth_with_add example_initialize
      example_unique_object_name2 m1 true = Some m2 /\
    map inbound m2 = map inbound example_model /\
    map class (layers m2) = map class (layers example_model).
Proof.
  assert (E : exists m1,
             replace_add_with_stochastic_depth example_initialize
               example_unique_object_name example_model (SvFloat (1 # 2))
             = Some m1).
  { eexists. vm_compute. reflexivity. }
  destruct E as [m1 E]. exists m1.
  assert (E2 : exists m2,
             replace_stochastic_depth_with_add example_initialize
               example_unique_object_name2 m1 true = Some m2).
  { vm_compute in E. injection E as <-. eexists. vm_compute. reflexivity. }
  destruct E2 as [m2 E2]. exists m2.
  split; [exact E |]. split; [exact E2 |].
  exact (stochastic_depth_round_trip example_initialize
           example_unique_object_name2 example_unique_object_name
           example_model m1 m2 (SvFloat (1 # 2))
           example_model_no_stochastic_depth E E2).
Defined.

Lemma replace_stochastic_depth_with_add_classes_witness :
  exists m',
    replace_stochastic_depth_with_add example_initialize
      example_unique_object_name
      [mk_node (example_layer "input_1" InputLayer "" []) [];
       mk_node (new_StochasticDepth (1 # 2) "block_stochastic_depth") [0; 0]%nat]
      false = Some m' /\
    map class (layers m') = [InputLayer; OtherLayer "Lambda"].
Proof.
  assert (E : exists m',
             replace_stochastic_depth_with_add example_initialize
               example_unique_object_name
               [mk_node (example_layer "input_1" InputLayer "" []) [];
                mk_node (new_StochasticDepth (1 # 2) "block_stochastic_depth")
                  [0; 0]%nat]
               false = Some m').
  { eexists. vm_compute. reflexivity. }
  destruct E as [m' E]. exists m'. split; [exact E |].
  exact (proj1 (proj2 (replace_stochastic_depth_with_add_classes
                         example_initialize example_unique_object_name _ m'
                         false E))).
Defined.

Lemma replace_add_first_layer_witness :
  exists d p,
    survivals_dict example_model (SvSeq [1%Q; 4 # 5]) = Some d /\
    dict_get d "stack1_block1_add" = Some p /\
    (p == 1)%Q /\
    __replace_add_with_stochastic_depth__ d
      (example_layer "stack1_block1_add" Add "" []) =
    Some (example_layer "stack1_block1_add" Add "" []).
Proof.
  exact (replace_add_first_layer example_model 1 (4 # 5)
           (example_layer "stack1_block1_add" Add "" [])
           example_model_add_layers_NoDup eq_refl).
Defined.

Lemma replace_add_short_list_witness :
  replace_add_with_stochastic_depth example_initialize
    example_unique_object_name example_model (SvSeq [1 # 2]) = None.
Proof.
  assert (H2 : length [1 # 2] <> 2%nat) by discriminate.
  assert (Hlt : (length [1 # 2] < length (add_layers example_model))%nat).
  { cbn. lia. }
  exact (replace_add_short_list example_initialize example_unique_object_name
           example_model [1 # 2] example_model_add_layers_NoDup H2 Hlt).
Defined.

(** A model on feature maps: an input of 8 x 8 x 2, a dense layer, a
    [ReLU] layer and an [Activation] of [relu]. *)
Definition feature_map_layer (n : string) (c : layer_class) (act : string)
    (s : list Z) (w : list weight) : layer :=
  mk_layer n c true true true true act 1 [] Float32 [] s true w.

Definition feature_map_model : model :=
  [ mk_node (feature_map_layer "input_1" InputLayer "" [8; 8; 2]%Z []) [];
    mk_node (feature_map_layer "stem_dense" Dense "linear" [8; 8; 2]%Z
               [[1; 2]; [5]]) [0%nat];
    mk_node (feature_map_layer "stem_relu" ReLU "" [8; 8; 1]%Z []) [1%nat];
    mk_node (feature_map_layer "head_act" Activation "relu" [8; 8; 1]%Z [])
      [2%nat] ].

Lemma replace_ReLU_leaves_no_rectifier_witness :
  exists m',
    replace_ReLU example_initialize example_unique_object_name
      feature_map_model (TargetStr "PReLU") [] = Some m' /\
    map class (layers m') = [InputLayer; Dense; PReLU; PReLU] /\
    map inbound m' = map inbound feature_map_model /\
    Forall (fun l' => is_rectifier l' = false) (layers m').
Proof.
  assert (E : exists m',
             replace_ReLU example_initialize example_unique_object_name
               feature_map_model (TargetStr "PReLU") [] = Some m' /\
             map class (layers m') = [InputLayer; Dense; PReLU; PReLU]).
  { eexists. split; vm_compute; reflexivity. }
  destruct E as [m' [E Hc]]. exists m'.
  destruct (replace_ReLU_leaves_no_rectifier example_initialize
              example_unique_object_name feature_map_model m' [] eq_refl E)
    as [Hi [_ Hr]].
  repeat split; assumption.
Defined.

Lemma replace_ReLU_name_keyword_witness :
  replace_ReLU example_initialize example_unique_object_name example_model
    (TargetStr "swish") [("name", "act")] = None.
Proof.
  assert (Hin : In (example_layer "stem_relu" ReLU "" []) (layers example_model)).
  { cbn. auto. }
  exact (replace_ReLU_name_keyword example_initialize example_unique_object_name
           example_model "swish" [("name", "act")]
           (example_layer "stem_relu" ReLU "" []) eq_refl Hin eq_refl).
Defined.


Lemma convert_mixed_float16_to_float32_idempotent_witness :
  exists m1 m2,
    convert_mixed_float16_to_float32 example_initialize
      example_unique_object_name example_model = Some m1 /\
    convert_mixed_float16_to_float32 example_initialize
      example_unique_object_name2 m1 = Some m2 /\
    Forall2 (fun n1 n2 =>
               inbound n2 = inbound n1 /\
               (isinstance (node_layer n1) InputLayer = false ->
                node_layer n2 = node_layer n1)) m1 m2.
Proof.
  assert (E : exists m1,
             convert_mixed_float16_to_float32 example_initialize
               example_unique_object_name example_model = Some m1).
  { eexists. vm_compute. reflexivity. }
  destruct E as [m1 E]. exists m1.
  destruct (convert_mixed_float16_to_float32_idempotent example_initialize
              example_unique_object_name example_unique_object_name2
              example_model m1 example_model_well_built E) as [m2 H].
  exists m2. split; [exact E | exact H].
Defined.


End SurgeryFacts.

(** ** More on [SAMModel.train_step]: the size of the perturbation *)

Module SAMFacts.

Import SAM.
Local Open Scope R_scope.

Lemma add_sub (a b : R) : a + b - b = a.
Proof. lra. Qed.

Lemma sum_cons (x : R) (l : list R) : sum reals (x :: l) = x + sum reals l.
Proof. reflexivity. Qed.

Lemma sum_squares_scale (t : tensor reals) (s : R) :
  sum reals (map (fun g => g * g) (scale_tensor reals t s)) =
  s * s * sum reals (map (fun g => g * g) t).
Proof.
  unfold scale_tensor. induction t as [| g t IH]; [cbn; lra |].
  cbn [map]. rewrite !sum_cons, IH. cbn. lra.
Qed.

Lemma sum_squares_nonneg (t : tensor reals) :
  0 <= sum reals (map (fun g => g * g) t).
Proof.
  induction t as [| g t IH]; [cbn; lra |].
  cbn [map]. rewrite sum_cons.
  pose proof (Rle_0_sqr g) as Hg. unfold Rsqr in Hg. lra.
Qed.

(** The sum of the squares of all entries. *)
Definition squared_norm (l : list (tensor reals)) : R :=
  sum reals (map (fun t => sum reals (map (fun g => g * g) t)) l).

Lemma squared_norm_nonneg (l : list (tensor reals)) : 0 <= squared_norm l.
Proof.
  unfold squared_norm. induction l as [| t l IH]; [cbn; lra |].
  cbn [map]. rewrite sum_cons.
  pose proof (sum_squares_nonneg t). lra.
Qed.

Lemma squared_norm_scale (l : list (tensor reals)) (s : R) :
  squared_norm (map (fun grad => scale_tensor reals grad s) l)
  = s * s * squared_norm l.
Proof.
  unfold squared_norm. induction l as [| t l IH]; [cbn; lra |].
  cbn [map]. rewrite !sum_cons, IH, sum_squares_scale. lra.
Qed.

Lemma global_norm_squared (l : list (tensor reals)) :
  global_norm reals l = sqrt (squared_norm l).
Proof. reflexivity. Qed.

Lemma global_norm_nonneg (l : list (tensor reals)) : 0 <= global_norm reals l.
Proof. rewrite global_norm_squared. apply sqrt_pos. Qed.

(** Scaling every tensor scales the global norm. *)
Lemma global_norm_scale (l : list (tensor reals)) (s : R) :
  global_norm reals (map (fun grad => scale_tensor reals grad s) l)
  = Rabs s * global_norm reals l.
Proof.
  rewrite !global_norm_squared, squared_norm_scale.
  rewrite sqrt_mult_alt by (pose proof (Rle_0_sqr s) as H; unfold Rsqr in H; lra).
  f_equal. change (s * s) with (Rsqr s). apply sqrt_Rsqr_abs.
Qed.

(** The first loop of [train_step] moves the variables by a step whose
    global norm is [|rho| * norm / (norm + 1e-12)], with [norm] the global
    norm of the gradients: it is never longer than [|rho|], and it is zero
    when the gradients are. *)
Theorem perturbation_within_rho (trainable_vars gradients : list (tensor reals))
    (rho : R) :
  same_shapes trainable_vars gradients ->
  let norm := global_norm reals gradients in
  exists perturbed e_w_list,
    perturb reals trainable_vars gradients (rho / (norm + / 10 ^ 12))
    = Some (perturbed, e_w_list) /\
    global_norm reals e_w_list = Rabs rho * (norm / (norm + / 10 ^ 12)) /\
    global_norm reals e_w_list <= Rabs rho.
Proof.
  intros Hs norm.
  destruct (perturb_restore reals add_sub trainable_vars gradients
              (rho / (norm + / 10 ^ 12)) Hs) as [perturbed [Hp _]].
  exists perturbed. eexists. split; [exact Hp |].
  rewrite global_norm_scale. fold norm.
  pose proof (global_norm_nonneg gradients) as Hn. fold norm in Hn.
  assert (He : 0 < / 10 ^ 12) by (apply Rinv_0_lt_compat; lra).
  assert (Hd : 0 < norm + / 10 ^ 12) by lra.
  assert (Hscale : Rabs (rho / (norm + / 10 ^ 12)) * norm
                   = Rabs rho * (norm / (norm + / 10 ^ 12))).
  { unfold Rdiv. rewrite Rabs_mult, (Rabs_right (/ _)); [lra |].
    apply Rle_ge. left. now apply Rinv_0_lt_compat. }
  split; [exact Hscale |].
  rewrite Hscale.
  assert (Hr : norm / (norm + / 10 ^ 12) <= 1).
  { apply Rmult_le_reg_r with (r := norm + / 10 ^ 12); [exact Hd |].
    unfold Rdiv. rewrite Rmult_assoc, Rinv_l by lra. lra. }
  pose proof (Rabs_pos rho) as Ha.
  replace (Rabs rho) with (Rabs rho * 1) at 2 by lra.
  now apply Rmult_le_compat_l.
Qed.

Lemma perturbation_within_rho_witness :
  exists perturbed e_w_list,
    perturb reals [[1; 2]] [[3; 4]]
      (/ 20 / (global_norm reals [[3; 4]] + / 10 ^ 12))
    = Some (perturbed, e_w_list) /\
    global_norm reals e_w_list <= Rabs (/ 20).
Proof.
  assert (Hs : same_shapes (A := reals) [[1; 2]] [[3; 4]]).
  { repeat constructor. }
  destruct (perturbation_within_rho [[1; 2]] [[3; 4]] (/ 20) Hs)
    as [perturbed [e_w_list [H1 [_ H2]]]].
  exists perturbed, e_w_list. split; [exact H1 | exact H2].
Defined.

(** *** A step at a stationary point *)

Lemma add_zero (v z : tensor reals) (s : R) :
  length v = length z -> Forall (fun g => g = 0) z ->
  map (fun p => add reals (fst p) (snd p))
      (combine v (map (fun g => mul reals g s) z)) = v.
Proof.
  intros Hlen Hz. revert v Hlen.
  induction Hz as [| g z Hg _ IH]; intros [| a v] Hlen;
    try discriminate; [reflexivity |].
  cbn [map combine fst snd]. f_equal.
  - subst g. cbn. lra.
  - apply IH. now injection Hlen.
Qed.

Lemma sub_zero (v z : tensor reals) (s : R) :
  length v = length z -> Forall (fun g => g = 0) z ->
  map (fun p => sub reals (fst p) (snd p))
      (combine v (map (fun g => mul reals g s) z)) = v.
Proof.
  intros Hlen Hz. revert v Hlen.
  induction Hz as [| g z Hg _ IH]; intros [| a v] Hlen;
    try discriminate; [reflexivity |].
  cbn [map combine fst snd]. f_equal.
  - subst g. cbn. lra.
  - apply IH. now injection Hlen.
Qed.

(** Adding or subtracting the scaled gradients changes nothing where the
    gradients are zero. *)
Lemma perturbed_zero (trainable_vars gradients : list (tensor reals))
    (scale : R) :
  same_shapes trainable_vars gradients ->
  Forall (Forall (fun g => g = 0)) gradients ->
  map (fun ve => map (fun p => add reals (fst p) (snd p))
                     (combine (fst ve) (snd ve)))
      (combine trainable_vars
         (map (map (fun g => mul reals g scale)) gradients))
  = trainable_vars.
Proof.
  induction 1 as [| v grad vars grads Hlen _ IH]; intros Hz; [reflexivity |].
  inversion Hz as [| ? ? Hg Hgs]; subst. cbn [map combine fst snd].
  f_equal; [now apply add_zero | now apply IH].
Qed.

Lemma restored_zero (trainable_vars gradients : list (tensor reals))
    (scale : R) :
  same_shapes trainable_vars gradients ->
  Forall (Forall (fun g => g = 0)) gradients ->
  map (fun ve => map (fun p => sub reals (fst p) (snd p))
                     (combine (fst ve) (snd ve)))
      (combine trainable_vars
         (map (map (fun g => mul reals g scale)) gradients))
  = trainable_vars.
Proof.
  induction 1 as [| v grad vars grads Hlen _ IH]; intros Hz; [reflexivity |].
  inversion Hz as [| ? ? Hg Hgs]; subst. cbn [map combine fst snd].
  f_equal; [now apply sub_zero | now apply IH].
Qed.

Section Stationary.

Variables X Y SW Pred Aux Opt Metrics Logs : Type.
Variable call : list (tensor reals) -> Aux -> X -> Pred * Aux.
Variable compiled_loss : Y -> Pred -> option SW -> list (tensor reals) -> R.
Variable track_loss :
  Metrics -> Y -> Pred -> option SW -> list (tensor reals) -> Metrics.
Variable derivative :
  (list (tensor reals) -> R) -> list (tensor reals) -> nat -> option (nat -> R).
Variable apply_gradients :
  Opt -> list (option (tensor reals) * tensor reals) -> Opt * list (tensor reals).
Variable update_state : Metrics -> Y -> Pred -> option SW -> Metrics.
Variable results : Metrics -> Logs.

(** The gradients of the tape where every derivative is zero. *)
Lemma tape_gradient_zero (loss : list (tensor reals) -> R)
    (w : list (tensor reals)) :
  (forall i, exists d, derivative loss w i = Some d /\ forall j, d j = 0) ->
  exists g,
    Py.sequence (tape_gradient derivative loss w) = Some g /\
    Forall (Forall (fun x => x = 0)) g.
Proof.
  unfold tape_gradient. generalize (seq 0 (length w)) as idx.
  generalize (derivative loss w) as dv. intros dv idx H. revert idx.
  induction w as [| v w IH]; intros idx.
  - destruct idx; exists []; now split.
  - destruct idx as [| i idx]; [exists []; now split |].
    destruct (IH idx) as [g [Hg Hz]]. destruct (H i) as [d [Hd Hj]].
    exists (map d (seq 0 (length v)) :: g).
    cbn [map combine fst snd]. rewrite Hd. cbn [Py.sequence]. rewrite Hg.
    split; [reflexivity |]. constructor; [| exact Hz].
    apply Forall_map, Forall_forall. intros j _. apply Hj.
Qed.

(** Where the gradients of the loss vanish, nothing is added to the
    variables: the second pass runs at the values the variables have, on the
    state the first pass left, the optimizer gets the gradients of that
    pass and the values the variables had, and the metrics the step reports
    have seen the loss of both passes and the predictions of the first. *)
Theorem train_step_zero_gradient (self : model reals Aux Opt Metrics)
    (data : batch X Y SW) (x : X) (y : Y) (sample_weight : option SW) :
  unpack data = Some (x, y, sample_weight) ->
  let w0 := trainable_variables self in
  let first := call w0 (non_trainable self) x in
  (forall i, exists d,
     derivative
       (fun w => compiled_loss y (fst (call w (non_trainable self) x)) sample_weight w)
       w0 i = Some d /\
     forall j, d j = 0) ->
  let second := call w0 (snd first) x in
  let g2 :=
    tape_gradient derivative
      (fun w => compiled_loss y (fst (call w (snd first) x)) sample_weight w)
      w0 in
  let update := apply_gradients (optimizer self) (combine g2 w0) in
  let metrics' :=
    update_state
      (track_loss
         (track_loss (metrics self) y (fst first) sample_weight w0)
         y (fst second) sample_weight w0)
      y (fst first) sample_weight in
  train_step call compiled_loss track_loss derivative apply_gradients
    update_state results self data =
  Some (mk_model (rho self) (snd update) (snd second) (fst update) metrics',
        results metrics').
Proof.
  intros Hd w0 first Hz. cbv zeta.
  destruct (tape_gradient_zero _ w0 Hz) as [g1 [Hg Hg0]].
  pose proof (tape_gradient_same_shapes reals derivative _ _ _ Hg) as Hs.
  pose proof (train_step_steps reals X Y SW Pred Aux Opt Metrics Logs call
                compiled_loss track_loss derivative apply_gradients
                update_state results self data x y sample_weight g1 Hd Hg)
    as H.
  cbv zeta in H. fold w0 in H. fold first in H.
  match type of H with
  | context [call ?p (snd first) x] =>
      assert (Hp : p = w0) by (now apply perturbed_zero)
  end.
  rewrite Hp in H.
  match type of H with
  | context [combine (tape_gradient _ _ _) ?r] =>
      assert (Hr : r = w0) by (now apply restored_zero)
  end.
  rewrite Hr in H. exact H.
Qed.

End Stationary.

Lemma train_step_zero_gradient_witness :
  train_step (A := reals) (fun _ (_ : unit) (_ : unit) => (tt, tt))
    (fun (_ : unit) (_ : unit) (_ : option unit) _ => 0)
    (fun (m : nat) (_ : unit) (_ : unit) (_ : option unit) _ => S m)
    (fun _ _ _ => Some (fun _ => 0))
    (fun (o : unit) l => (o, map snd l))
    (fun (m : nat) (_ : unit) (_ : unit) (_ : option unit) => m)
    (fun m : nat => m)
    (mk_model (A := reals) (/ 20) [[1; 2]] tt tt 0%nat) (Batch2 tt tt)
  = Some (mk_model (A := reals) (/ 20) [[1; 2]] tt tt 2%nat, 2%nat).
Proof.
  exact (train_step_zero_gradient unit unit unit unit unit unit nat nat
           (fun _ _ _ => (tt, tt)) (fun _ _ _ _ => 0) (fun m _ _ _ _ => S m)
           (fun _ _ _ => Some (fun _ => 0))
           (fun o l => (o, map snd l)) (fun m _ _ _ => m) (fun m => m)
           (mk_model (A := reals) (/ 20) [[1; 2]] tt tt 0%nat) (Batch2 tt tt)
           tt tt None eq_refl
           (fun _ => ex_intro _ (fun _ => 0) (conj eq_refl (fun _ => eq_refl)))).
Defined.

End SAMFacts.

(** ** More on the builder: when [LeViT] builds *)

Module LeViTBuilds.

Import Graph LeViT LeViTShapes.
Local Open Scope string_scope.
Local Open Scope Z_scope.

(** A builder that returns on every graph returns values of its
    postcondition only. *)
Lemma runs_returns {A : Type} (m : builder A) (Q : A -> Prop) :
  runs m Q -> returns m Q.
Proof.
  intros H g a g' E. destruct (H g) as [a0 [g0 [E0 Ha]]].
  rewrite E in E0. now injection E0 as -> _.
Qed.

(** A builder that can return nothing fails. *)
Lemma returns_False {A : Type} (m : builder A) :
  returns m (fun _ => False) -> forall g, m g = None.
Proof.
  intros H g. destruct (m g) as [[a g'] |] eqn:E; [| reflexivity].
  destruct (H g a g' E).
Qed.

Lemma sqrt_ge_2 (b : Z) : 4 <= b -> 2 <= Z.sqrt b.
Proof. intros H. change 2 with (Z.sqrt 4). now apply Z.sqrt_le_mono. Qed.

Lemma broadcast_dim_not_square (b : Z) :
  4 <= b -> Z.sqrt b * Z.sqrt b <> b ->
  broadcast_dim b (Z.sqrt b * Z.sqrt b) = None.
Proof.
  intros H4 Hne. pose proof (sqrt_ge_2 b H4) as Hs. unfold broadcast_dim.
  destruct (Z.eqb_spec b (Z.sqrt b * Z.sqrt b)); [congruence |].
  destruct (Z.eqb_spec b 1); [lia |].
  destruct (Z.eqb_spec (Z.sqrt b * Z.sqrt b) 1); [nia | reflexivity].
Qed.

(** One call of a layer in a proof about shapes: [H] is what shape inference
    says of the result. *)
Ltac call_step H :=
  eapply returns_bind; [apply returns_call; intros ? H; exact H |];
  intros ? H.

Section Builds.

Variable image_data_format : string.

(** *** A number of tokens that is no square *)

Lemma scaled_dot_product_attention_not_square qq kk vv key_dim attn_ratio
    output_dim activation name (h h2 b d d2 : Z) :
  t_shape qq = [h; b; d] -> t_shape kk = [h2; b; d2] ->
  4 <= b -> Z.sqrt b * Z.sqrt b <> b ->
  returns (scaled_dot_product_attention image_data_format qq kk vv key_dim
             attn_ratio output_dim activation name)
    (fun _ => False).
Proof.
  intros Hq Hk H4 Hne. unfold scaled_dot_product_attention.
  call_step H1. unfold output_shapes, map, matmul_shape in H1.
  rewrite Hq, Hk in H1.
  destruct ((h =? h2) && (d =? d2)); [| discriminate H1].
  cbn in H1. injection H1 as H1.
  call_step H2. cbn in H2. injection H2 as H2. rewrite <- H1 in H2.
  call_step H3. cbn [output_shapes map] in H3. rewrite <- H2 in H3.
  destruct (PositionalEmbedding.ceil_sqrt_ratio b b); [| discriminate H3].
  unfold PositionalEmbedding.int_sqrt in H3. cbn [broadcast] in H3.
  rewrite broadcast_dim_refl, (broadcast_dim_not_square b H4 Hne) in H3.
  discriminate H3.
Qed.

Lemma mhsa_with_multi_head_position_not_square inputs output_dim num_heads
    key_dim attn_ratio activation name (blocks c : Z) :
  t_shape inputs = [blocks; c] ->
  4 <= blocks -> Z.sqrt blocks * Z.sqrt blocks <> blocks ->
  returns (mhsa_with_multi_head_position image_data_format inputs output_dim
             num_heads key_dim attn_ratio activation name)
    (fun _ => False).
Proof.
  intros Ein H4 Hne. unfold mhsa_with_multi_head_position. rewrite Ein.
  call_step H1. cbn in H1. rewrite Ein in H1. cbn in H1. injection H1 as H1.
  eapply returns_bind; [apply batchnorm_with_activation_shape |].
  cbn. intros qkv2 H2.
  eapply returns_bind with (Q1 := fun _ => True);
    [apply returns_floordiv; trivial |].
  intros per_head _.
  call_step H3. cbn in H3. injection H3 as H3.
  call_step H5. cbn in H5. rewrite <- H3 in H5. cbn in H5. injection H5 as H5.
  eapply returns_bind; [apply returns_call_layer; intros ts H; exact H |].
  intros parts H6. cbn [output_shapes map] in H6. rewrite <- H5 in H6.
  cbn [rev app] in H6.
  destruct (total _ =? per_head); [| discriminate H6].
  cbn in H6. injection H6 as H6.
  destruct parts as [| qq [| kk [| vv [| ? ?]]]]; try apply returns_raise.
  cbn in H6. injection H6 as Hqq Hkk Hvv.
  eapply scaled_dot_product_attention_not_square; eauto.
Qed.

Lemma attention_mlp_stack_not_square inputs out_channel num_heads depth key_dim
    attn_ratio mlp_ratio strides drop_rate activation name (blocks c : Z) :
  t_shape inputs = [blocks; c] ->
  4 <= blocks -> Z.sqrt blocks * Z.sqrt blocks <> blocks -> 1 <= depth ->
  returns (attention_mlp_stack image_data_format inputs out_channel num_heads
             depth key_dim attn_ratio mlp_ratio strides drop_rate activation name)
    (fun _ => False).
Proof.
  intros Ein H4 Hne Hd. unfold attention_mlp_stack.
  eapply returns_bind with (Q1 := fun _ => True);
    [apply returns_last_dim; trivial |].
  intros embed_dim _.
  destruct (Z.to_nat depth) as [| k] eqn:Ek; [lia |].
  cbn [seq for_each].
  eapply returns_bind with (Q1 := fun _ => False); [| intros ? []].
  eapply returns_bind with (Q1 := fun _ => False); [| intros ? []].
  eapply returns_bind with (Q1 := fun _ => False); [| intros ? []].
  unfold res_mhsa_with_multi_head_position.
  eapply returns_bind with (Q1 := fun _ => False); [| intros ? []].
  now apply (mhsa_with_multi_head_position_not_square _ _ _ _ _ _ _ blocks c).
Qed.


(** *** A square number of tokens *)

Lemma runs_floordiv (a b : Z) :
  b <> 0 -> runs (floordiv a b) (fun d => d = a / b).
Proof.
  intros Hb. unfold floordiv. destruct (Z.eqb_spec b 0); [contradiction |].
  now apply runs_ret.
Qed.

Lemma runs_call_layer (name : option string) (c : layer_class)
    (inputs : list tensor) (outs : list shape) :
  output_shapes c (map t_shape inputs) = Some outs ->
  runs (call_layer name c inputs) (fun ts => map t_shape ts = outs).
Proof.
  intros H g. unfold call_layer. rewrite H.
  eexists. eexists. split; [reflexivity |].
  rewrite map_map. cbn [t_shape].
  clear. generalize 0%nat. induction outs as [| o outs IH]; intros s; cbn;
    [reflexivity |]. now rewrite IH.
Qed.

Lemma runs_for_each {A B : Type} (l : list A) (body : B -> A -> builder B)
    (I : B -> Prop) :
  (forall b a, I b -> runs (body b a) I) ->
  forall b, I b -> runs (for_each l body b) I.
Proof.
  intros Hbody. induction l as [| a l IH]; intros b Hb; cbn [for_each].
  - now apply runs_ret.
  - eapply runs_bind; [now apply Hbody | exact IH].
Qed.

Lemma scaled_dot_product_attention_runs qq kk vv key_dim attn_ratio output_dim
    activation name (h bq bk d dv : Z) :
  t_shape qq = [h; bq; d] -> t_shape kk = [h; bk; d] -> t_shape vv = [h; bk; dv] ->
  bq <> 0 -> Z.sqrt bq * Z.sqrt bq = bq -> Z.sqrt bk * Z.sqrt bk = bk ->
  runs (scaled_dot_product_attention image_data_format qq kk vv key_dim
          attn_ratio output_dim activation name)
    (fun t => t_shape t = [bq; output_dim]).
Proof.
  intros Hq Hk Hv Hbq Sq Sk. unfold scaled_dot_product_attention.
  eapply runs_bind.
  { apply runs_call. unfold output_shapes, map, matmul_shape.
    rewrite Hq, Hk, !Z.eqb_refl. reflexivity. }
  cbn beta. intros a1 H1.
  eapply runs_bind.
  { apply runs_call. cbn. rewrite H1. reflexivity. }
  cbn beta. intros a2 H2.
  eapply runs_bind.
  { apply runs_call. cbn [output_shapes map]. rewrite H2.
    unfold PositionalEmbedding.ceil_sqrt_ratio, PositionalEmbedding.int_sqrt.
    destruct (Z.eqb_spec bq 0); [contradiction |].
    cbn [broadcast]. rewrite Sq, Sk, !broadcast_dim_refl. reflexivity. }
  cbn beta. intros a3 H3.
  eapply runs_bind.
  { apply runs_call. cbn. rewrite H3. reflexivity. }
  cbn beta. intros a4 H4.
  eapply runs_bind.
  { apply runs_call. unfold output_shapes, map, matmul_shape.
    rewrite H4, Hv, !Z.eqb_refl. reflexivity. }
  cbn beta. intros o1 H5.
  eapply runs_bind.
  { apply runs_call. cbn. rewrite H5. cbn. reflexivity. }
  cbn beta. intros o2 H6. rewrite H6.
  eapply runs_bind.
  { apply runs_call. cbn. reflexivity. }
  cbn beta. intros o3 H7.
  eapply runs_bind with (Q1 := fun t => t_shape t = [bq; h * dv]).
  { destruct activation as [act |]; [| now apply runs_ret].
    destruct (String.eqb act "hard_swish");
      [apply runs_call; cbn; now rewrite H7 |].
    destruct (Py.truthy (Some act)); [| now apply runs_ret].
    apply runs_call; cbn; now rewrite H7. }
  cbn beta. intros o4 H8.
  eapply runs_bind.
  { apply runs_call. cbn. rewrite H8. cbn. reflexivity. }
  cbn beta. intros o5 H9.
  eapply runs_weaken; [apply batchnorm_with_activation_runs |].
  cbn beta. intros t Ht. congruence.
Qed.

Lemma mhsa_with_multi_head_position_runs inputs output_dim num_heads key_dim
    attn_ratio activation name (blocks c : Z) :
  t_shape inputs = [blocks; c] ->
  blocks <> 0 -> Z.sqrt blocks * Z.sqrt blocks = blocks -> num_heads <> 0 ->
  runs (mhsa_with_multi_head_position image_data_format inputs output_dim
          num_heads key_dim attn_ratio activation name)
    (fun t => t_shape t = [blocks; output_dim]).
Proof.
  intros Ein Hb Sq Hn. unfold mhsa_with_multi_head_position. rewrite Ein.
  eapply runs_bind.
  { apply runs_call. cbn. rewrite Ein. cbn. reflexivity. }
  cbn beta. intros qkv H1.
  eapply runs_bind; [apply batchnorm_with_activation_runs |].
  cbn beta. intros qkv2 H2. rewrite H1 in H2.
  eapply runs_bind; [apply runs_floordiv; exact Hn |].
  cbn beta. intros per_head Hp.
  assert (Hp' : per_head = (attn_ratio + 1 + 1) * key_dim).
  { rewrite Hp, Z.mul_assoc. now apply Z.div_mul. }
  eapply runs_bind.
  { apply runs_call. cbn. reflexivity. }
  cbn beta. intros q3 H3.
  eapply runs_bind.
  { apply runs_call. cbn. rewrite H3. cbn. reflexivity. }
  cbn beta. intros q4 H4.
  eapply runs_bind.
  { apply runs_call_layer. cbn [output_shapes map]. rewrite H4. cbn [rev app].
    destruct (Z.eqb_spec (total [key_dim; key_dim; key_dim * attn_ratio]) per_head)
      as [_ | Hx]; [| exfalso; apply Hx; unfold total; cbn [fold_right]; lia].
    cbn. reflexivity. }
  cbn beta. intros parts Hparts.
  destruct parts as [| qq [| kk [| vv [| ? ?]]]]; try discriminate Hparts.
  injection Hparts as Hqq Hkk Hvv.
  eapply scaled_dot_product_attention_runs; eauto.
Qed.

Lemma strided_blocks_square (blocks strides : Z) :
  0 < blocks -> Z.sqrt blocks * Z.sqrt blocks = blocks -> strides <> 0 ->
  0 < strided_blocks blocks strides /\
  Z.sqrt (strided_blocks blocks strides) * Z.sqrt (strided_blocks blocks strides)
  = strided_blocks blocks strides.
Proof.
  intros Hb Sq Hs. unfold strided_blocks.
  destruct (strides =? 1); [now split |].
  assert (Hw : 1 <= Z.sqrt blocks).
  { pose proof (Z.sqrt_nonneg blocks). nia. }
  assert (Hx : 1 <= strided (Z.sqrt blocks) strides).
  { unfold strided. apply Z.div_le_lower_bound; lia. }
  split; [nia |].
  rewrite Z.sqrt_square by lia. reflexivity.
Qed.

Lemma mhsa_with_multi_head_position_and_strides_runs inputs output_dim num_heads
    key_dim attn_ratio strides activation name (blocks c : Z) :
  t_shape inputs = [blocks; c] ->
  0 < blocks -> Z.sqrt blocks * Z.sqrt blocks = blocks ->
  num_heads <> 0 -> strides <> 0 ->
  runs (mhsa_with_multi_head_position_and_strides image_data_format inputs
          output_dim num_heads key_dim attn_ratio strides activation name)
    (fun t => t_shape t = [strided_blocks blocks strides; output_dim]).
Proof.
  intros Ein Hb Sq Hn Hs.
  destruct (strided_blocks_square blocks strides Hb Sq Hs) as [Hqb Sqb].
  unfold mhsa_with_multi_head_position_and_strides. rewrite Ein.
  eapply runs_bind
    with (Q1 := fun t => t_shape t = [strided_blocks blocks strides; c]).
  { unfold strided_blocks. destruct (strides =? 1); cbn [negb];
      [now apply runs_ret |].
    eapply runs_bind.
    { apply runs_call. cbn. reflexivity. }
    cbn beta. intros q1 H1.
    eapply runs_bind.
    { apply runs_call. cbn. rewrite H1.
      destruct (Z.eqb_spec strides 0); [contradiction | reflexivity]. }
    cbn beta. intros q2 H2. rewrite H2.
    eapply runs_weaken; [apply runs_call; cbn; reflexivity |].
    cbn beta. intros t Ht. exact Ht. }
  cbn beta. intros qq1 H1.
  eapply runs_bind.
  { apply runs_call. cbn. rewrite H1. cbn. reflexivity. }
  cbn beta. intros qq2 H2.
  eapply runs_bind; [apply batchnorm_with_activation_runs |].
  cbn beta. intros qq3 H3. rewrite H2 in H3. rewrite H3.
  eapply runs_bind.
  { apply runs_call. cbn. reflexivity. }
  cbn beta. intros qq4 H4.
  eapply runs_bind.
  { apply runs_call. cbn. rewrite H4. cbn. reflexivity. }
  cbn beta. intros qq5 H5.
  eapply runs_bind.
  { apply runs_call. cbn. rewrite Ein. cbn. reflexivity. }
  cbn beta. intros kv1 H6.
  eapply runs_bind; [apply batchnorm_with_activation_runs |].
  cbn beta. intros kv2 H7.
  eapply runs_bind; [apply runs_floordiv; exact Hn |].
  cbn beta. intros per_head Hp.
  assert (Hp' : per_head = (attn_ratio + 1) * key_dim).
  { rewrite Hp, Z.mul_assoc. now apply Z.div_mul. }
  eapply runs_bind.
  { apply runs_call. cbn. reflexivity. }
  cbn beta. intros kv3 H8.
  eapply runs_bind.
  { apply runs_call. cbn. rewrite H8. cbn. reflexivity. }
  cbn beta. intros kv4 H9.
  eapply runs_bind.
  { apply runs_call_layer. cbn [output_shapes map]. rewrite H9. cbn [rev app].
    destruct (Z.eqb_spec (total [key_dim; key_dim * attn_ratio]) per_head)
      as [_ | Hx]; [| exfalso; apply Hx; unfold total; cbn [fold_right]; lia].
    cbn. reflexivity. }
  cbn beta. intros parts Hparts.
  destruct parts as [| kk [| vv [| ? ?]]]; try discriminate Hparts.
  injection Hparts as Hkk Hvv.
  eapply scaled_dot_product_attention_runs; eauto. lia.
Qed.

Lemma res_mhsa_with_multi_head_position_runs inputs num_heads key_dim attn_ratio
    drop_rate activation name (blocks embed_dim : Z) :
  t_shape inputs = [blocks; embed_dim] ->
  blocks <> 0 -> Z.sqrt blocks * Z.sqrt blocks = blocks -> num_heads <> 0 ->
  runs (res_mhsa_with_multi_head_position image_data_format inputs embed_dim
          num_heads key_dim attn_ratio drop_rate activation name)
    (fun t => t_shape t = [blocks; embed_dim]).
Proof.
  intros Ein Hb Sq Hn. unfold res_mhsa_with_multi_head_position.
  eapply runs_bind;
    [now apply (mhsa_with_multi_head_position_runs _ _ _ _ _ _ _ blocks embed_dim) |].
  cbn beta. intros nn H1.
  eapply runs_bind with (Q1 := fun t => t_shape t = [blocks; embed_dim]).
  { destruct (Py.Qgtb drop_rate 0); [| now apply runs_ret].
    apply runs_call. cbn. now rewrite H1. }
  cbn beta. intros nn2 H2.
  apply runs_call. cbn [output_shapes map]. rewrite Ein, H2, broadcast_refl.
  reflexivity.
Qed.

Lemma res_mlp_block_runs inputs mlp_ratio drop_rate use_bias activation name
    (blocks c : Z) :
  t_shape inputs = [blocks; c] ->
  runs (res_mlp_block image_data_format inputs mlp_ratio drop_rate use_bias
          activation name)
    (fun t => t_shape t = [blocks; c]).
Proof.
  intros Ein. unfold res_mlp_block, last_dim. rewrite Ein. cbn [rev app].
  eapply runs_bind with (Q1 := fun d => d = c); [now apply runs_ret |].
  cbn beta. intros in_channels ->.
  eapply runs_bind.
  { apply runs_call. cbn. rewrite Ein. cbn. reflexivity. }
  cbn beta. intros n1 H1.
  eapply runs_bind; [apply batchnorm_with_activation_runs |].
  cbn beta. intros n2 H2. rewrite H1 in H2.
  eapply runs_bind.
  { apply runs_call. cbn. rewrite H2. cbn. reflexivity. }
  cbn beta. intros n3 H3.
  eapply runs_bind; [apply batchnorm_with_activation_runs |].
  cbn beta. intros n4 H4. rewrite H3 in H4.
  eapply runs_bind with (Q1 := fun t => t_shape t = [blocks; c]).
  { destruct (Py.Qgtb drop_rate 0); [| now apply runs_ret].
    apply runs_call. cbn. now rewrite H4. }
  cbn beta. intros n5 H5.
  apply runs_call. cbn [output_shapes map]. rewrite Ein, H5, broadcast_refl.
  reflexivity.
Qed.

(** What a stage needs of its hyper-parameters, for tokens of width
    [embed_dim]: positive numbers of heads and of channels, so that every
    layer has some units, and, when it changes the width, a key dimension
    that gives the downsampling attention a head, and a stride. *)
Definition stage_ok (embed_dim : Z) (s : stage) : Prop :=
  0 < num_head s /\ 0 < key_dim s /\ 0 < attn_ratio s /\ 0 < out_channel s /\
  (embed_dim = out_channel s \/ (key_dim s <= embed_dim /\ 0 < stride s)).

(** The number of tokens a stage returns. *)
Definition stage_blocks (blocks embed_dim : Z) (s : stage) : Z :=
  if embed_dim =? out_channel s then blocks
  else strided_blocks blocks (stride s).

Lemma stage_blocks_square (blocks embed_dim : Z) (s : stage) :
  0 < blocks -> Z.sqrt blocks * Z.sqrt blocks = blocks -> stage_ok embed_dim s ->
  0 < stage_blocks blocks embed_dim s /\
  Z.sqrt (stage_blocks blocks embed_dim s) * Z.sqrt (stage_blocks blocks embed_dim s)
  = stage_blocks blocks embed_dim s.
Proof.
  intros Hb Sq [_ [_ [_ [_ Hds]]]]. unfold stage_blocks.
  destruct (Z.eqb_spec embed_dim (out_channel s)); [now split |].
  destruct Hds as [Hds | [_ Hst]]; [contradiction |].
  apply strided_blocks_square; [exact Hb | exact Sq | lia].
Qed.

Lemma attention_mlp_stack_runs inputs (s : stage) drop_rate activation name
    (blocks embed_dim : Z) :
  t_shape inputs = [blocks; embed_dim] ->
  0 < blocks -> Z.sqrt blocks * Z.sqrt blocks = blocks ->
  stage_ok embed_dim s ->
  runs (attention_mlp_stack image_data_format inputs (out_channel s) (num_head s)
          (depth s) (key_dim s) (attn_ratio s) (mlp_ratio s) (stride s)
          drop_rate activation name)
    (fun t => t_shape t = [stage_blocks blocks embed_dim s; out_channel s]).
Proof.
  intros Ein Hb Sq [Hn [Hkd [_ [_ Hds]]]].
  unfold stage_blocks, attention_mlp_stack, last_dim.
  rewrite Ein. cbn [rev app].
  eapply runs_bind with (Q1 := fun d => d = embed_dim); [now apply runs_ret |].
  cbn beta. intros e ->.
  eapply runs_bind with (Q1 := fun t => t_shape t = [blocks; embed_dim]).
  { apply runs_for_each; [| exact Ein].
    intros nn id Hnn.
    eapply runs_bind.
    { apply (res_mhsa_with_multi_head_position_runs _ _ _ _ _ _ _ blocks embed_dim);
        [exact Hnn | lia | exact Sq | lia]. }
    cbn beta. intros nn' Hnn'.
    destruct (0 <? mlp_ratio s); [| now apply runs_ret].
    now apply res_mlp_block_runs. }
  cbn beta. intros nn Hnn.
  destruct (Z.eqb_spec embed_dim (out_channel s)) as [He | He]; cbn [negb].
  { apply runs_ret. now rewrite <- He. }
  destruct Hds as [Hds | [Hk Hst]]; [contradiction |].
  eapply runs_bind; [apply runs_floordiv; lia |].
  cbn beta. intros ds_num_heads ->.
  assert (Hh : 0 < embed_dim / key_dim s) by (apply Z.div_str_pos; lia).
  eapply runs_bind.
  { apply (mhsa_with_multi_head_position_and_strides_runs _ _ _ _ _ _ _ _
             blocks embed_dim); auto; lia. }
  cbn beta. intros nn2 H2.
  destruct (0 <? mlp_ratio s); [| now apply runs_ret].
  now apply (res_mlp_block_runs _ _ _ _ _ _ _ _ H2).
Qed.

(** The activations the engine accepts in every version: none, the empty
    string, which [batchnorm_with_activation] takes as none, [hard_swish],
    which it passes as a function, and the names [keras.activations.get]
    knows. *)
Definition known_activation (activation : option string) : bool :=
  match activation with
  | None => true
  | Some act =>
      existsb (String.eqb act)
        [""; "hard_swish"; "relu"; "sigmoid"; "tanh"; "softmax"; "softplus";
         "softsign"; "elu"; "selu"; "linear"]
  end.

(** A stage builds on every square number of tokens, with the default
    channels-last layout, for hyper-parameters that are sound, a drop rate
    below 1, which [keras.layers.Dropout] accepts, and an activation the
    engine knows: it returns the tokens in the stage's width, as many as it
    was given, or, when the stage changes the width, as many as the strided
    attention keeps. *)
Theorem attention_mlp_stack_builds inputs (s : stage) drop_rate activation name
    (blocks embed_dim : Z) :
  image_data_format = "channels_last" ->
  t_shape inputs = [blocks; embed_dim] ->
  0 < blocks -> Z.sqrt blocks * Z.sqrt blocks = blocks ->
  stage_ok embed_dim s ->
  (drop_rate < 1)%Q ->
  known_activation activation = true ->
  runs (attention_mlp_stack image_data_format inputs (out_channel s) (num_head s)
          (depth s) (key_dim s) (attn_ratio s) (mlp_ratio s) (stride s)
          drop_rate activation name)
    (fun t => t_shape t =
              [if embed_dim =? out_channel s then blocks
               else strided_blocks blocks (stride s);
               out_channel s]).
Proof.
  intros _ Hs Hb Sq Hok _ _.
  now apply (attention_mlp_stack_runs inputs s drop_rate activation name blocks
               embed_dim).
Qed.

(** The stages, one after the other: each gets tokens of the width the one
    before it returns. *)
Fixpoint stages_ok (embed_dim : Z) (l : list stage) : Prop :=
  match l with
  | [] => True
  | s :: r => stage_ok embed_dim s /\ stages_ok (out_channel s) r
  end.

Lemma stages_runs (activation : option string) (l : list stage) :
  forall (k : nat) (nn : tensor) (blocks embed_dim : Z),
  t_shape nn = [blocks; embed_dim] ->
  0 < blocks -> Z.sqrt blocks * Z.sqrt blocks = blocks ->
  stages_ok embed_dim l ->
  runs (for_each (combine (seq k (length l)) l)
          (fun nn p =>
             let '(id, s) := p in
             let name := "stack" ++ Py.str_of_nat (id + 1)%nat ++ "_" in
             let drop_rate := 0%Q in
             attention_mlp_stack image_data_format nn (out_channel s) (num_head s)
               (depth s) (key_dim s) (attn_ratio s) (mlp_ratio s) (stride s)
               drop_rate activation name)
          nn)
    (fun t => exists blocks' c, t_shape t = [blocks'; c]).
Proof.
  induction l as [| s l IH]; intros k nn blocks embed_dim Hnn Hb Sq Hok.
  - apply runs_ret. eauto.
  - destruct Hok as [Hs Hl]. cbn [length seq combine for_each].
    destruct (stage_blocks_square blocks embed_dim s Hb Sq Hs) as [H2 H3].
    eapply runs_bind; [now apply (attention_mlp_stack_runs _ _ _ _ _ blocks embed_dim) |].
    cbn beta. intros nn' H1.
    now apply (IH _ _ (stage_blocks blocks embed_dim s) (out_channel s)).
Qed.

Lemma LeViT_graph_builds a (h w c : Z) :
  input_shape a = [h; w; c] -> 1 <= h -> 1 <= w ->
  let blocks := ((h + 15) / 16) * ((w + 15) / 16) in
  Z.sqrt blocks * Z.sqrt blocks = blocks ->
  stages_ok (patch_channel a)
    (zip7 (out_channels a) (num_heads a) (depthes a) (key_dims a)
       (attn_ratios a) (mlp_ratios a) (strides a)) ->
  exists m, LeViT image_data_format a = Some m.
Proof.
  intros Hin Hh Hw blocks Sq Hok.
  assert (Hb : 0 < blocks).
  { unfold blocks.
    assert (1 <= (h + 15) / 16) by (apply Z.div_le_lower_bound; lia).
    assert (1 <= (w + 15) / 16) by (apply Z.div_le_lower_bound; lia).
    nia. }
  enough (H : runs (LeViT_graph image_data_format a) (fun _ => True)).
  { destruct (H []) as [[inputs out] [layers [E _]]].
    unfold LeViT. rewrite E. eauto. }
  unfold LeViT_graph.
  eapply runs_bind
    with (Q1 := fun p => exists blocks' c', t_shape (snd p) = [blocks'; c']).
  { unfold LeViT_backbone.
    eapply runs_bind.
    { apply runs_call. cbn. reflexivity. }
    cbn beta. intros inputs H1.
    eapply runs_bind.
    { apply (patch_stem_shape_runs image_data_format _ (patch_channel a) (activation a)
               "stem_" h w c); [congruence | exact Hh | exact Hw]. }
    cbn beta. intros nn Hnn. rewrite Hnn.
    eapply runs_bind.
    { apply runs_call. cbn. reflexivity. }
    cbn beta. intros nn2 H2.
    eapply runs_bind.
    { unfold stages, enumerate.
      now apply (stages_runs _ _ _ _ blocks (patch_channel a)). }
    cbn beta. intros nn3 H3. now apply runs_ret. }
  cbn beta. intros [inputs nn] [blocks' [c' Hnn]]. cbn [snd] in Hnn.
  destruct (num_classes a =? 0); [now apply runs_ret |].
  eapply runs_bind.
  { apply runs_call. cbn. rewrite Hnn. reflexivity. }
  cbn beta. intros p1 H1.
  eapply runs_bind with (Q1 := fun t => t_shape t = [c']).
  { destruct (_ && _); [| now apply runs_ret].
    apply runs_call. cbn. now rewrite H1. }
  cbn beta. intros p2 H2.
  eapply runs_bind; [apply batchnorm_with_activation_runs |].
  cbn beta. intros o1 H3. rewrite H2 in H3.
  eapply runs_bind.
  { apply runs_call. cbn. rewrite H3. cbn. reflexivity. }
  cbn beta. intros o2 H4.
  destruct (use_distillation a); [| now apply runs_ret].
  eapply runs_bind; [apply batchnorm_with_activation_runs |].
  cbn beta. intros d1 H5. rewrite H2 in H5.
  eapply runs_bind.
  { apply runs_call. cbn. rewrite H5. cbn. reflexivity. }
  cbn beta. intros d2 H6. now apply runs_ret.
Qed.


(** The hyper-parameters of every entry of [BLOCK_CONFIGS] are sound. *)
Lemma BLOCK_CONFIGS_ok (key : string) (c : block_config) :
  getitem BLOCK_CONFIGS key = Some c ->
  stages_ok (config_patch_channel c)
    (zip7 (config_out_channels c) (config_num_heads c) (config_depthes c)
       (config_key_dims c) (config_attn_ratios c) (config_mlp_ratios c)
       (config_strides c)).
Proof.
  unfold BLOCK_CONFIGS, getitem.
  repeat (destruct (String.eqb _ key);
          [intros [= <-]; cbn; unfold stage_ok; cbn;
           repeat split; try reflexivity;
           first [now left | right; split; [discriminate | reflexivity]] |]).
  discriminate.
Qed.


End Builds.

(** [LeViT128S] on an image of 224 by 160 pixels: 14 by 10 patches. *)
Definition LeViT128S_224_160 : levit_args :=
  variant_args
    (mk_config 128 [256; 384; 384] [4; 6; 8] [2; 3; 4] [16; 16; 16]
       [2; 2; 2] [2; 2; 2] [2; 2; 0])
    [224; 160; 3] 1000 true None (Some "imagenet") "levit128s" default_kwargs.



Lemma attention_mlp_stack_builds_witness :
  exists t g,
    attention_mlp_stack "channels_last" stage_input 256 4 2 16 2 2 2 (1 # 8)
      (Some "relu") "stack1_" [] = Some (t, g) /\
    t_shape t = [49; 256].
Proof.
  assert (Hb : 0 < 196) by reflexivity.
  assert (Hok : stage_ok 128 (mk_stage 256 4 2 16 2 2 2)).
  { unfold stage_ok. cbn. repeat split; try reflexivity.
    right. split; [discriminate | reflexivity]. }
  assert (Hd : (1 # 8 < 1)%Q) by reflexivity.
  destruct (attention_mlp_stack_builds "channels_last" stage_input
              (mk_stage 256 4 2 16 2 2 2) (1 # 8) (Some "relu") "stack1_"
              196 128 eq_refl eq_refl Hb eq_refl Hok Hd eq_refl [])
    as [t [g [E Ht]]].
  exists t, g. split; [exact E | exact Ht].
Defined.


End LeViTBuilds.

(** ** More on [MultiHeadPositionalEmbedding]: what [call] adds *)

Module PositionalEmbeddingCall.

Import PositionalEmbedding PositionalEmbeddingFacts.
Local Open Scope Z_scope.

(** [tf.transpose(t, [2, 0, 1])] of a tensor whose last axis has
    [num_heads] entries. *)
Definition transpose_2_0_1 {A : Type} (num_heads : nat)
    (t : list (list (list A))) : option (list (list (list A))) :=
  Py.sequence
    (map (fun h =>
            Py.sequence
              (map (fun row => Py.sequence (map (fun cell => nth_error cell h) row))
                   t))
         (seq 0 num_heads)).

(** An operation on two tensors along one axis, with broadcasting: the
    lengths agree, or one of them is 1. *)
Definition broadcast_map2 {A : Type} (f : A -> A -> option A) (x y : list A)
  : option (list A) :=
  if Nat.eqb (length x) (length y)
  then Py.sequence (map (fun p => f (fst p) (snd p)) (combine x y))
  else match x, y with
       | [a], _ => Py.sequence (map (f a) y)
       | _, [b] => Py.sequence (map (fun a => f a b) x)
       | _, _ => None
       end.

(** [x + y] for tensors of three axes. *)
Definition add3 (x y : list (list (list R))) : option (list (list (list R))) :=
  broadcast_map2 (broadcast_map2 (broadcast_map2 (fun a b => Some (a + b)%R))) x y.

(** [call(inputs)], for the value [bb] of the table: [inputs] has the axes
    batch, head, query and key; the bias is added to every element of the
    batch. *)
Definition call (l : layer) (bb : list (list R))
    (inputs : list (list (list (list R))))
  : option (list (list (list (list R)))) :=
  match gather bb (bb_pos l) with
  | None => None
  | Some pos_bias =>
      match transpose_2_0_1 (Z.to_nat (snd (bb_shape l))) pos_bias with
      | None => None
      | Some pos_bias => Py.sequence (map (fun x => add3 x pos_bias) inputs)
      end
  end.

(** The table as [build] creates it: [add_weight(shape=(kk_blocks,
    num_heads), initializer="zeros")]. *)
Definition initial_bb (l : layer) : list (list R) :=
  repeat (repeat 0%R (Z.to_nat (snd (bb_shape l)))) (Z.to_nat (fst (bb_shape l))).

(** A tensor of [num_heads] x [qq_blocks] x [kk_blocks] values. *)
Definition has_shape (num_heads qq_blocks kk_blocks : Z)
    (x : list (list (list R))) : Prop :=
  length x = Z.to_nat num_heads /\
  Forall (fun head =>
            length head = Z.to_nat qq_blocks /\
            Forall (fun row => length row = Z.to_nat kk_blocks) head) x.

Lemma sequence_map {A B : Type} (f : A -> option B) (g : A -> B) (l : list A) :
  (forall x, In x l -> f x = Some (g x)) ->
  Py.sequence (map f l) = Some (map g l).
Proof.
  induction l as [| a l IH]; intros H; [reflexivity |].
  cbn. rewrite (H a) by now left.
  rewrite IH by (intros x Hx; apply H; now right). reflexivity.
Qed.

(** Where the operation returns its left argument, so does its broadcast. *)
Lemma broadcast_map2_left {A : Type} (f : A -> A -> option A) (x y : list A) :
  length x = length y ->
  (forall a b, In (a, b) (combine x y) -> f a b = Some a) ->
  broadcast_map2 f x y = Some x.
Proof.
  intros Hlen H. unfold broadcast_map2. rewrite Hlen, Nat.eqb_refl.
  rewrite (sequence_map _ fst).
  - f_equal. revert y Hlen H. induction x as [| a x IH]; intros [| b y] Hlen H;
      try discriminate; [reflexivity |].
    cbn. f_equal. apply IH; [now injection Hlen |].
    intros a' b' Hin. apply H. now right.
  - intros [a b] Hin. now apply H.
Qed.

Lemma gather_zeros (rows cols : nat) (indices : list (list Z)) :
  Forall (Forall (fun i => 0 <= i < Z.of_nat rows)) indices ->
  gather (repeat (repeat 0%R cols) rows) indices =
  Some (map (map (fun _ => repeat 0%R cols)) indices).
Proof.
  intros H. unfold gather. apply sequence_map.
  intros row Hrow. apply sequence_map. intros i Hi.
  rewrite Forall_forall in H. specialize (H row Hrow).
  rewrite Forall_forall in H. specialize (H i Hi).
  unfold gather1. destruct (Z.ltb_spec i 0); [lia |].
  apply nth_error_repeat. lia.
Qed.

Lemma transpose_zeros (num_heads : nat) (indices : list (list Z)) :
  transpose_2_0_1 num_heads (map (map (fun _ => repeat 0%R num_heads)) indices) =
  Some (map (fun _ => map (map (fun _ => 0%R)) indices) (seq 0 num_heads)).
Proof.
  unfold transpose_2_0_1. apply sequence_map. intros h Hh.
  apply in_seq in Hh. rewrite map_map. apply sequence_map.
  intros row _. rewrite map_map. apply sequence_map.
  intros i _. apply nth_error_repeat. lia.
Qed.

Lemma bb_pos_lengths (num_heads qq_blocks kk_blocks : Z) (l : layer) :
  build num_heads qq_blocks kk_blocks = Some l ->
  length (bb_pos l)
  = (Z.to_nat (int_sqrt qq_blocks) * Z.to_nat (int_sqrt qq_blocks))%nat /\
  Forall (fun row => length row
                     = (Z.to_nat (int_sqrt kk_blocks) * Z.to_nat (int_sqrt kk_blocks))%nat)
    (bb_pos l).
Proof.
  intros Hb. apply build_bb_pos in Hb. destruct Hb as [_ ->].
  destruct (coordinates_meshgrid (int_sqrt qq_blocks)) as [Lq _].
  destruct (coordinates_meshgrid (int_sqrt kk_blocks)) as [Lk _].
  split.
  - now rewrite length_map.
  - apply Forall_map, Forall_forall. intros a _. now rewrite length_map.
Qed.

(** A layer that has just been built adds nothing: its table is zero, and
    [call] returns the attention scores it is given. *)
Theorem call_initial (num_heads qq_blocks kk_blocks : Z) (l : layer)
    (inputs : list (list (list (list R)))) :
  build num_heads qq_blocks kk_blocks = Some l ->
  0 < qq_blocks ->
  int_sqrt qq_blocks * int_sqrt qq_blocks = qq_blocks ->
  int_sqrt kk_blocks * int_sqrt kk_blocks = kk_blocks ->
  (int_sqrt qq_blocks - 1) * strides l <= int_sqrt kk_blocks - 1 ->
  Forall (has_shape num_heads qq_blocks kk_blocks) inputs ->
  call l (initial_bb l) inputs = Some inputs.
Proof.
  intros Hb Hq Sq Sk Hfit Hin.
  assert (Hkk : 0 <= kk_blocks) by (rewrite <- Sk; apply Z.square_nonneg).
  destruct (build_bb_pos _ _ _ _ Hb) as [Hs _].
  assert (Hs0 : 0 <= strides l).
  { exact (proj1 (ceil_sqrt_ratio_spec _ _ _ Hq Hkk Hs)). }
  pose proof (bb_pos_bound _ _ _ _ Hkk Hb Hs0 Hfit) as Hrange.
  destruct (bb_pos_lengths _ _ _ _ Hb) as [Lq Lk].
  assert (Hshape : bb_shape l = (kk_blocks, num_heads)).
  { unfold build in Hb.
    destruct (ceil_sqrt_ratio kk_blocks qq_blocks); [| discriminate].
    now injection Hb as <-. }
  unfold call, initial_bb. rewrite Hshape. cbn [fst snd].
  rewrite gather_zeros by (now rewrite Z2Nat.id).
  rewrite transpose_zeros.
  rewrite (sequence_map _ (fun x => x)); [now rewrite map_id |].
  intros x Hx. rewrite Forall_forall in Hin. destruct (Hin x Hx) as [Lx Hheads].
  unfold add3. apply broadcast_map2_left.
  { now rewrite length_map, length_seq. }
  intros head z Hhz.
  pose proof (in_combine_l _ _ _ _ Hhz) as Hhead.
  pose proof (in_combine_r _ _ _ _ Hhz) as Hz.
  apply in_map_iff in Hz. destruct Hz as [h [<- _]].
  rewrite Forall_forall in Hheads. destruct (Hheads head Hhead) as [Lh Hrows].
  apply broadcast_map2_left.
  { rewrite length_map, Lh, Lq, <- Sq at 1.
    unfold int_sqrt. rewrite Z2Nat.inj_mul by apply Z.sqrt_nonneg. reflexivity. }
  intros row zr Hrz.
  pose proof (in_combine_l _ _ _ _ Hrz) as Hrow.
  pose proof (in_combine_r _ _ _ _ Hrz) as Hzr.
  apply in_map_iff in Hzr. destruct Hzr as [irow [<- Hirow]].
  rewrite Forall_forall in Hrows, Lk.
  apply broadcast_map2_left.
  { rewrite length_map, (Hrows row Hrow), (Lk irow Hirow), <- Sk at 1.
    unfold int_sqrt. rewrite Z2Nat.inj_mul by apply Z.sqrt_nonneg. reflexivity. }
  intros a b Hab.
  pose proof (in_combine_r _ _ _ _ Hab) as Hb0.
  apply in_map_iff in Hb0. destruct Hb0 as [i [<- _]].
  f_equal. apply Rplus_0_r.
Qed.

(** *** The value of [call], entry by entry *)

Lemma broadcast_map2_same_length {A : Type} (f : A -> A -> option A)
    (g : A -> A -> A) (x y : list A) :
  length x = length y ->
  (forall a b, In (a, b) (combine x y) -> f a b = Some (g a b)) ->
  broadcast_map2 f x y = Some (map (fun p => g (fst p) (snd p)) (combine x y)).
Proof.
  intros Hlen H. unfold broadcast_map2. rewrite Hlen, Nat.eqb_refl.
  apply sequence_map. intros [a b] Hin. now apply H.
Qed.

Lemma nth_map_combine {A B C : Type} (f : A * B -> C) (x : list A) (y : list B)
    (i : nat) (dx : A) (dy : B) (dc : C) :
  (i < length x)%nat -> length x = length y ->
  nth i (map f (combine x y)) dc = f (nth i x dx, nth i y dy).
Proof.
  intros Hi Hlen.
  rewrite (nth_map_in_range f _ _ (dx, dy))
    by (rewrite length_combine; lia).
  now rewrite combine_nth.
Qed.

Lemma gather_rows (bb : list (list R)) (indices : list (list Z)) :
  Forall (Forall (fun i => 0 <= i < Z.of_nat (length bb))) indices ->
  gather bb indices = Some (map (map (fun i => nth (Z.to_nat i) bb [])) indices).
Proof.
  intros H. unfold gather. apply sequence_map.
  intros row Hrow. apply sequence_map. intros i Hi.
  rewrite Forall_forall in H. specialize (H row Hrow).
  rewrite Forall_forall in H. specialize (H i Hi).
  unfold gather1. destruct (Z.ltb_spec i 0); [lia |].
  apply nth_error_nth'. lia.
Qed.

Lemma transpose_rows (num_heads : nat) (bb : list (list R))
    (indices : list (list Z)) :
  Forall (fun row => length row = num_heads) bb ->
  Forall (Forall (fun i => 0 <= i < Z.of_nat (length bb))) indices ->
  transpose_2_0_1 num_heads (map (map (fun i => nth (Z.to_nat i) bb [])) indices) =
  Some (map (fun h =>
               map (map (fun i => nth h (nth (Z.to_nat i) bb []) 0%R)) indices)
            (seq 0 num_heads)).
Proof.
  intros Hbb Hrange. unfold transpose_2_0_1. apply sequence_map. intros h Hh.
  apply in_seq in Hh. rewrite map_map. apply sequence_map.
  intros row Hrow. rewrite map_map. apply sequence_map.
  intros i Hi. apply nth_error_nth'.
  rewrite Forall_forall in Hrange. specialize (Hrange row Hrow).
  rewrite Forall_forall in Hrange. specialize (Hrange i Hi).
  rewrite Forall_forall in Hbb. rewrite Hbb; [lia |].
  apply nth_In. lia.
Qed.

(** The entry of the table that is added to the score of query [q] and key
    [k] in head [h]. *)
Definition pos_bias_entry (l : layer) (bb : list (list R)) (h q k : nat) : R :=
  nth h (nth (Z.to_nat (nth k (nth q (bb_pos l) []) 0)) bb []) 0%R.

(** An entry of a tensor of three axes. *)
Definition entry (x : list (list (list R))) (h q k : nat) : R :=
  nth k (nth q (nth h x []) []) 0%R.

Lemma Forall2_map_r {A B : Type} (R : A -> B -> Prop) (g : A -> B) (l : list A) :
  (forall x, In x l -> R x (g x)) -> Forall2 R l (map g l).
Proof.
  induction l as [| x l IH]; intros H; cbn; constructor.
  - apply H. now left.
  - apply IH. intros y Hy. apply H. now right.
Qed.

(** [call] adds to the score of query [q] and key [k] in head [h], in every
    element of the batch, the entry [bb[bb_pos[q, k], h]] of the table. *)
Theorem call_entry (num_heads qq_blocks kk_blocks : Z) (l : layer)
    (bb : list (list R)) (inputs : list (list (list (list R)))) :
  build num_heads qq_blocks kk_blocks = Some l ->
  0 < qq_blocks ->
  int_sqrt qq_blocks * int_sqrt qq_blocks = qq_blocks ->
  int_sqrt kk_blocks * int_sqrt kk_blocks = kk_blocks ->
  (int_sqrt qq_blocks - 1) * strides l <= int_sqrt kk_blocks - 1 ->
  length bb = Z.to_nat kk_blocks ->
  Forall (fun row => length row = Z.to_nat num_heads) bb ->
  Forall (has_shape num_heads qq_blocks kk_blocks) inputs ->
  exists outputs,
    call l bb inputs = Some outputs /\
    Forall2 (fun x y =>
               forall h q k,
                 (h < Z.to_nat num_heads)%nat -> (q < Z.to_nat qq_blocks)%nat ->
                 (k < Z.to_nat kk_blocks)%nat ->
                 entry y h q k = (entry x h q k + pos_bias_entry l bb h q k)%R)
      inputs outputs.
Proof.
  intros Hb Hq Sq Sk Hfit Lbb Hbb Hin.
  assert (Hkk : 0 <= kk_blocks) by (rewrite <- Sk; apply Z.square_nonneg).
  destruct (build_bb_pos _ _ _ _ Hb) as [Hs _].
  assert (Hs0 : 0 <= strides l).
  { exact (proj1 (ceil_sqrt_ratio_spec _ _ _ Hq Hkk Hs)). }
  pose proof (bb_pos_bound _ _ _ _ Hkk Hb Hs0 Hfit) as Hrange.
  assert (Hrange' : Forall (Forall (fun i => 0 <= i < Z.of_nat (length bb)))
                      (bb_pos l)).
  { now rewrite Lbb, Z2Nat.id. }
  destruct (bb_pos_lengths _ _ _ _ Hb) as [Lq Lk].
  assert (Lq' : length (bb_pos l) = Z.to_nat qq_blocks).
  { rewrite Lq. unfold int_sqrt in Sq |- *.
    rewrite <- Z2Nat.inj_mul by apply Z.sqrt_nonneg. now rewrite Sq. }
  assert (Lk' : Forall (fun row => length row = Z.to_nat kk_blocks) (bb_pos l)).
  { eapply Forall_impl; [| exact Lk]. cbn beta. intros row ->.
    unfold int_sqrt in Sk |- *.
    rewrite <- Z2Nat.inj_mul by apply Z.sqrt_nonneg. now rewrite Sk. }
  assert (Hshape : bb_shape l = (kk_blocks, num_heads)).
  { unfold build in Hb.
    destruct (ceil_sqrt_ratio kk_blocks qq_blocks); [| discriminate].
    now injection Hb as <-. }
  unfold call. rewrite Hshape. cbn [fst snd].
  rewrite gather_rows by exact Hrange'.
  rewrite transpose_rows by assumption.
  set (bias := map _ (seq 0 (Z.to_nat num_heads))).
  set (add1 := fun p : list R * list R =>
                 map (fun ab => (fst ab + snd ab)%R) (combine (fst p) (snd p))).
  set (add2 := fun p : list (list R) * list (list R) =>
                 map add1 (combine (fst p) (snd p))).
  assert (Hbias : forall h, (h < Z.to_nat num_heads)%nat ->
            nth h bias [] =
            map (map (fun i => nth h (nth (Z.to_nat i) bb []) 0%R)) (bb_pos l)).
  { intros h Hh. unfold bias.
    rewrite (nth_map_in_range _ _ _ O) by now rewrite length_seq.
    now rewrite seq_nth. }
  assert (Lbias : length bias = Z.to_nat num_heads).
  { unfold bias. now rewrite length_map, length_seq. }
  assert (Hadd : forall x, In x inputs ->
            add3 x bias = Some (map add2 (combine x bias))).
  { intros x Hx. rewrite Forall_forall in Hin. destruct (Hin x Hx) as [Lx Hheads].
    unfold add3.
    apply (broadcast_map2_same_length _ (fun a b => add2 (a, b)));
      [now rewrite Lbias |].
    intros head z Hhz.
    pose proof (in_combine_l _ _ _ _ Hhz) as Hhead.
    pose proof (in_combine_r _ _ _ _ Hhz) as Hz.
    apply in_map_iff in Hz. destruct Hz as [h [<- _]].
    rewrite Forall_forall in Hheads. destruct (Hheads head Hhead) as [Lh Hrows].
    apply (broadcast_map2_same_length _ (fun a b => add1 (a, b)));
      [now rewrite length_map, Lh, Lq' |].
    intros row zr Hrz.
    pose proof (in_combine_l _ _ _ _ Hrz) as Hrow.
    pose proof (in_combine_r _ _ _ _ Hrz) as Hzr.
    apply in_map_iff in Hzr. destruct Hzr as [irow [<- Hirow]].
    rewrite Forall_forall in Hrows, Lk'.
    apply (broadcast_map2_same_length _ (fun a b => (a + b)%R));
      [now rewrite length_map, (Hrows row Hrow), (Lk' irow Hirow) |].
    reflexivity. }
  exists (map (fun x => map add2 (combine x bias)) inputs).
  split; [now apply sequence_map |].
  apply Forall2_map_r. intros x Hx h q k Hh Hq' Hk.
  rewrite Forall_forall in Hin. destruct (Hin x Hx) as [Lx Hheads].
  rewrite Forall_forall in Hheads.
  assert (Hhead : In (nth h x []) x) by (apply nth_In; lia).
  destruct (Hheads _ Hhead) as [Lh Hrows]. rewrite Forall_forall in Hrows.
  assert (Hrow : In (nth q (nth h x []) []) (nth h x [])) by (apply nth_In; lia).
  pose proof (Hrows _ Hrow) as Lr.
  assert (Hirow : In (nth q (bb_pos l) []) (bb_pos l)) by (apply nth_In; lia).
  rewrite Forall_forall in Lk'. pose proof (Lk' _ Hirow) as Li.
  unfold entry, pos_bias_entry.
  rewrite (nth_map_combine add2 x bias h [] []) by lia.
  rewrite (Hbias h Hh). unfold add2 at 1. cbn [fst snd].
  rewrite (nth_map_combine add1 _ _ q [] []) by (rewrite ?length_map; lia).
  rewrite (nth_map_in_range _ (bb_pos l) q []) by lia.
  unfold add1 at 1. cbn [fst snd].
  rewrite (nth_map_combine _ _ _ k 0%R 0%R) by (rewrite ?length_map; lia).
  cbn [fst snd].
  rewrite (nth_map_in_range _ (nth q (bb_pos l) []) k 0) by lia.
  reflexivity.
Qed.

(** *** On four query blocks against nine key blocks *)

(** One element of a batch: one head, every score 1. *)
Definition example_scores : list (list (list (list R))) :=
  [[repeat (repeat 1%R 9) 4]].

Lemma example_scores_shape : Forall (has_shape 1 4 9) example_scores.
Proof.
  repeat constructor.
Qed.

Lemma call_initial_witness :
  exists l,
    build 1 4 9 = Some l /\
    call l (initial_bb l) example_scores = Some example_scores.
Proof.
  assert (E : exists l, build 1 4 9 = Some l) by (eexists; reflexivity).
  destruct E as [l E]. exists l. split; [exact E |].
  assert (Hq : 0 < 4) by reflexivity.
  assert (Hfit : (int_sqrt 4 - 1) * strides l <= int_sqrt 9 - 1).
  { vm_compute in E. injection E as <-. vm_compute. discriminate. }
  exact (call_initial 1 4 9 l example_scores E Hq eq_refl eq_refl Hfit
           example_scores_shape).
Defined.

Lemma call_entry_witness :
  exists l outputs,
    build 1 4 9 = Some l /\
    call l (repeat [2%R] 9) example_scores = Some outputs /\
    Forall2 (fun x y =>
               forall h q k,
                 (h < Z.to_nat 1)%nat -> (q < Z.to_nat 4)%nat ->
                 (k < Z.to_nat 9)%nat ->
                 entry y h q k
                 = (entry x h q k + pos_bias_entry l (repeat [2%R] 9) h q k)%R)
      example_scores outputs.
Proof.
  assert (E : exists l, build 1 4 9 = Some l) by (eexists; reflexivity).
  destruct E as [l E]. exists l.
  assert (Hq : 0 < 4) by reflexivity.
  assert (Hfit : (int_sqrt 4 - 1) * strides l <= int_sqrt 9 - 1).
  { vm_compute in E. injection E as <-. vm_compute. discriminate. }
  assert (Hbb : Forall (fun row : list R => length row = Z.to_nat 1)
                  (repeat [2%R] 9)).
  { repeat constructor. }
  destruct (call_entry 1 4 9 l (repeat [2%R] 9) example_scores E Hq eq_refl
              eq_refl Hfit eq_refl Hbb example_scores_shape)
    as [outputs [H1 H2]].
  exists outputs. split; [exact E |]. split; [exact H1 | exact H2].
Defined.

End PositionalEmbeddingCall.

(** ** More on [hard_swish]: its range *)

Module ActivationFacts.

Import Activation.
Local Open Scope R_scope.

(** The activation lies between zero and its argument, and never below
    [-3/8], the value at the vertex [-3/2] of the parabola. *)
Theorem hard_swish_bounds (x : R) :
  Rmin x 0 <= hard_swish x <= Rmax x 0 /\
  -3 / 8 <= hard_swish x /\
  hard_swish (-3 / 2) = -3 / 8.
Proof.
  split; [| split].
  - unfold Rmin, Rmax. destruct (Rle_dec x (-3)) as [H1 | H1].
    + rewrite hard_swish_low by lra. repeat (destruct Rle_dec); lra.
    + destruct (Rle_dec x 3) as [H2 | H2].
      * rewrite hard_swish_mid by lra. repeat (destruct Rle_dec); split; nra.
      * rewrite hard_swish_high by lra. repeat (destruct Rle_dec); lra.
  - destruct (Rle_dec x (-3)) as [H1 | H1].
    + rewrite hard_swish_low by lra. lra.
    + destruct (Rle_dec x 3) as [H2 | H2].
      * rewrite hard_swish_mid by lra.
        pose proof (Rle_0_sqr (2 * x + 3)) as Hsq. unfold Rsqr in Hsq. lra.
      * rewrite hard_swish_high by lra. lra.
  - rewrite hard_swish_mid by lra. lra.
Qed.

End ActivationFacts.

(** ** More on [conv2d_no_bias]: the padding *)

Module LeViTConv.

Import Graph LeViT LeViTShapes.
Local Open Scope string_scope.
Local Open Scope Z_scope.

(** With ["same"] padding the input is padded by [kernel_size // 2] on every
    side before a convolution without padding.  For an odd kernel this
    leaves [ceil(h / strides)] rows, as the padding ["same"] of the
    convolution itself would; for an even kernel it leaves
    [h // strides + 1]. *)
Theorem conv2d_no_bias_same inputs filters kernel_size strides padding use_bias
    name (h w c : Z) :
  t_shape inputs = [h; w; c] -> 1 <= h -> 1 <= w -> 1 <= filters ->
  1 <= kernel_size -> 1 <= strides -> Py.upper padding = "SAME" ->
  runs (conv2d_no_bias inputs filters kernel_size strides padding use_bias name)
    (fun t => t_shape t =
              if Z.odd kernel_size
              then [(h + strides - 1) / strides; (w + strides - 1) / strides; filters]
              else [h / strides + 1; w / strides + 1; filters]).
Proof.
  intros Hs Hh Hw _ Hk Hst Hp. unfold conv2d_no_bias.
  rewrite Hp, String.eqb_refl.
  eapply runs_bind.
  { apply runs_call. unfold output_shapes, map. rewrite Hs. reflexivity. }
  cbn beta. intros padded Hpad.
  apply runs_call. unfold output_shapes, map. rewrite Hpad.
  pose proof (Z.div_mod kernel_size 2 ltac:(lia)) as Hdm.
  pose proof (Z.mod_pos_bound kernel_size 2 ltac:(lia)) as Hmod.
  destruct (Z.leb_spec kernel_size (h + 2 * (kernel_size / 2))); [| lia].
  destruct (Z.leb_spec kernel_size (w + 2 * (kernel_size / 2))); [| lia].
  destruct (Z.ltb_spec 0 strides); [| lia].
  destruct (Z.ltb_spec 0 kernel_size); [| lia].
  cbn [andb].
  assert (Hceil : forall x, (x - 1) / strides + 1 = (x + strides - 1) / strides).
  { intros x. replace (x + strides - 1) with ((x - 1) + 1 * strides) by lia.
    rewrite Z.div_add by lia. reflexivity. }
  destruct (Z.odd kernel_size) eqn:E.
  - apply Z.odd_spec in E. destruct E as [m Hm].
    replace (h + 2 * (kernel_size / 2) - kernel_size) with (h - 1) by lia.
    replace (w + 2 * (kernel_size / 2) - kernel_size) with (w - 1) by lia.
    now rewrite !Hceil.
  - rewrite <- Z.negb_even in E. apply negb_false_iff in E.
    apply Z.even_spec in E. destruct E as [m Hm].
    replace (h + 2 * (kernel_size / 2) - kernel_size) with h by lia.
    replace (w + 2 * (kernel_size / 2) - kernel_size) with w by lia.
    reflexivity.
Qed.

Lemma conv2d_no_bias_same_witness :
  exists t g,
    conv2d_no_bias (mk_tensor 0 0 [14; 14; 128]) 64 2 1 "same" false "even_" []
    = Some (t, g) /\
    t_shape t = [15; 15; 64].
Proof.
  destruct (conv2d_no_bias_same (mk_tensor 0 0 [14; 14; 128]) 64 2 1 "same"
              false "even_" 14 14 128 eq_refl ltac:(discriminate)
              ltac:(discriminate) ltac:(discriminate) ltac:(discriminate)
              ltac:(discriminate) eq_refl [])
    as [t [g [E Ht]]].
  exists t, g. split; [exact E | exact Ht].
Defined.

End LeViTConv.
